(** * fbot: profit estimator, arbitrage engine and MCP coordinator

    A shallow embedding of three parts of the flash-loan arbitrage bot:

    - [Estimator]   : [ProfitEstimator] (strategy-engine/profit-estimator.js)
    - [Estimator64] : [ProfitEstimator] once more, in double arithmetic
    - [Engine]      : the scan / rank / enqueue path of [ArbitrageEngine]
                      (src/arbitrage/arbitrage-engine.js) and the detection
                      tick of [SameChainArbitrage]
    - [Coordinator] : health, circuit breakers, load balancing and routing of
                      [MCPCoordinator] (src/mcp-integration/mcp-coordinator.js)

    and, around them,

    - [EstimatorMore]   : [batchEstimate]
    - [EngineMore]      : [validateOpportunity] and the worker of the
                          execution queue of [ArbitrageEngine]
    - [SameChain]       : [SameChainArbitrage], from the market data to the
                          simulated executions and the metrics
    - [CoordinatorMore] : [withRetry], and the invariants of the tracking
                          maps of [MCPCoordinator]

    Conventions of the embedding.

    - Numbers come in two readings.  [Double] is the code's own
      arithmetic: IEEE 754 doubles, with rounding, signed zeros, infinities
      and [NaN]; [Estimator64] and [Engine] compute in it, and so does the
      validation of [EngineMore]: what is said of the admission threshold,
      of the confidence, of trade sizes and of the ranking is said there.  [JS.number] is a rational or
      [NaN], for quantities that are finite and whose divisors are not
      zero; [Estimator], [SameChain] and the weights of [Coordinator] use
      it, for properties of the formulas that do not turn on the last
      digit.
    - [Date.now()] and [Math.random()] are explicit arguments.
    - Logging is not represented: it does not flow into any returned value.
    - A [Map] that the code iterates is an association list in insertion
      order; a [Map] that is only looked up and updated is a [gmap]. *)

From Stdlib Require Import QArith Qminmax Qabs Lqa ZArith Lia Bool.
From Stdlib Require Import Sorting.Sorted Sorting.Permutation.
From Stdlib Require Import Qround Floats.
From stdpp Require Import base option list strings gmap.

Local Open Scope Q_scope.

(** ** JavaScript numbers, read as rationals

    A finite number is the rational that it denotes; the operations are
    exact.  The infinities and [-0] are not values of this type: see
    [Double]. *)

Module JS.

Inductive number : Type :=
| Num (q : Q)
| NaN.

Definition lift2 (f : Q -> Q -> Q) (a b : number) : number :=
  match a, b with
  | Num x, Num y => Num (f x y)
  | _, _ => NaN
  end.

Definition add : number -> number -> number := lift2 Qplus.
Definition sub : number -> number -> number := lift2 Qminus.
Definition mul : number -> number -> number := lift2 Qmult.

(** The quotient, where the divisor is not zero.  A quotient by zero is an
    infinity or [NaN] in the code and has no value in this type; [div]
    answers [NaN], which the comparisons treat as the code treats [NaN].
    The divisors below are constants, quantities that validation has found
    positive, or depths that [orDefault] keeps away from zero; where a
    divisor can be zero, the place says so. *)
Definition div (a b : number) : number :=
  match a, b with
  | Num x, Num y => if Qeq_bool y 0 then NaN else Num (x / y)
  | _, _ => NaN
  end.

(** Relational operators: every comparison with [NaN] is false. *)
Definition cmp (f : Q -> Q -> bool) (a b : number) : bool :=
  match a, b with
  | Num x, Num y => f x y
  | _, _ => false
  end.

Definition Qlt_bool (x y : Q) : bool := negb (Qle_bool y x).

Definition le : number -> number -> bool := cmp Qle_bool.
Definition lt : number -> number -> bool := cmp Qlt_bool.
Definition ge (a b : number) : bool := le b a.
Definition gt (a b : number) : bool := lt b a.

(** [Math.min] and [Math.max]. *)
Definition min : number -> number -> number := lift2 Qmin.
Definition max : number -> number -> number := lift2 Qmax.

(** Agreement of two numbers as values (fractions are not normalised). *)
Definition eqv (a b : number) : Prop :=
  match a, b with
  | Num x, Num y => x == y
  | NaN, NaN => True
  | _, _ => False
  end.

(** [ToNumber] of a numeric field that may be absent ([undefined]). *)
Definition toNumber (x : option Q) : number :=
  match x with
  | Some q => Num q
  | None => NaN
  end.

(** [x || d] on an optional numeric field: [undefined], [null] and [0] are
    falsy. *)
Definition orDefault (x : option Q) (d : Q) : Q :=
  match x with
  | Some q => if Qeq_bool q 0 then d else q
  | None => d
  end.

(** [s || d] on an optional string: the empty string is falsy. *)
Definition orDefaultStr (x : option string) (d : string) : string :=
  match x with
  | Some s => if String.eqb s "" then d else s
  | None => d
  end.

(** *** Property read on an object literal

    [obj[key]] on a plain object finds the object's own properties first and
    then those inherited from [Object.prototype], which are functions (or,
    for [__proto__], an object). *)

Inductive value : Type :=
| VNum (q : Q)
| VObject
| VUndefined.

Definition objectPrototypeKeys : list string :=
  [ "constructor"; "__proto__"; "hasOwnProperty"; "isPrototypeOf";
    "propertyIsEnumerable"; "toLocaleString"; "toString"; "valueOf";
    "__defineGetter__"; "__defineSetter__"; "__lookupGetter__";
    "__lookupSetter__" ]%string.

Fixpoint ownProperty (own : list (string * Q)) (key : string) : option Q :=
  match own with
  | [] => None
  | (k, v) :: rest => if String.eqb k key then Some v else ownProperty rest key
  end.

Definition getProperty (own : list (string * Q)) (key : string) : value :=
  match ownProperty own key with
  | Some q => VNum q
  | None =>
      if existsb (String.eqb key) objectPrototypeKeys then VObject
      else VUndefined
  end.

(** [ToBoolean]. *)
Definition truthy (v : value) : bool :=
  match v with
  | VNum q => negb (Qeq_bool q 0)
  | VObject => true
  | VUndefined => false
  end.

(** [ToNumber]: a function or [undefined] becomes [NaN]. *)
Definition valueToNumber (v : value) : number :=
  match v with
  | VNum q => Num q
  | VObject | VUndefined => NaN
  end.

(** *** [Array.prototype.sort] with a comparator

    The sort is stable; [x] stays ahead of [y] unless the comparator returns
    a positive number ([NaN] counts as [0]).  For a comparator that is not a
    consistent order the language leaves the result to the engine; this is
    the result of inserting the elements from the right. *)

Section Sort.
Context {A : Type}.
Variable compareFn : A -> A -> number.

Definition keepsOrder (x y : A) : bool :=
  match compareFn x y with
  | Num v => Qle_bool v 0
  | NaN => true
  end.

Fixpoint insertSorted (x : A) (l : list A) : list A :=
  match l with
  | [] => [x]
  | y :: rest =>
      if keepsOrder x y then x :: y :: rest else y :: insertSorted x rest
  end.

Definition sort (l : list A) : list A := fold_right insertSorted [] l.

End Sort.

(** The comparator [(a, b) => key(b) - key(a)], the order it is meant to
    produce, and the elements on which it is a number. *)
Section ByKey.
Context {A : Type}.
Variable key : A -> number.

Definition descending (a b : A) : number := sub (key b) (key a).
Definition notBelow (a b : A) : Prop := ge (key a) (key b) = true.
Definition numeric (a : A) : Prop := exists q, key a = Num q.

End ByKey.

End JS.

Set Warnings "-inexact-float".

(** ** Doubles

    IEEE 754 binary64 numbers as the primitive floats of Rocq: the four
    operations and the comparisons are those of the hardware, as in
    JavaScript, and a decimal literal denotes the nearest double.  What the
    runtime adds is modelled on top: [Math.min] and [Math.max], truthiness,
    fields that may be [undefined] or [null], property reads, and the
    conversions between a double and a decimal string ([toString], and
    [Number] of a string). *)

Module Double.
Import PrimFloat FloatOps SpecFloat.

(** The exact value of a finite double. *)
Definition toQ (x : float) : option Q :=
  match Prim2SF x with
  | S754_zero _ => Some 0
  | S754_finite s m e =>
      let mantissa := inject_Z (if s then Zneg m else Zpos m) in
      Some (if (0 <=? e)%Z then mantissa * inject_Z (2 ^ e)
            else mantissa / inject_Z (2 ^ (- e)))
  | S754_infinity _ | S754_nan => None
  end.

(** The double nearest to a rational, ties to even: [Number(s)] for a
    decimal string [s] that denotes it.  The quotient is taken with two
    bits more than the precision and a sticky bit, and rounded once. *)
Definition ofQ (q : Q) : float :=
  let n := Qnum q in
  let d := Zpos (Qden q) in
  let k := Z.max 0 (prec + 2 + Z.log2_up d - Z.log2 (Z.abs n)) in
  let scaled := (Z.abs n * 2 ^ k)%Z in
  let quotient := (scaled / d)%Z in
  let sticky := if (scaled mod d =? 0)%Z then 0%Z else 1%Z in
  let mantissa := (2 * quotient + sticky)%Z in
  SF2Prim (binary_normalize prec emax
             (if (n <? 0)%Z then (- mantissa)%Z else mantissa)
             (- k - 1) false).

Definition pow10 (n : Z) : Q :=
  if (0 <=? n)%Z then inject_Z (10 ^ n) else 1 / inject_Z (10 ^ (- n)).

(** The least [n] with [v < 10 ^ n], for [v] positive, from an estimate
    that is off by one or two. *)
Fixpoint settle (fuel : nat) (v : Q) (n : Z) : Z :=
  match fuel with
  | O => n
  | S fuel' =>
      if Qle_bool (pow10 n) v then settle fuel' v (n + 1)%Z
      else if Qle_bool (pow10 (n - 1)) v then n
      else settle fuel' v (n - 1)%Z
  end.

Definition decimalExponent (v : Q) : Z :=
  let estimate :=
    ((Z.log2 (Qnum v) - Z.log2 (Zpos (Qden v))) * 30103 / 100000)%Z in
  settle 8 v estimate.

Definition roundTrips (x : float) (c : Q) : bool := PrimFloat.eqb (ofQ c) x.

(** The decimal of [k] digits that reads back as [x], if there is one: the
    one nearest to the value [v] of [x], the even one on a tie. *)
Definition candidate (x : float) (v : Q) (n : Z) (k : Z) : option Q :=
  let scale := pow10 (n - k) in
  let low := Qfloor (v / scale) in
  let below := inject_Z low * scale in
  let above := inject_Z (low + 1) * scale in
  match roundTrips x below, roundTrips x above with
  | true, true =>
      let dl := v - below in
      let dh := above - v in
      if Qeq_bool dl dh then Some (if Z.even low then below else above)
      else if Qle_bool dl dh then Some below else Some above
  | true, false => Some below
  | false, true => Some above
  | false, false => None
  end.

Fixpoint fewestDigits (fuel : nat) (x : float) (v : Q) (n : Z) (k : Z) : Q :=
  match fuel with
  | O => v
  | S fuel' =>
      match candidate x v n k with
      | Some c => c
      | None => fewestDigits fuel' x v n (k + 1)%Z
      end
  end.

(** The number that the digits of [x.toString()] denote, for [x] positive
    and finite: the decimal with the fewest digits that reads back as
    [x]. *)
Definition shortest (x : float) : Q :=
  match toQ x with
  | Some v =>
      if Qle_bool v 0 then 0
      else Qred (fewestDigits 17 x v (decimalExponent v) 1)
  | None => 0
  end.

(** [Math.min] and [Math.max]: [NaN] if an argument is [NaN], and [-0]
    below [+0]. *)
Definition min (x y : float) : float :=
  if is_nan x || is_nan y then nan
  else if PrimFloat.ltb x y then x
  else if PrimFloat.ltb y x then y
  else if get_sign x then x else y.

Definition max (x y : float) : float :=
  if is_nan x || is_nan y then nan
  else if PrimFloat.ltb x y then y
  else if PrimFloat.ltb y x then x
  else if get_sign x then y else x.

(** What [Array.prototype.sort] reads of the number that a comparator
    returns: whether it is positive, negative, zero or [NaN]. *)
Definition sign (x : float) : JS.number :=
  if is_nan x then JS.NaN
  else if PrimFloat.ltb 0 x then JS.Num 1
  else if PrimFloat.ltb x 0 then JS.Num (-1)
  else JS.Num 0.

(** [ToBoolean] of a number. *)
Definition truthy (x : float) : bool := negb (is_zero x || is_nan x).

(** A field that holds a number when it is there. *)
Inductive field : Type :=
| Undefined
| Null
| Number (x : float).

Definition missing (f : field) : bool :=
  match f with
  | Number _ => false
  | Undefined | Null => true
  end.

(** [ToNumber]. *)
Definition toNumber (f : field) : float :=
  match f with
  | Undefined => nan
  | Null => 0%float
  | Number x => x
  end.

(** [f || d]. *)
Definition orDefault (f : field) (d : float) : float :=
  match f with
  | Number x => if truthy x then x else d
  | Undefined | Null => d
  end.

(** [obj[key]] on an object literal whose own properties are numbers: own
    properties first, then those inherited from [Object.prototype]. *)
Inductive value : Type :=
| VNum (x : float)
| VObject
| VUndefined.

Fixpoint ownProperty (own : list (string * float)) (key : string)
  : option float :=
  match own with
  | [] => None
  | (k, v) :: rest => if String.eqb k key then Some v else ownProperty rest key
  end.

Definition getProperty (own : list (string * float)) (key : string) : value :=
  match ownProperty own key with
  | Some x => VNum x
  | None =>
      if existsb (String.eqb key) JS.objectPrototypeKeys then VObject
      else VUndefined
  end.

Definition truthyValue (v : value) : bool :=
  match v with
  | VNum x => truthy x
  | VObject => true
  | VUndefined => false
  end.

Definition valueToNumber (v : value) : float :=
  match v with
  | VNum x => x
  | VObject | VUndefined => nan
  end.

End Double.

(** ** The profit estimator *)

Module Estimator.
Import JS.

(** [this.config] of [ProfitEstimator]. *)
Record Config : Type := {
  minProfitThreshold : Q;
  maxGasPriceGwei : Q;
  maxSlippage : Q;
  reserveBuffer : Q
}.

Definition defaultConfig : Config := {|
  minProfitThreshold := 0.0025;
  maxGasPriceGwei := 50;
  maxSlippage := 0.001;
  reserveBuffer := 0.1
|}.

(** [this.gasEstimates], in gas units. *)
Definition gas_flashLoanRequest : Z := 150000.
Definition gas_dexSwap : Z := 200000.
Definition gas_flashLoanRepay : Z := 100000.
Definition gas_totalBuffer : Z := 50000.

(** [this.flashLoanFees] and [this.dexFees], in basis points. *)
Definition flashLoanFees : list (string * Q) :=
  [ ("venus", 9); ("aave", 9); ("compound", 0) ]%string.

Definition dexFees : list (string * Q) :=
  [ ("pancakeswap", 25); ("biswap", 10); ("quickswap", 30);
    ("sushiswap", 30); ("uniswap", 30); ("uniswap-v3", 5);
    ("curve", 4) ]%string.

(** The opportunity object.  [None] stands for a field that is [undefined]
    or [null]. *)
Record Opportunity : Type := {
  priceDelta : option Q;
  volume : option Q;
  gasPrice : option Q;
  flashLoanProvider : option string;
  dexA : option string;
  dexB : option string;
  liquidityA : option Q;
  liquidityB : option Q;
  ethPriceUsd : option Q;
  id : option string;
  chain : option string
}.

(** A property key made from a field: [undefined] becomes the key
    ["undefined"]. *)
Definition keyOf (x : option string) : string :=
  match x with
  | Some s => s
  | None => "undefined"
  end.

Definition present {A : Type} (x : option A) : bool :=
  match x with
  | Some _ => true
  | None => false
  end.

(** [validateOpportunity]: the six required fields, then the three numeric
    guards, then the provider and the two venues. *)
Definition validateOpportunity (o : Opportunity) : bool :=
  if negb (present (priceDelta o) && present (volume o) && present (gasPrice o)
           && present (flashLoanProvider o) && present (dexA o)
           && present (dexB o))
  then false
  else if le (toNumber (priceDelta o)) (Num 0)
          || le (toNumber (volume o)) (Num 0)
          || le (toNumber (gasPrice o)) (Num 0)
  then false
  else if negb (truthy (getProperty flashLoanFees (keyOf (flashLoanProvider o))))
  then false
  else if negb (truthy (getProperty dexFees (keyOf (dexA o))))
          || negb (truthy (getProperty dexFees (keyOf (dexB o))))
  then false
  else true.

(** [calculateBaseProfit]. *)
Definition calculateBaseProfit (o : Opportunity) : number :=
  mul (toNumber (priceDelta o)) (toNumber (volume o)).

(** *** Gas price conversion

    [ethers.parseUnits(gasPrice.toString(), 'gwei')].  [Number.prototype.toString]
    prints plain decimal digits for [0] and for magnitudes in [[1e-6, 1e21)], and
    exponent notation otherwise; [parseUnits] accepts only plain decimal
    digits with at most nine decimals and throws on anything else.  The
    result is the price in wei. *)
Definition isInteger (q : Q) : bool :=
  Z.eqb (Z.modulo (Qnum q) (Zpos (Qden q))) 0.

Definition plainDecimal (q : Q) : bool :=
  Qeq_bool q 0
  || (Qle_bool (1 # 1000000) (Qabs q)
      && Qlt_bool (Qabs q) (1000000000000000000000 # 1)).

Definition parseGwei (g : Q) : option Z :=
  let wei := g * (1000000000 # 1) in
  if plainDecimal g && isInteger wei
  then Some (Z.div (Qnum wei) (Zpos (Qden wei)))
  else None.

(** [Number(ethers.formatEther(wei))]. *)
Definition formatEther (wei : Z) : Q :=
  inject_Z wei / (1000000000000000000 # 1).

Record Breakdown : Type := {
  gasCost : number;
  flashLoanFee : number;
  dexFeeA : number;
  dexFeeB : number;
  reserveBufferCost : number
}.

Record Costs : Type := {
  breakdown : Breakdown;
  total : number
}.

(** [calculateCosts].  [None] stands for an exception ([gasPrice] missing, or
    [parseUnits] rejecting its string). *)
Definition calculateCosts (cfg : Config) (o : Opportunity) : option Costs :=
  let totalGasUnits :=
    (gas_flashLoanRequest + gas_dexSwap + gas_flashLoanRepay + gas_totalBuffer)%Z in
  match gasPrice o with
  | None => None
  | Some g =>
      match parseGwei g with
      | None => None
      | Some gasPriceWei =>
          let gasCostWei := (totalGasUnits * gasPriceWei)%Z in
          let gasCostEth := formatEther gasCostWei in
          let ethPrice := orDefault (ethPriceUsd o) 2000 in
          let gasCostUsd := Num (gasCostEth * ethPrice) in
          let vol := toNumber (volume o) in
          let fee (table : list (string * Q)) (name : option string) :=
            div (mul vol (valueToNumber (getProperty table (keyOf name))))
                (Num 10000) in
          let flashFee := fee flashLoanFees (flashLoanProvider o) in
          let feeA := fee dexFees (dexA o) in
          let feeB := fee dexFees (dexB o) in
          let reserve := mul vol (Num (reserveBuffer cfg)) in
          Some {|
            breakdown := {|
              gasCost := gasCostUsd;
              flashLoanFee := flashFee;
              dexFeeA := feeA;
              dexFeeB := feeB;
              reserveBufferCost := reserve
            |};
            total := add (add (add (add gasCostUsd flashFee) feeA) feeB) reserve
          |}
      end
  end.

(** [calculateSlippageImpact]. *)
Definition calculateSlippageImpact (cfg : Config) (o : Opportunity) : number :=
  let liqA := Num (orDefault (liquidityA o) 1000000) in
  let liqB := Num (orDefault (liquidityB o) 1000000) in
  let vol := toNumber (volume o) in
  let slippageA := mul (div vol liqA) (Num 0.5) in
  let slippageB := mul (div vol liqB) (Num 0.5) in
  let totalSlippage := min (add slippageA slippageB) (Num (maxSlippage cfg)) in
  mul totalSlippage vol.

(** [calculateConfidence], for an opportunity that [validateOpportunity]
    accepts: its volume is positive.  [Estimator64.calculateConfidence] is
    the function on every opportunity, in the code's arithmetic. *)
Definition calculateConfidence (cfg : Config) (o : Opportunity) : number :=
  let confidence := Num 1 in
  let confidence :=
    if gt (toNumber (gasPrice o)) (Num (maxGasPriceGwei cfg))
    then mul confidence (Num 0.8) else confidence in
  let minLiquidity :=
    min (Num (orDefault (liquidityA o) 1000000))
        (Num (orDefault (liquidityB o) 1000000)) in
  let confidence :=
    if lt minLiquidity (mul (toNumber (volume o)) (Num 10))
    then mul confidence (Num 0.6) else confidence in
  let margin := div (toNumber (priceDelta o)) (toNumber (volume o)) in
  let confidence :=
    if lt margin (Num 0.005)
    then mul confidence (Num 0.7) else confidence in
  max confidence (Num 0.1).

Inductive Recommendation : Type :=
| STRONG_BUY
| BUY
| WEAK_BUY
| PASS.

(** [getRecommendation]. *)
Definition getRecommendation (cfg : Config) (profitPercent : number)
  : Recommendation :=
  if ge profitPercent (Num 0.01) then STRONG_BUY
  else if ge profitPercent (Num 0.005) then BUY
  else if ge profitPercent (Num (minProfitThreshold cfg)) then WEAK_BUY
  else PASS.

Record Metadata : Type := {
  timestamp : Z;
  opportunityId : string;
  chainName : string
}.

(** The object returned on the main path. *)
Record Estimate : Type := {
  est_profitable : bool;
  est_baseProfit : number;
  est_costs : Breakdown;
  est_totalCosts : number;
  est_netProfit : number;
  est_profitPercent : number;
  est_slippageImpact : number;
  est_threshold : Q;
  est_confidence : number;
  est_recommendation : Recommendation;
  est_metadata : Metadata
}.

(** The three shapes of object that [estimateProfit] returns. *)
Inductive Result : Type :=
| Invalid (reason : string)
| CalcError (reason : string)
| Estimated (e : Estimate).

Definition profitable (r : Result) : bool :=
  match r with
  | Estimated e => est_profitable e
  | _ => false
  end.

Definition reason (r : Result) : option string :=
  match r with
  | Invalid s | CalcError s => Some s
  | Estimated _ => None
  end.

(** [estimateProfit], at wall-clock time [now].  The only statement of the
    [try] block that can throw on an opportunity object is the gas price
    conversion inside [calculateCosts]; the [catch] turns it into the
    ['Calculation error'] object. *)
Definition estimateProfit (cfg : Config) (now : Z) (o : Opportunity) : Result :=
  if negb (validateOpportunity o) then Invalid "Invalid opportunity data"
  else
    let baseProfit := calculateBaseProfit o in
    match calculateCosts cfg o with
    | None => CalcError "Calculation error"
    | Some costs =>
        let netProfit := sub baseProfit (total costs) in
        let slippageImpact := calculateSlippageImpact cfg o in
        let adjustedNetProfit := sub netProfit slippageImpact in
        let adjustedProfitPercent := div adjustedNetProfit (toNumber (volume o)) in
        let finalProfitable :=
          ge adjustedProfitPercent (Num (minProfitThreshold cfg)) in
        Estimated {|
          est_profitable := finalProfitable;
          est_baseProfit := baseProfit;
          est_costs := breakdown costs;
          est_totalCosts := total costs;
          est_netProfit := adjustedNetProfit;
          est_profitPercent := adjustedProfitPercent;
          est_slippageImpact := slippageImpact;
          est_threshold := minProfitThreshold cfg;
          est_confidence := calculateConfidence cfg o;
          est_recommendation := getRecommendation cfg adjustedProfitPercent;
          est_metadata := {|
            timestamp := now;
            opportunityId := orDefaultStr (id o) "unknown";
            chainName := orDefaultStr (chain o) "unknown"
          |}
        |}
    end.

(** The slippage-adjusted net profit divided by the volume, as the body of
    [estimateProfit] computes it ([adjustedProfitPercent]), for an
    opportunity whose volume is not zero; [None] when the gas price
    conversion throws. *)
Definition adjustedProfitPercent (cfg : Config) (o : Opportunity)
  : option number :=
  match calculateCosts cfg o with
  | None => None
  | Some costs =>
      Some (div (sub (sub (calculateBaseProfit o) (total costs))
                     (calculateSlippageImpact cfg o))
                (toNumber (volume o)))
  end.

(** A result with the wall-clock reading in [metadata.timestamp] blanked. *)
Definition withoutTimestamp (r : Result) : Result :=
  match r with
  | Estimated e =>
      Estimated {|
        est_profitable := est_profitable e;
        est_baseProfit := est_baseProfit e;
        est_costs := est_costs e;
        est_totalCosts := est_totalCosts e;
        est_netProfit := est_netProfit e;
        est_profitPercent := est_profitPercent e;
        est_slippageImpact := est_slippageImpact e;
        est_threshold := est_threshold e;
        est_confidence := est_confidence e;
        est_recommendation := est_recommendation e;
        est_metadata := {|
          timestamp := 0;
          opportunityId := opportunityId (est_metadata e);
          chainName := chainName (est_metadata e)
        |}
      |}
  | _ => r
  end.

(** The opportunity used by the bot's own self-test ([testProfitEstimator]). *)
Definition testOpportunity : Opportunity := {|
  priceDelta := Some 100;
  volume := Some 10000;
  gasPrice := Some 20;
  flashLoanProvider := Some "venus"%string;
  dexA := Some "pancakeswap"%string;
  dexB := Some "biswap"%string;
  liquidityA := Some 1000000;
  liquidityB := Some 1000000;
  ethPriceUsd := Some 2000;
  id := None;
  chain := None
|}.

(** The usual BSC opportunity with a chosen price difference and gas price. *)
Definition bscOpportunity (delta gas : Q) : Opportunity := {|
  priceDelta := Some delta;
  volume := Some 10000;
  gasPrice := Some gas;
  flashLoanProvider := Some "venus"%string;
  dexA := Some "pancakeswap"%string;
  dexB := Some "biswap"%string;
  liquidityA := Some 1000000;
  liquidityB := Some 1000000;
  ethPriceUsd := Some 2000;
  id := None;
  chain := None
|}.

(** Net margin of exactly 25 bps, and of 24.99 bps. *)
Definition at25bps : Opportunity := bscOpportunity 0.1099 20.
Definition at2499bps : Opportunity := bscOpportunity 0.109899 20.

(** A price difference of 1 on a chain whose gas is free. *)
Definition freeGas : Opportunity := bscOpportunity 1 0.

(** A gas price with ten decimals. *)
Definition tenDecimals : Opportunity := bscOpportunity 1 20.1234567891.

(** A venue named after a method of [Object.prototype]. *)
Definition inheritedVenue : Opportunity := {|
  priceDelta := Some 1;
  volume := Some 10000;
  gasPrice := Some 20;
  flashLoanProvider := Some "venus"%string;
  dexA := Some "toString"%string;
  dexB := Some "biswap"%string;
  liquidityA := None;
  liquidityB := None;
  ethPriceUsd := None;
  id := None;
  chain := None
|}.

(** A loan from the provider whose fee is zero. *)
Definition compoundLoan : Opportunity := {|
  priceDelta := Some 1;
  volume := Some 10000;
  gasPrice := Some 20;
  flashLoanProvider := Some "compound"%string;
  dexA := Some "uniswap"%string;
  dexB := Some "sushiswap"%string;
  liquidityA := None;
  liquidityB := None;
  ethPriceUsd := None;
  id := None;
  chain := None
|}.

(** A price difference that is small against the volume, with a large net
    margin. *)
Definition smallDelta : Opportunity := bscOpportunity 0.5 20.

End Estimator.

(** ** The profit estimator in double arithmetic

    [ProfitEstimator] once more, statement for statement, on doubles: each
    operation rounds as the code's does.  The numeric fields of an
    opportunity hold numbers when they are there. *)

Module Estimator64.
Import Double.

(** [this.config] of [ProfitEstimator]. *)
Record Config : Type := {
  minProfitThreshold : float;
  maxGasPriceGwei : float;
  maxSlippage : float;
  reserveBuffer : float
}.

Definition defaultConfig : Config := {|
  minProfitThreshold := 0.0025;
  maxGasPriceGwei := 50;
  maxSlippage := 0.001;
  reserveBuffer := 0.1
|}.

(** [this.flashLoanFees] and [this.dexFees], in basis points. *)
Definition flashLoanFees : list (string * float) :=
  [ ("venus"%string, 9); ("aave"%string, 9); ("compound"%string, 0) ]%float.

Definition dexFees : list (string * float) :=
  [ ("pancakeswap"%string, 25); ("biswap"%string, 10);
    ("quickswap"%string, 30); ("sushiswap"%string, 30);
    ("uniswap"%string, 30); ("uniswap-v3"%string, 5);
    ("curve"%string, 4) ]%float.

(** The opportunity object.  For the names, [None] stands for [undefined]
    or [null]. *)
Record Opportunity : Type := {
  priceDelta : field;
  volume : field;
  gasPrice : field;
  flashLoanProvider : option string;
  dexA : option string;
  dexB : option string;
  liquidityA : field;
  liquidityB : field;
  ethPriceUsd : field;
  id : option string;
  chain : option string
}.

(** [validateOpportunity]: the six required fields, then the three numeric
    guards, then the provider and the two venues. *)
Definition validateOpportunity (o : Opportunity) : bool :=
  if missing (priceDelta o) || missing (volume o) || missing (gasPrice o)
     || negb (Estimator.present (flashLoanProvider o))
     || negb (Estimator.present (dexA o))
     || negb (Estimator.present (dexB o))
  then false
  else if (toNumber (priceDelta o) <=? 0)%float
          || (toNumber (volume o) <=? 0)%float
          || (toNumber (gasPrice o) <=? 0)%float
  then false
  else if negb (truthyValue (getProperty flashLoanFees
                               (Estimator.keyOf (flashLoanProvider o))))
  then false
  else if negb (truthyValue (getProperty dexFees (Estimator.keyOf (dexA o))))
          || negb (truthyValue (getProperty dexFees (Estimator.keyOf (dexB o))))
  then false
  else true.

(** [calculateBaseProfit]. *)
Definition calculateBaseProfit (o : Opportunity) : float :=
  (toNumber (priceDelta o) * toNumber (volume o))%float.

(** [ethers.parseUnits(gasPrice.toString(), 'gwei')], the price in wei.
    [toString] prints ["NaN"], ["Infinity"], ["0"] for either zero, and
    otherwise the fewest digits that read back as the number, in plain
    decimal notation for magnitudes in [[1e-6, 1e21)] and in exponent
    notation outside; [parseUnits] accepts plain decimal digits with at most
    nine decimals and throws on anything else. *)
Definition parseGwei (x : float) : option Z :=
  if is_nan x || is_infinity x then None
  else if is_zero x then Some 0%Z
  else
    let digits := shortest (abs x) in
    let wei := digits * (1000000000 # 1) in
    if Qle_bool (1 # 1000000) digits
       && JS.Qlt_bool digits (1000000000000000000000 # 1)
       && Estimator.isInteger wei
    then
      let magnitude := Z.div (Qnum wei) (Zpos (Qden wei)) in
      Some (if get_sign x then (- magnitude)%Z else magnitude)
    else None.

(** [Number(ethers.formatEther(wei))]: [formatEther] prints the decimal
    digits of [wei / 10 ^ 18]. *)
Definition formatEther (wei : Z) : float :=
  ofQ (inject_Z wei / (1000000000000000000 # 1)).

Record Breakdown : Type := {
  gasCost : float;
  flashLoanFee : float;
  dexFeeA : float;
  dexFeeB : float;
  reserveBufferCost : float
}.

Record Costs : Type := {
  breakdown : Breakdown;
  total : float
}.

(** [calculateCosts].  [None] stands for an exception: [gasPrice] is
    [undefined] or [null], or [parseUnits] rejects its string. *)
Definition calculateCosts (cfg : Config) (o : Opportunity) : option Costs :=
  let totalGasUnits :=
    (Estimator.gas_flashLoanRequest + Estimator.gas_dexSwap
     + Estimator.gas_flashLoanRepay + Estimator.gas_totalBuffer)%Z in
  match gasPrice o with
  | Undefined | Null => None
  | Number g =>
      match parseGwei g with
      | None => None
      | Some gasPriceWei =>
          let gasCostWei := (totalGasUnits * gasPriceWei)%Z in
          let gasCostEth := formatEther gasCostWei in
          let ethPrice := orDefault (ethPriceUsd o) 2000 in
          let gasCostUsd := (gasCostEth * ethPrice)%float in
          let vol := toNumber (volume o) in
          let fee (table : list (string * float)) (name : option string) :=
            (vol * valueToNumber (getProperty table (Estimator.keyOf name))
             / 10000)%float in
          let flashFee := fee flashLoanFees (flashLoanProvider o) in
          let feeA := fee dexFees (dexA o) in
          let feeB := fee dexFees (dexB o) in
          let reserve := (vol * reserveBuffer cfg)%float in
          Some {|
            breakdown := {|
              gasCost := gasCostUsd;
              flashLoanFee := flashFee;
              dexFeeA := feeA;
              dexFeeB := feeB;
              reserveBufferCost := reserve
            |};
            total := (gasCostUsd + flashFee + feeA + feeB + reserve)%float
          |}
      end
  end.

(** [calculateSlippageImpact]. *)
Definition calculateSlippageImpact (cfg : Config) (o : Opportunity) : float :=
  let liqA := orDefault (liquidityA o) 1000000 in
  let liqB := orDefault (liquidityB o) 1000000 in
  let vol := toNumber (volume o) in
  let slippageA := (vol / liqA * 0.5)%float in
  let slippageB := (vol / liqB * 0.5)%float in
  let totalSlippage := min (slippageA + slippageB)%float (maxSlippage cfg) in
  (totalSlippage * vol)%float.

(** The three tests of [calculateConfidence]. *)
Definition highGas (cfg : Config) (o : Opportunity) : bool :=
  (maxGasPriceGwei cfg <? toNumber (gasPrice o))%float.

Definition thinLiquidity (o : Opportunity) : bool :=
  let minLiquidity :=
    min (orDefault (liquidityA o) 1000000) (orDefault (liquidityB o) 1000000) in
  (minLiquidity <? toNumber (volume o) * 10)%float.

Definition smallDelta (o : Opportunity) : bool :=
  let margin := (toNumber (priceDelta o) / toNumber (volume o))%float in
  (margin <? 0.005)%float.

(** [calculateConfidence]. *)
Definition calculateConfidence (cfg : Config) (o : Opportunity) : float :=
  let confidence := 1%float in
  let confidence :=
    if highGas cfg o then (confidence * 0.8)%float else confidence in
  let confidence :=
    if thinLiquidity o then (confidence * 0.6)%float else confidence in
  let confidence :=
    if smallDelta o then (confidence * 0.7)%float else confidence in
  max confidence 0.1.

(** [getRecommendation]. *)
Definition getRecommendation (cfg : Config) (profitPercent : float)
  : Estimator.Recommendation :=
  if (0.01 <=? profitPercent)%float then Estimator.STRONG_BUY
  else if (0.005 <=? profitPercent)%float then Estimator.BUY
  else if (minProfitThreshold cfg <=? profitPercent)%float
  then Estimator.WEAK_BUY
  else Estimator.PASS.

(** The object returned on the main path. *)
Record Estimate : Type := {
  est_profitable : bool;
  est_baseProfit : float;
  est_costs : Breakdown;
  est_totalCosts : float;
  est_netProfit : float;
  est_profitPercent : float;
  est_slippageImpact : float;
  est_threshold : float;
  est_confidence : float;
  est_recommendation : Estimator.Recommendation;
  est_metadata : Estimator.Metadata
}.

(** The three shapes of object that [estimateProfit] returns. *)
Inductive Result : Type :=
| Invalid (reason : string)
| CalcError (reason : string)
| Estimated (e : Estimate).

Definition profitable (r : Result) : bool :=
  match r with
  | Estimated e => est_profitable e
  | _ => false
  end.

Definition reason (r : Result) : option string :=
  match r with
  | Invalid s | CalcError s => Some s
  | Estimated _ => None
  end.

(** [estimateProfit], at wall-clock time [now].  The only statement of the
    [try] block that can throw on an opportunity object is the gas price
    conversion inside [calculateCosts]; the [catch] turns it into the
    ['Calculation error'] object. *)
Definition estimateProfit (cfg : Config) (now : Z) (o : Opportunity) : Result :=
  if negb (validateOpportunity o) then Invalid "Invalid opportunity data"
  else
    let baseProfit := calculateBaseProfit o in
    match calculateCosts cfg o with
    | None => CalcError "Calculation error"
    | Some costs =>
        let netProfit := (baseProfit - total costs)%float in
        let slippageImpact := calculateSlippageImpact cfg o in
        let adjustedNetProfit := (netProfit - slippageImpact)%float in
        let adjustedProfitPercent :=
          (adjustedNetProfit / toNumber (volume o))%float in
        let finalProfitable :=
          (minProfitThreshold cfg <=? adjustedProfitPercent)%float in
        Estimated {|
          est_profitable := finalProfitable;
          est_baseProfit := baseProfit;
          est_costs := breakdown costs;
          est_totalCosts := total costs;
          est_netProfit := adjustedNetProfit;
          est_profitPercent := adjustedProfitPercent;
          est_slippageImpact := slippageImpact;
          est_threshold := minProfitThreshold cfg;
          est_confidence := calculateConfidence cfg o;
          est_recommendation := getRecommendation cfg adjustedProfitPercent;
          est_metadata := {|
            Estimator.timestamp := now;
            Estimator.opportunityId := JS.orDefaultStr (id o) "unknown";
            Estimator.chainName := JS.orDefaultStr (chain o) "unknown"
          |}
        |}
    end.

(** The net margin in the words of the specification: the profit after the
    costs and the slippage, divided by the volume; in double arithmetic,
    and [None] where the gas price does not convert to wei. *)
Definition netMargin (cfg : Config) (o : Opportunity) : option float :=
  match calculateCosts cfg o with
  | None => None
  | Some costs =>
      Some ((calculateBaseProfit o - total costs
             - calculateSlippageImpact cfg o)
            / toNumber (volume o))%float
  end.

(** The confidence in the words of the specification: 1.0 with the
    penalties that apply, multiplied in the order of the code. *)
Definition penalised (gas liquidity delta : bool) : float :=
  match gas, liquidity, delta with
  | false, false, false => 1
  | true, false, false => 0.8
  | false, true, false => 0.6
  | false, false, true => 0.7
  | true, true, false => 0.48
  | true, false, true => 0.5599999999999999
  | false, true, true => 0.42
  | true, true, true => 0.33599999999999997
  end%float.

(** An opportunity written with decimal numerals: each numeral denotes the
    nearest double. *)
Definition numeral (x : option Q) : field :=
  match x with
  | Some q => Number (ofQ q)
  | None => Undefined
  end.

Definition double (o : Estimator.Opportunity) : Opportunity := {|
  priceDelta := numeral (Estimator.priceDelta o);
  volume := numeral (Estimator.volume o);
  gasPrice := numeral (Estimator.gasPrice o);
  flashLoanProvider := Estimator.flashLoanProvider o;
  dexA := Estimator.dexA o;
  dexB := Estimator.dexB o;
  liquidityA := numeral (Estimator.liquidityA o);
  liquidityB := numeral (Estimator.liquidityB o);
  ethPriceUsd := numeral (Estimator.ethPriceUsd o);
  id := Estimator.id o;
  chain := Estimator.chain o
|}.

(** A price difference of 0.1204 on a volume of 1000 at 12.5 gwei: in exact
    arithmetic the net margin is 25 bps. *)
Definition exactly25bps : Estimator.Opportunity := {|
  Estimator.priceDelta := Some 0.1204;
  Estimator.volume := Some 1000;
  Estimator.gasPrice := Some 12.5;
  Estimator.flashLoanProvider := Some "venus"%string;
  Estimator.dexA := Some "pancakeswap"%string;
  Estimator.dexB := Some "biswap"%string;
  Estimator.liquidityA := None;
  Estimator.liquidityB := None;
  Estimator.ethPriceUsd := None;
  Estimator.id := None;
  Estimator.chain := None
|}.

(** The three penalties at once: gas at 60 gwei, depths of 50000 against a
    volume of 10000, and a price difference of 1. *)
Definition allPenalties : Opportunity := {|
  priceDelta := Number 1;
  volume := Number 10000;
  gasPrice := Number 60;
  flashLoanProvider := Some "venus"%string;
  dexA := Some "pancakeswap"%string;
  dexB := Some "biswap"%string;
  liquidityA := Number 50000;
  liquidityB := Number 50000;
  ethPriceUsd := Number 2000;
  id := None;
  chain := None
|}.

(** A depth of zero on one venue, with a price difference of 100 on a
    volume of 10000. *)
Definition zeroDepth : Opportunity := {|
  priceDelta := Number 100;
  volume := Number 10000;
  gasPrice := Number 20;
  flashLoanProvider := Some "venus"%string;
  dexA := Some "pancakeswap"%string;
  dexB := Some "biswap"%string;
  liquidityA := Number 0;
  liquidityB := Number 1000000;
  ethPriceUsd := Number 2000;
  id := None;
  chain := None
|}.

(** Two opportunities on the boundary of a test in exact arithmetic: a
    price difference of 0.29 on a volume of 58 (0.29 / 58 is 0.005), and
    depths of 0.7 against a volume of 0.07 (0.07 * 10 is 0.7). *)
Definition onTheBoundary (delta vol depth : Q) : Opportunity := double {|
  Estimator.priceDelta := Some delta;
  Estimator.volume := Some vol;
  Estimator.gasPrice := Some 20;
  Estimator.flashLoanProvider := Some "venus"%string;
  Estimator.dexA := Some "pancakeswap"%string;
  Estimator.dexB := Some "biswap"%string;
  Estimator.liquidityA := Some depth;
  Estimator.liquidityB := Some depth;
  Estimator.ethPriceUsd := None;
  Estimator.id := None;
  Estimator.chain := None
|}.

End Estimator64.

(** ** The scanners and the execution queue *)

Module Engine.
Import JS Double.

(** An opportunity as [ArbitrageEngine] receives it from the coordinator.
    The engine reads the five numeric fields in arithmetic and in
    comparisons only, where a field that is absent counts as [NaN] and
    [null] as [0].  [amount] and [expectedProfit] may come with the
    opportunity; [filterOpportunities] sets them anew. *)
Record Opp : Type := {
  token : string;
  chain : string;
  profitability : field;
  liquidity : field;
  confidence : field;
  amount : field;
  expectedProfit : field
}.

(** An entry of [this.executionQueue]: the opportunity with [scanId] and
    [timestamp] added. *)
Record Queued : Type := {
  queuedOpp : Opp;
  scanId : string;
  timestamp : Z
}.

Record Stats : Type := {
  totalScans : nat;
  opportunitiesFound : nat
}.

Record State : Type := {
  isRunning : bool;
  minProfitability : float;
  executionQueue : list Queued;
  stats : Stats
}.

(** The engine as its constructor leaves it, once [start] has set
    [isRunning]. *)
Definition started : State := {|
  isRunning := true;
  minProfitability := 0.5;
  executionQueue := [];
  stats := {| totalScans := 0; opportunitiesFound := 0 |}
|}.

(** The [kellyFraction] of [calculateOptimalTradeSize]. *)
Definition kellyFraction (o : Opp) : float :=
  let winRate := (toNumber (confidence o) / 100)%float in
  let avgWin := (toNumber (profitability o) / 100)%float in
  let avgLoss := 0.02%float in
  ((winRate * avgWin - (1 - winRate) * avgLoss) / avgWin)%float.

(** [calculateOptimalTradeSize]. *)
Definition calculateOptimalTradeSize (o : Opp) : float :=
  let conservativeFraction := min (kellyFraction o) 0.1 in
  max 1000
      (min (toNumber (liquidity o) * conservativeFraction)%float 100000).

Section Scan.

(** [Math.log]. *)
Variable ln : float -> float.

(** The [valid] flag of the engine's asynchronous [validateOpportunity]
    (flash-loan provider lookup through the coordinator, gas cost, venue
    liquidity); [EngineMore.validateOpportunity] below computes it. *)
Variable validateOpportunity : Opp -> bool.

(** [filterOpportunities].  The opportunity goes to [validateOpportunity]
    as it came in, before [amount] and [expectedProfit] are set. *)
Definition keepOpportunity (st : State) (o : Opp) : bool :=
  if (toNumber (profitability o) <? minProfitability st)%float then false
  else if (toNumber (liquidity o) <? 50000)%float then false
  else if (toNumber (confidence o) <? 70)%float then false
  else validateOpportunity o.

Definition sized (o : Opp) : Opp :=
  let tradeSize := calculateOptimalTradeSize o in
  {| token := token o;
     chain := chain o;
     profitability := profitability o;
     liquidity := liquidity o;
     confidence := confidence o;
     amount := Number tradeSize;
     expectedProfit :=
       Number (tradeSize * toNumber (profitability o) / 100)%float |}.

Definition filterOpportunities (st : State) (opportunities : list Opp)
  : list Opp :=
  map sized (List.filter (keepOpportunity st) opportunities).

(** The score of [rankOpportunities]. *)
Definition score (o : Opp) : float :=
  (toNumber (profitability o) * toNumber (confidence o)
   * ln (toNumber (liquidity o)) / 1000)%float.

(** The comparator of [rankOpportunities], [scoreB - scoreA]. *)
Definition byScore (a b : Opp) : number :=
  sign (score b - score a)%float.

(** [rankOpportunities]. *)
Definition rankOpportunities (opportunities : list Opp) : list Opp :=
  sort byScore opportunities.

Definition enqueue (id : string) (now : Z) (o : Opp) : Queued :=
  {| queuedOpp := o; scanId := id; timestamp := now |}.

(** [scanForOpportunities].  [fetched] is what [getArbitrageData] resolves to;
    [None] stands for a rejection, which the [catch] absorbs. *)
Definition scanForOpportunities (st : State) (id : string) (now : Z)
    (fetched : option (list Opp)) : State :=
  if negb (isRunning st) then st
  else
    let counted := {| totalScans := S (totalScans (stats st));
                      opportunitiesFound := opportunitiesFound (stats st) |} in
    let st1 := {| isRunning := isRunning st;
                  minProfitability := minProfitability st;
                  executionQueue := executionQueue st;
                  stats := counted |} in
    match fetched with
    | None => st1
    | Some [] => st1
    | Some opportunities =>
        let validOpportunities := filterOpportunities st opportunities in
        let rankedOpportunities := rankOpportunities validOpportunities in
        {| isRunning := isRunning st;
           minProfitability := minProfitability st;
           executionQueue :=
             executionQueue st ++ map (enqueue id now) rankedOpportunities;
           stats :=
             {| totalScans := totalScans counted;
                opportunitiesFound :=
                  (opportunitiesFound counted + length rankedOpportunities)%nat |}
        |}
    end.

End Scan.

(** [this.executionQueue.shift()] in [processExecutionQueue]. *)
Definition shift (st : State) : option Queued * State :=
  match executionQueue st with
  | [] => (None, st)
  | first :: rest =>
      (Some first,
       {| isRunning := isRunning st;
          minProfitability := minProfitability st;
          executionQueue := rest;
          stats := stats st |})
  end.

(** *** The detection tick of [SameChainArbitrage] *)

(** What [analyzePair] returns for a profitable candidate. *)
Record Detected : Type := {
  candidate : Estimator.Opportunity;
  estimatedProfit : number;
  profitPercent : number;
  detectedConfidence : number;
  recommendation : Estimator.Recommendation
}.

(** The part of [analyzePair] that follows the construction of the
    opportunity object. *)
Definition analyzePair (cfg : Estimator.Config) (now : Z)
    (o : Estimator.Opportunity) : option Detected :=
  match Estimator.estimateProfit cfg now o with
  | Estimator.Estimated e =>
      if Estimator.est_profitable e
      then Some {| candidate := o;
                   estimatedProfit := Estimator.est_netProfit e;
                   profitPercent := Estimator.est_profitPercent e;
                   detectedConfidence := Estimator.est_confidence e;
                   recommendation := Estimator.est_recommendation e |}
      else None
  | _ => None
  end.

(** [executeOpportunities]: the entries that reach [executeArbitrage]. *)
Definition executeOpportunities (opportunities : list Detected) : list Detected :=
  List.filter (fun d => negb (JS.lt (detectedConfidence d) (Num 0.5)))
              opportunities.

(** [detectOpportunities], from the candidates of the viable pairs on:
    the sorted [this.opportunities] and the entries executed. *)
Definition detectOpportunities (cfg : Estimator.Config) (now : Z)
    (candidates : list Estimator.Opportunity) : list Detected * list Detected :=
  let detectedOpportunities := omap (analyzePair cfg now) candidates in
  let sorted :=
    sort (fun a b => JS.sub (estimatedProfit b) (estimatedProfit a))
         detectedOpportunities in
  (sorted, executeOpportunities (firstn 3 sorted)).

(** Four opportunities on one chain, each with a liquidity of one million
    and, as it comes in, an [amount] of 1000 and no [expectedProfit]. *)
Definition opportunity (name : string) (profit conf : float) : Opp :=
  {| token := name; chain := "bsc"; profitability := Number profit;
     liquidity := Number 1000000; confidence := Number conf;
     amount := Number 1000; expectedProfit := Undefined |}.

Definition oppA : Opp := opportunity "A" 2 70.
Definition oppB : Opp := opportunity "B" 1.5 100.
Definition oppC : Opp := opportunity "C" 1 80.
Definition oppD : Opp := opportunity "D" 0.6 90.

Definition fourOpportunities : list Opp := [oppA; oppB; oppC; oppD].
Definition threeOpportunities : list Opp := [oppA; oppB; oppC].

(** [Math.log] where the examples need it: at the liquidity of one million
    it is 13.815510557964274. *)
Definition logOfMillion : float -> float := fun _ => 13.815510557964274%float.

Definition queuedTokens (st : State) : list string :=
  map (fun q => token (queuedOpp q)) (executionQueue st).

Definition queuedProfits (st : State) : list field :=
  map (fun q => expectedProfit (queuedOpp q)) (executionQueue st).

End Engine.

(** ** The MCP coordinator *)

Module Coordinator.

Inductive Strategy : Type :=
| RoundRobin
| LeastLoaded
| Fastest
| Priority
| Weighted
| OtherStrategy.

Inductive Tier : Type :=
| Critical
| High
| Medium
| Low.

Record Config : Type := {
  maxRetries : nat;
  loadBalancingStrategy : Strategy;
  circuitBreakerThreshold : nat;
  circuitBreakerTimeout : Z
}.

Definition defaultConfig : Config := {|
  maxRetries := 3;
  loadBalancingStrategy := RoundRobin;
  circuitBreakerThreshold := 5;
  circuitBreakerTimeout := 60000
|}.

(** An entry of [this.clientConfigs]. *)
Record ClientConfig : Type := {
  configCapabilities : list string;
  priority : Tier
}.

Definition clientConfigs : list (string * ClientConfig) :=
  [ ("coingecko",
     {| configCapabilities :=
          ["pricing"; "market-data"; "trending"; "arbitrage-opportunities"];
        priority := High |});
    ("web3",
     {| configCapabilities :=
          ["blockchain"; "tokens"; "pools"; "bridges"; "flash-loans"];
        priority := Critical |});
    ("context7",
     {| configCapabilities :=
          ["code-review"; "quality-assurance"; "best-practices"];
        priority := Medium |}) ]%string.

(** The values of [this.clients]. *)
Record ClientInfo : Type := {
  isHealthy : bool;
  lastHealthCheck : Z;
  requestCount : Z;
  errorCount : nat;
  avgResponseTime : Q;
  lastRequestTime : option Z
}.

Inductive Status : Type :=
| Healthy
| Unhealthy.

(** The values of [this.healthStatus]. *)
Record Health : Type := {
  status : Status;
  lastError : option string;
  consecutiveErrors : nat;
  healthCheckedAt : Z
}.

(** The values of [this.requestMetrics]; [minResponseTime] starts at
    [Infinity], here [None]. *)
Record Metrics : Type := {
  totalRequests : nat;
  successfulRequests : nat;
  failedRequests : nat;
  metricsAvgResponseTime : Q;
  minResponseTime : option Q;
  maxResponseTime : Q
}.

(** The values of [this.circuitBreakers]. *)
Record Breaker : Type := {
  isOpen : bool;
  failureCount : nat;
  lastFailureTime : option Z;
  nextRetryTime : option Z
}.

(** The values of [this.loadBalancingStats]. *)
Record LoadStats : Type := {
  weight : Q;
  currentLoad : Z;
  averageLoad : Q;
  statsPriority : Tier
}.

(** The coordinator.  [calls] is not a field of the class: it records, in
    order, the clients on which a routed request has invoked
    [client[method](params)]. *)
Record State : Type := {
  config : Config;
  configs : list (string * ClientConfig);
  clients : gmap string ClientInfo;
  healthStatus : gmap string Health;
  capabilities : list (string * list string);
  requestMetrics : gmap string Metrics;
  circuitBreakers : gmap string Breaker;
  roundRobinCounters : gmap string nat;
  loadBalancingStats : gmap string LoadStats;
  initialized : bool;
  calls : list string
}.

(** *** Exceptions and state *)

(** What a [catch] can receive: a [TypeError] raised by a property access on
    [undefined], an [Error] with a message, or the value [undefined] itself
    (what [withRetry] throws when it was allowed no attempt). *)
Inductive Error : Type :=
| TypeError
| Thrown (message : string)
| ThrownUndefined.

Inductive Res (A : Type) : Type :=
| Ok (a : A)
| Err (e : Error).
Arguments Ok {A} a.
Arguments Err {A} e.

Definition M (A : Type) : Type := State -> Res A * State.

Definition ret {A : Type} (a : A) : M A := fun s => (Ok a, s).

Definition throw {A : Type} (e : Error) : M A := fun s => (Err e, s).

Definition bind {A B : Type} (m : M A) (k : A -> M B) : M B :=
  fun s =>
    match m s with
    | (Ok a, s') => k a s'
    | (Err e, s') => (Err e, s')
    end.

(** [try { m } catch (e) { h e }]. *)
Definition tryCatch {A : Type} (m : M A) (h : Error -> M A) : M A :=
  fun s =>
    match m s with
    | (Ok a, s') => (Ok a, s')
    | (Err e, s') => h e s'
    end.

(** [try { m } finally { f }], for an [f] that restores a counter. *)
Definition finally {A : Type} (m : M A) (f : State -> State) : M A :=
  fun s => let (r, s') := m s in (r, f s').

Definition get : M State := fun s => (Ok s, s).

Definition modify (f : State -> State) : M unit := fun s => (Ok tt, f s).

(** Reading a property of [x] where [x] may be [undefined]. *)
Definition defined {A : Type} (x : option A) : M A :=
  match x with
  | Some a => ret a
  | None => throw TypeError
  end.

Notation "'let!' x ':=' m 'in' k" := (bind m (fun x => k))
  (at level 10, x name, m at level 100, k at level 200).
Notation "'run!' m 'in' k" := (bind m (fun _ => k))
  (at level 10, m at level 100, k at level 200).

(** Field updates of the state. *)
Definition withClients (f : gmap string ClientInfo -> gmap string ClientInfo)
    (s : State) : State :=
  {| config := config s; configs := configs s; clients := f (clients s);
     healthStatus := healthStatus s; capabilities := capabilities s;
     requestMetrics := requestMetrics s; circuitBreakers := circuitBreakers s;
     roundRobinCounters := roundRobinCounters s;
     loadBalancingStats := loadBalancingStats s;
     initialized := initialized s; calls := calls s |}.

Definition withHealth (f : gmap string Health -> gmap string Health)
    (s : State) : State :=
  {| config := config s; configs := configs s; clients := clients s;
     healthStatus := f (healthStatus s); capabilities := capabilities s;
     requestMetrics := requestMetrics s; circuitBreakers := circuitBreakers s;
     roundRobinCounters := roundRobinCounters s;
     loadBalancingStats := loadBalancingStats s;
     initialized := initialized s; calls := calls s |}.

Definition withCapabilities
    (f : list (string * list string) -> list (string * list string))
    (s : State) : State :=
  {| config := config s; configs := configs s; clients := clients s;
     healthStatus := healthStatus s; capabilities := f (capabilities s);
     requestMetrics := requestMetrics s; circuitBreakers := circuitBreakers s;
     roundRobinCounters := roundRobinCounters s;
     loadBalancingStats := loadBalancingStats s;
     initialized := initialized s; calls := calls s |}.

Definition withMetrics (f : gmap string Metrics -> gmap string Metrics)
    (s : State) : State :=
  {| config := config s; configs := configs s; clients := clients s;
     healthStatus := healthStatus s; capabilities := capabilities s;
     requestMetrics := f (requestMetrics s);
     circuitBreakers := circuitBreakers s;
     roundRobinCounters := roundRobinCounters s;
     loadBalancingStats := loadBalancingStats s;
     initialized := initialized s; calls := calls s |}.

Definition withBreakers (f : gmap string Breaker -> gmap string Breaker)
    (s : State) : State :=
  {| config := config s; configs := configs s; clients := clients s;
     healthStatus := healthStatus s; capabilities := capabilities s;
     requestMetrics := requestMetrics s;
     circuitBreakers := f (circuitBreakers s);
     roundRobinCounters := roundRobinCounters s;
     loadBalancingStats := loadBalancingStats s;
     initialized := initialized s; calls := calls s |}.

Definition withCounters (f : gmap string nat -> gmap string nat)
    (s : State) : State :=
  {| config := config s; configs := configs s; clients := clients s;
     healthStatus := healthStatus s; capabilities := capabilities s;
     requestMetrics := requestMetrics s; circuitBreakers := circuitBreakers s;
     roundRobinCounters := f (roundRobinCounters s);
     loadBalancingStats := loadBalancingStats s;
     initialized := initialized s; calls := calls s |}.

Definition withLoadStats (f : gmap string LoadStats -> gmap string LoadStats)
    (s : State) : State :=
  {| config := config s; configs := configs s; clients := clients s;
     healthStatus := healthStatus s; capabilities := capabilities s;
     requestMetrics := requestMetrics s; circuitBreakers := circuitBreakers s;
     roundRobinCounters := roundRobinCounters s;
     loadBalancingStats := f (loadBalancingStats s);
     initialized := initialized s; calls := calls s |}.

Definition withInitialized (b : bool) (s : State) : State :=
  {| config := config s; configs := configs s; clients := clients s;
     healthStatus := healthStatus s; capabilities := capabilities s;
     requestMetrics := requestMetrics s; circuitBreakers := circuitBreakers s;
     roundRobinCounters := roundRobinCounters s;
     loadBalancingStats := loadBalancingStats s;
     initialized := b; calls := calls s |}.

Definition withCalls (f : list string -> list string) (s : State) : State :=
  {| config := config s; configs := configs s; clients := clients s;
     healthStatus := healthStatus s; capabilities := capabilities s;
     requestMetrics := requestMetrics s; circuitBreakers := circuitBreakers s;
     roundRobinCounters := roundRobinCounters s;
     loadBalancingStats := loadBalancingStats s;
     initialized := initialized s; calls := f (calls s) |}.

(** [map.get(name)] followed by a property access, and writing the mutated
    object back. *)
Definition getClient (name : string) : M ClientInfo :=
  let! s := get in defined (clients s !! name).
Definition getHealth (name : string) : M Health :=
  let! s := get in defined (healthStatus s !! name).
Definition getMetrics (name : string) : M Metrics :=
  let! s := get in defined (requestMetrics s !! name).
Definition getBreaker (name : string) : M Breaker :=
  let! s := get in defined (circuitBreakers s !! name).
Definition getLoadStats (name : string) : M LoadStats :=
  let! s := get in defined (loadBalancingStats s !! name).

Definition setClient (name : string) (c : ClientInfo) : M unit :=
  modify (withClients (insert name c)).
Definition setHealth (name : string) (h : Health) : M unit :=
  modify (withHealth (insert name h)).
Definition setMetrics (name : string) (m : Metrics) : M unit :=
  modify (withMetrics (insert name m)).
Definition setBreaker (name : string) (b : Breaker) : M unit :=
  modify (withBreakers (insert name b)).
Definition setLoadStats (name : string) (l : LoadStats) : M unit :=
  modify (withLoadStats (insert name l)).


(** *** Initialisation *)

Fixpoint lookupConfig (l : list (string * ClientConfig)) (name : string)
  : option ClientConfig :=
  match l with
  | [] => None
  | (k, c) :: rest => if String.eqb k name then Some c else lookupConfig rest name
  end.

(** [Map.prototype.set] on a map kept in insertion order. *)
Fixpoint mapSet {V : Type} (name : string) (v : V) (l : list (string * V))
  : list (string * V) :=
  match l with
  | [] => [(name, v)]
  | (k, w) :: rest =>
      if String.eqb k name then (k, v) :: rest else (k, w) :: mapSet name v rest
  end.

Fixpoint mapGet {V : Type} (name : string) (l : list (string * V)) : option V :=
  match l with
  | [] => None
  | (k, w) :: rest => if String.eqb k name then Some w else mapGet name rest
  end.

(** The registration in [initializeClient], after [client.initialize()] has
    resolved and before the listeners are attached. *)
Definition registerClient (name : string) (c : ClientConfig) (now : Z) : M unit :=
  run! setClient name
         {| isHealthy := true; lastHealthCheck := now; requestCount := 0;
            errorCount := 0; avgResponseTime := 0; lastRequestTime := None |} in
  modify (withCapabilities (mapSet name (configCapabilities c))).

(** [initializeClientTracking]. *)
Definition initializeClientTracking (clientName : string) (now : Z) : M unit :=
  run! setHealth clientName
         {| status := Healthy; lastError := None; consecutiveErrors := 0;
            healthCheckedAt := now |} in
  run! setMetrics clientName
         {| totalRequests := 0; successfulRequests := 0; failedRequests := 0;
            metricsAvgResponseTime := 0; minResponseTime := None;
            maxResponseTime := 0 |} in
  run! setBreaker clientName
         {| isOpen := false; failureCount := 0; lastFailureTime := None;
            nextRetryTime := None |} in
  run! modify (withCounters (insert clientName 0%nat)) in
  let! s := get in
  let! c := defined (lookupConfig (configs s) clientName) in
  setLoadStats clientName
    {| weight := 1; currentLoad := 0; averageLoad := 0;
       statsPriority := priority c |}.

(** [markClientUnhealthy]. *)
Definition markClientUnhealthy (clientName : string) (message : string)
    (now : Z) : M unit :=
  run! setHealth clientName
         {| status := Unhealthy; lastError := Some message;
            consecutiveErrors := 1; healthCheckedAt := now |} in
  run! setMetrics clientName
         {| totalRequests := 0; successfulRequests := 0; failedRequests := 0;
            metricsAvgResponseTime := 0; minResponseTime := None;
            maxResponseTime := 0 |} in
  let! s := get in
  setBreaker clientName
    {| isOpen := true;
       failureCount := circuitBreakerThreshold (config s);
       lastFailureTime := Some now;
       nextRetryTime := Some (now + circuitBreakerTimeout (config s))%Z |}.

(** A coordinator as its constructor leaves it. *)
Definition constructed (cfg : Config) (cs : list (string * ClientConfig))
  : State :=
  {| config := cfg; configs := cs; clients := ∅; healthStatus := ∅;
     capabilities := []; requestMetrics := ∅; circuitBreakers := ∅;
     roundRobinCounters := ∅; loadBalancingStats := ∅;
     initialized := false; calls := [] |}.

Fixpoint forEach {A : Type} (f : A -> M unit) (l : list A) : M unit :=
  match l with
  | [] => ret tt
  | x :: rest => run! f x in forEach f rest
  end.

(** How [initializeClient] ends for a client.  It resolves; or it rejects
    before the client is registered (the constructor throws, or
    [client.initialize()] rejects); or it rejects after [this.clients.set]
    and [this.capabilities.set], when one of the four [client.on] calls
    throws (a client class without [on], for one).  A rejection carries the
    [message] of its reason, if the reason has one. *)
Inductive Connection : Type :=
| Connected
| ListenersFail (message : option string)
| Refused (message : option string).

(** Whether [initializeClient] gets as far as the registration. *)
Definition registers (c : Connection) : bool :=
  match c with
  | Connected | ListenersFail _ => true
  | Refused _ => false
  end.

(** [error?.message || 'Unknown error']. *)
Definition reasonOf (message : option string) : string :=
  match message with
  | Some text => if String.eqb text "" then "Unknown error" else text
  | None => "Unknown error"
  end.

(** [initialize]: [connects name] tells how [initializeClient] ends for that
    client.  The clients register in the order of [this.clientConfigs] (in
    the code, in the order in which their connections complete); the
    tracking structures follow once every connection has settled. *)
Definition initialize (connects : string -> Connection) (now : Z) : M unit :=
  let! s := get in
  run! forEach (fun entry : string * ClientConfig =>
                  if registers (connects (fst entry))
                  then registerClient (fst entry) (snd entry) now
                  else ret tt) (configs s) in
  run! forEach (fun entry : string * ClientConfig =>
                  match connects (fst entry) with
                  | Connected => initializeClientTracking (fst entry) now
                  | ListenersFail message | Refused message =>
                      markClientUnhealthy (fst entry) (reasonOf message) now
                  end)
               (configs s) in
  modify (withInitialized true).

(** *** Selection *)

Definition includes (x : string) (l : list string) : bool :=
  existsb (String.eqb x) l.

(** [clientInfo && clientInfo.isHealthy && !circuitBreaker.isOpen]. *)
Definition selectable (s : State) (name : string) : Res bool :=
  match clients s !! name with
  | None => Ok false
  | Some clientInfo =>
      if isHealthy clientInfo
      then match circuitBreakers s !! name with
           | None => Err TypeError
           | Some circuitBreaker => Ok (negb (isOpen circuitBreaker))
           end
      else Ok false
  end.

(** The loop over [this.capabilities] shared by [getClientsForCapability]
    and [attemptFailover]; [wanted] is the first half of the condition. *)
Fixpoint collect (s : State) (wanted : string -> list string -> Res bool)
    (entries : list (string * list string)) : Res (list string) :=
  match entries with
  | [] => Ok []
  | (name, caps) :: rest =>
      match wanted name caps with
      | Err e => Err e
      | Ok false => collect s wanted rest
      | Ok true =>
          match selectable s name with
          | Err e => Err e
          | Ok pushed =>
              match collect s wanted rest with
              | Err e => Err e
              | Ok others => Ok (if pushed then name :: others else others)
              end
          end
      end
  end.

Definition liftRes {A : Type} (r : State -> Res A) : M A := fun s => (r s, s).

(** [getClientsForCapability]. *)
Definition getClientsForCapability (capability : string) : M (list string) :=
  liftRes (fun s =>
    collect s (fun _ caps => Ok (includes capability caps)) (capabilities s)).

(** [selectByRoundRobin]. *)
Definition selectByRoundRobin (availableClients : list string)
  : M (option string) :=
  let key := String.concat "," availableClients in
  let! s := get in
  let currentIndex := default 0%nat (roundRobinCounters s !! key) in
  let selectedClient :=
    availableClients !! (currentIndex mod length availableClients)%nat in
  run! modify (withCounters (insert key (S currentIndex))) in
  ret selectedClient.

(** [selectByLeastLoaded]. *)
Fixpoint leastLoadedLoop (s : State) (l : list string) (best : string)
    (minLoad : Z) : Res string :=
  match l with
  | [] => Ok best
  | clientName :: rest =>
      match clients s !! clientName with
      | None => Err TypeError
      | Some clientInfo =>
          if (requestCount clientInfo <? minLoad)%Z
          then leastLoadedLoop s rest clientName (requestCount clientInfo)
          else leastLoadedLoop s rest best minLoad
      end
  end.

Definition selectByLeastLoaded (availableClients : list string)
  : M (option string) :=
  match availableClients with
  | [] => throw TypeError
  | first :: _ =>
      let! clientInfo := getClient first in
      let! chosen := liftRes (fun s =>
        leastLoadedLoop s availableClients first (requestCount clientInfo)) in
      ret (Some chosen)
  end.

(** [clientInfo.avgResponseTime || Infinity]; [None] is [Infinity]. *)
Definition responseTimeOrInfinity (c : ClientInfo) : option Q :=
  if Qeq_bool (avgResponseTime c) 0 then None else Some (avgResponseTime c).

Definition fasterThan (a b : option Q) : bool :=
  match a, b with
  | Some x, Some y => JS.Qlt_bool x y
  | Some _, None => true
  | None, _ => false
  end.

(** [selectByFastest]. *)
Fixpoint fastestLoop (s : State) (l : list string) (best : string)
    (minResponse : option Q) : Res string :=
  match l with
  | [] => Ok best
  | clientName :: rest =>
      match clients s !! clientName with
      | None => Err TypeError
      | Some clientInfo =>
          if fasterThan (responseTimeOrInfinity clientInfo) minResponse
          then fastestLoop s rest clientName (responseTimeOrInfinity clientInfo)
          else fastestLoop s rest best minResponse
      end
  end.

Definition selectByFastest (availableClients : list string)
  : M (option string) :=
  match availableClients with
  | [] => throw TypeError
  | first :: _ =>
      let! clientInfo := getClient first in
      let! chosen := liftRes (fun s =>
        fastestLoop s availableClients first
                    (responseTimeOrInfinity clientInfo)) in
      ret (Some chosen)
  end.

(** [priorityOrder[tier] || 999]: the entry of [critical] is [0], which is
    falsy. *)
Definition priorityRank (t : Tier) : nat :=
  match t with
  | Critical => 999
  | High => 1
  | Medium => 2
  | Low => 3
  end.

(** [selectByPriority]. *)
Fixpoint priorityLoop (s : State) (l : list string) (best : string)
    (highest : nat) : Res string :=
  match l with
  | [] => Ok best
  | clientName :: rest =>
      match lookupConfig (configs s) clientName with
      | None => Err TypeError
      | Some c =>
          if (priorityRank (priority c) <? highest)%nat
          then priorityLoop s rest clientName (priorityRank (priority c))
          else priorityLoop s rest best highest
      end
  end.

Definition selectByPriority (availableClients : list string)
  : M (option string) :=
  match availableClients with
  | [] => throw TypeError
  | first :: _ =>
      let! s := get in
      let! c := defined (lookupConfig (configs s) first) in
      let! chosen := liftRes (fun s =>
        priorityLoop s availableClients first (priorityRank (priority c))) in
      ret (Some chosen)
  end.

(** [selectByWeight]; [rand] is the value of [Math.random()]. *)
Definition weightOf (s : State) (name : string) : Q :=
  match loadBalancingStats s !! name with
  | Some stats => weight stats
  | None => 1
  end.

Fixpoint weightLoop (l : list (string * Q)) (random : Q) : option string :=
  match l with
  | [] => None
  | (name, w) :: rest =>
      if Qle_bool (random - w) 0 then Some name else weightLoop rest (random - w)
  end.

Definition selectByWeight (rand : Q) (availableClients : list string)
  : M (option string) :=
  let! s := get in
  let weights := map (weightOf s) availableClients in
  let totalWeight := fold_left Qplus weights 0 in
  let random := rand * totalWeight in
  match weightLoop (combine availableClients weights) random with
  | Some name => ret (Some name)
  | None => ret (head availableClients)
  end.

(** The [options] argument of a request. *)
Record Options : Type := {
  optStrategy : option Strategy;
  optRetries : option nat;
  enableFailover : bool
}.

Definition noOptions : Options :=
  {| optStrategy := None; optRetries := None; enableFailover := true |}.

(** [selectClient]. *)
Definition selectClient (rand : Q) (availableClients : list string)
    (options : Options) : M (option string) :=
  let! s := get in
  let strategy :=
    default (loadBalancingStrategy (config s)) (optStrategy options) in
  match strategy with
  | RoundRobin => selectByRoundRobin availableClients
  | LeastLoaded => selectByLeastLoaded availableClients
  | Fastest => selectByFastest availableClients
  | Priority => selectByPriority availableClients
  | Weighted => selectByWeight rand availableClients
  | OtherStrategy => selectByRoundRobin availableClients
  end.

(** *** Metrics *)

(** [updateSuccessMetrics]. *)
Definition updateSuccessMetrics (clientName : string) (responseTime : Q)
  : M unit :=
  let! clientInfo := getClient clientName in
  let avg :=
    if Qeq_bool (avgResponseTime clientInfo) 0 then responseTime
    else avgResponseTime clientInfo * 0.8 + responseTime * 0.2 in
  run! setClient clientName
         {| isHealthy := isHealthy clientInfo;
            lastHealthCheck := lastHealthCheck clientInfo;
            requestCount := requestCount clientInfo;
            errorCount := errorCount clientInfo;
            avgResponseTime := avg;
            lastRequestTime := lastRequestTime clientInfo |} in
  let! metrics := getMetrics clientName in
  run! setMetrics clientName
         {| totalRequests := totalRequests metrics;
            successfulRequests := S (successfulRequests metrics);
            failedRequests := failedRequests metrics;
            metricsAvgResponseTime := avg;
            minResponseTime :=
              Some (match minResponseTime metrics with
                    | Some m => Qmin m responseTime
                    | None => responseTime
                    end);
            maxResponseTime := Qmax (maxResponseTime metrics) responseTime |} in
  let! circuitBreaker := getBreaker clientName in
  run! (if isOpen circuitBreaker
        then setBreaker clientName
               {| isOpen := false; failureCount := 0;
                  lastFailureTime := lastFailureTime circuitBreaker;
                  nextRetryTime := nextRetryTime circuitBreaker |}
        else ret tt) in
  let! health := getHealth clientName in
  run! setHealth clientName
         {| status := Healthy; lastError := lastError health;
            consecutiveErrors := 0;
            healthCheckedAt := healthCheckedAt health |} in
  run! modify (withClients (alter (fun c =>
         {| isHealthy := true;
            lastHealthCheck := lastHealthCheck c;
            requestCount := requestCount c;
            errorCount := errorCount c;
            avgResponseTime := avgResponseTime c;
            lastRequestTime := lastRequestTime c |}) clientName)) in
  let! loadStats := getLoadStats clientName in
  setLoadStats clientName
    {| weight := Qmin (weight loadStats * 1.1) 2.0;
       currentLoad := currentLoad loadStats;
       averageLoad := averageLoad loadStats;
       statsPriority := statsPriority loadStats |}.

(** [error.message]. *)
Definition messageOf (e : Error) : M string :=
  match e with
  | TypeError => ret "TypeError"%string
  | Thrown message => ret message
  | ThrownUndefined => throw TypeError
  end.

(** [updateFailureMetrics]. *)
Definition updateFailureMetrics (clientName : string) (error : Error) (now : Z)
  : M unit :=
  let! clientInfo := getClient clientName in
  run! setClient clientName
         {| isHealthy := isHealthy clientInfo;
            lastHealthCheck := lastHealthCheck clientInfo;
            requestCount := requestCount clientInfo;
            errorCount := S (errorCount clientInfo);
            avgResponseTime := avgResponseTime clientInfo;
            lastRequestTime := lastRequestTime clientInfo |} in
  let! metrics := getMetrics clientName in
  run! setMetrics clientName
         {| totalRequests := totalRequests metrics;
            successfulRequests := successfulRequests metrics;
            failedRequests := S (failedRequests metrics);
            metricsAvgResponseTime := metricsAvgResponseTime metrics;
            minResponseTime := minResponseTime metrics;
            maxResponseTime := maxResponseTime metrics |} in
  let! health := getHealth clientName in
  let errors := S (consecutiveErrors health) in
  run! setHealth clientName
         {| status := status health; lastError := lastError health;
            consecutiveErrors := errors;
            healthCheckedAt := healthCheckedAt health |} in
  let! message := messageOf error in
  run! setHealth clientName
         {| status := status health; lastError := Some message;
            consecutiveErrors := errors;
            healthCheckedAt := healthCheckedAt health |} in
  let! circuitBreaker := getBreaker clientName in
  let failures := S (failureCount circuitBreaker) in
  let! s := get in
  run! setBreaker clientName
         (if (circuitBreakerThreshold (config s) <=? failures)%nat
          then {| isOpen := true; failureCount := failures;
                  lastFailureTime := Some now;
                  nextRetryTime :=
                    Some (now + circuitBreakerTimeout (config s))%Z |}
          else {| isOpen := isOpen circuitBreaker; failureCount := failures;
                  lastFailureTime := Some now;
                  nextRetryTime := nextRetryTime circuitBreaker |}) in
  run! (if (3 <=? errors)%nat
        then
          run! modify (withClients (alter (fun c =>
                 {| isHealthy := false;
                    lastHealthCheck := lastHealthCheck c;
                    requestCount := requestCount c;
                    errorCount := errorCount c;
                    avgResponseTime := avgResponseTime c;
                    lastRequestTime := lastRequestTime c |}) clientName)) in
          setHealth clientName
            {| status := Unhealthy; lastError := Some message;
               consecutiveErrors := errors;
               healthCheckedAt := healthCheckedAt health |}
        else ret tt) in
  let! loadStats := getLoadStats clientName in
  setLoadStats clientName
    {| weight := Qmax (weight loadStats * 0.8) 0.1;
       currentLoad := currentLoad loadStats;
       averageLoad := averageLoad loadStats;
       statsPriority := statsPriority loadStats |}.

(** *** Requests *)

(** What [withTimeout(withRetry(...))] settles to when the client is asked. *)
Inductive Outcome : Type :=
| Resolved (responseTime : Q)
| Rejected (message : string).

Section Request.

(** How each client answers this request. *)
Variable respond : string -> Outcome.
Variable now : Z.
Variable rand : Q.

(** [options.retries || this.config.maxRetries]. *)
Definition retriesOf (s : State) (options : Options) : nat :=
  match optRetries options with
  | Some (S n) => S n
  | _ => maxRetries (config s)
  end.

(** The body of the [try] in [executeRequest] up to the result of the call.
    With no attempt allowed, [withRetry] throws [undefined] without calling
    the client. *)
Definition callClient (clientName : string) (options : Options) : M Q :=
  let! s := get in
  match retriesOf s options with
  | O => throw ThrownUndefined
  | S _ =>
      run! modify (withCalls (fun t => t ++ [clientName])) in
      match respond clientName with
      | Resolved responseTime => ret responseTime
      | Rejected message => throw (Thrown message)
      end
  end.

(** [executeRequest], with what the [catch] does after
    [updateFailureMetrics] left open.  The value returned is the name of the
    client whose answer is handed back. *)
Definition executeWith (onFailure : Error -> M string) (clientName : string)
    (options : Options) : M string :=
  let! clientInfo := getClient clientName in
  run! setClient clientName
         {| isHealthy := isHealthy clientInfo;
            lastHealthCheck := lastHealthCheck clientInfo;
            requestCount := (requestCount clientInfo + 1)%Z;
            errorCount := errorCount clientInfo;
            avgResponseTime := avgResponseTime clientInfo;
            lastRequestTime := Some now |} in
  let! metrics := getMetrics clientName in
  run! setMetrics clientName
         {| totalRequests := S (totalRequests metrics);
            successfulRequests := successfulRequests metrics;
            failedRequests := failedRequests metrics;
            metricsAvgResponseTime := metricsAvgResponseTime metrics;
            minResponseTime := minResponseTime metrics;
            maxResponseTime := maxResponseTime metrics |} in
  finally
    (tryCatch
       (let! responseTime := callClient clientName options in
        run! updateSuccessMetrics clientName responseTime in
        ret clientName)
       (fun error =>
          run! updateFailureMetrics clientName error now in
          onFailure error))
    (withClients (alter (fun c =>
       {| isHealthy := isHealthy c;
          lastHealthCheck := lastHealthCheck c;
          requestCount := (requestCount c - 1)%Z;
          errorCount := errorCount c;
          avgResponseTime := avgResponseTime c;
          lastRequestTime := lastRequestTime c |}) clientName)).

(** [selectClient] hands [undefined] on when the list is empty. *)
Definition executeSelected (onFailure : Error -> M string)
    (selected : option string) (options : Options) : M string :=
  match selected with
  | Some clientName => executeWith onFailure clientName options
  | None => throw TypeError
  end.

(** [capabilities.some(cap => failedCapabilities.includes(cap))]. *)
Definition sharesCapability (failedCapabilities : option (list string))
    (caps : list string) : Res bool :=
  match caps with
  | [] => Ok false
  | _ :: _ =>
      match failedCapabilities with
      | None => Err TypeError
      | Some failed => Ok (existsb (fun cap => includes cap failed) caps)
      end
  end.

(** [attemptFailover]: the request it issues has [enableFailover: false]. *)
Definition attemptFailover (failedClient : string) (options : Options)
  : M string :=
  let! alternativeClients := liftRes (fun s =>
    collect s
      (fun name caps =>
         if String.eqb name failedClient then Ok false
         else sharesCapability (mapGet failedClient (capabilities s)) caps)
      (capabilities s)) in
  match alternativeClients with
  | [] => throw (Thrown "No healthy alternative clients available for failover")
  | _ :: _ =>
      let! alternativeClient := selectClient rand alternativeClients options in
      executeSelected (fun error => throw error) alternativeClient
        {| optStrategy := optStrategy options;
           optRetries := optRetries options;
           enableFailover := false |}
  end.

(** [executeRequest]. *)
Definition executeRequest (clientName : string) (options : Options) : M string :=
  executeWith
    (fun error =>
       if enableFailover options then attemptFailover clientName options
       else throw error)
    clientName options.

(** [routeRequest]. *)
Definition routeRequest (capability : string) (options : Options) : M string :=
  let! s := get in
  if negb (initialized s) then throw (Thrown "MCP Coordinator not initialized")
  else
    let! availableClients := getClientsForCapability capability in
    match availableClients with
    | [] => throw (Thrown "No healthy clients available for capability")
    | _ :: _ =>
        let! selectedClient := selectClient rand availableClients options in
        match selectedClient with
        | Some clientName => executeRequest clientName options
        | None => throw TypeError
        end
    end.

End Request.

(** *** Health monitoring *)

(** What [client.healthCheck()] settles to. *)
Inductive Probe : Type :=
| Passes
| Fails (message : string).

Definition setIsHealthy (b : bool) (c : ClientInfo) : ClientInfo :=
  {| isHealthy := b;
     lastHealthCheck := lastHealthCheck c;
     requestCount := requestCount c;
     errorCount := errorCount c;
     avgResponseTime := avgResponseTime c;
     lastRequestTime := lastRequestTime c |}.

(** [checkClientHealth]. *)
Definition checkClientHealth (clientName : string) (probe : Probe) (now : Z)
  : M unit :=
  let! s := get in
  match clients s !! clientName with
  | None => ret tt
  | Some _ =>
      tryCatch
        (match probe with
         | Fails message => throw (Thrown message)
         | Passes =>
             let! health := getHealth clientName in
             run! setHealth clientName
                    {| status := Healthy; lastError := None;
                       consecutiveErrors := consecutiveErrors health;
                       healthCheckedAt := now |} in
             modify (withClients (alter (setIsHealthy true) clientName))
         end)
        (fun error =>
           let! health := getHealth clientName in
           let! message := messageOf error in
           run! setHealth clientName
                  {| status := Unhealthy; lastError := Some message;
                     consecutiveErrors := consecutiveErrors health;
                     healthCheckedAt := now |} in
           modify (withClients (alter (setIsHealthy false) clientName)))
  end.

(** Whether a probe passed. *)
Definition verdict (probe : Probe) : bool :=
  match probe with
  | Passes => true
  | Fails _ => false
  end.

(** [now >= circuitBreaker.nextRetryTime]; [null] compares as [0]. *)
Definition retryDue (now : Z) (b : Breaker) : bool :=
  (default 0 (nextRetryTime b) <=? now)%Z.

Definition resetIfDue (now : Z) (b : Breaker) : Breaker :=
  if isOpen b && retryDue now b
  then {| isOpen := false; failureCount := 0;
          lastFailureTime := lastFailureTime b;
          nextRetryTime := nextRetryTime b |}
  else b.

(** [checkCircuitBreakers]. *)
Definition checkCircuitBreakers (now : Z) : M unit :=
  modify (withBreakers (fmap (resetIfDue now))).

(** [updateLoadBalancingStats]. *)
Definition refreshLoad (s : State) (name : string) (stats : LoadStats)
  : option LoadStats :=
  Some (match clients s !! name with
        | Some clientInfo =>
            {| weight := weight stats;
               currentLoad := requestCount clientInfo;
               averageLoad :=
                 averageLoad stats * 0.9
                 + inject_Z (requestCount clientInfo) * 0.1;
               statsPriority := statsPriority stats |}
        | None => stats
        end).

Definition updateLoadBalancingStats : M unit :=
  modify (fun s => withLoadStats (map_imap (refreshLoad s)) s).

(** [performHealthChecks]: one probe per client, each behind its own
    [try]/[catch], then the breakers, then the load statistics. *)
Definition performHealthChecks (probe : string -> Probe) (now : Z) : M unit :=
  let! s := get in
  run! forEach (fun clientName =>
                  tryCatch (checkClientHealth clientName (probe clientName) now)
                           (fun _ => ret tt))
               (map fst (map_to_list (clients s))) in
  run! checkCircuitBreakers now in
  updateLoadBalancingStats.

(** [handleClientError]. *)
Definition handleClientError (clientName : string) : M unit :=
  let! health := getHealth clientName in
  setHealth clientName
    {| status := status health; lastError := lastError health;
       consecutiveErrors := S (consecutiveErrors health);
       healthCheckedAt := healthCheckedAt health |}.

(** [handleClientReconnected]. *)
Definition handleClientReconnected (clientName : string) : M unit :=
  let! health := getHealth clientName in
  run! setHealth clientName
         {| status := Healthy; lastError := lastError health;
            consecutiveErrors := 0;
            healthCheckedAt := healthCheckedAt health |} in
  let! clientInfo := getClient clientName in
  setClient clientName (setIsHealthy true clientInfo).

(** [trackResponse]. *)
Definition trackResponse (clientName : string) (responseTime : option Q)
  : M unit :=
  let! s := get in
  match requestMetrics s !! clientName with
  | None => ret tt
  | Some metrics =>
      if Qeq_bool (JS.orDefault responseTime 0) 0 then ret tt
      else
        setMetrics clientName
          {| totalRequests := totalRequests metrics;
             successfulRequests := successfulRequests metrics;
             failedRequests := failedRequests metrics;
             metricsAvgResponseTime :=
               metricsAvgResponseTime metrics * 0.9
               + JS.orDefault responseTime 0 * 0.1;
             minResponseTime := minResponseTime metrics;
             maxResponseTime := maxResponseTime metrics |}
  end.

(** *** Runs of an initialised coordinator *)

Inductive Event : Type :=
| RouteRequest (capability : string) (options : Options)
    (respond : string -> Outcome) (rand : Q) (now : Z)
| PerformHealthChecks (probe : string -> Probe) (now : Z)
| HandleClientError (clientName : string)
| HandleClientReconnected (clientName : string)
| TrackResponse (clientName : string) (responseTime : option Q).

Definition discard {A : Type} (m : M A) : M unit := run! m in ret tt.

Definition handle (ev : Event) : M unit :=
  match ev with
  | RouteRequest capability options respond rand now =>
      discard (routeRequest respond now rand capability options)
  | PerformHealthChecks probe now => performHealthChecks probe now
  | HandleClientError clientName => handleClientError clientName
  | HandleClientReconnected clientName => handleClientReconnected clientName
  | TrackResponse clientName responseTime =>
      trackResponse clientName responseTime
  end.

(** The state an event leaves behind, whether or not it ended in an
    exception. *)
Definition step (s : State) (ev : Event) : State := snd (handle ev s).

Definition runEvents (s : State) (evs : list Event) : State :=
  fold_left step evs s.

(** The time at which an event reads the clock, if it does. *)
Definition eventTime (ev : Event) : option Z :=
  match ev with
  | RouteRequest _ _ _ _ now => Some now
  | PerformHealthChecks _ now => Some now
  | _ => None
  end.

(** A coordinator initialised at time [now] with every client connecting. *)
Definition booted (cfg : Config) (cs : list (string * ClientConfig)) (now : Z)
  : State :=
  snd (initialize (fun _ => Connected) now (constructed cfg cs)).

(** *** Postconditions

    [ensures m P Q E]: started in a state satisfying [P], [m] either returns
    [a] in a state satisfying [Q a] or throws in a state satisfying [E]. *)
Definition outcome {A : Type} (Q : A -> State -> Prop) (E : State -> Prop)
    (r : Res A * State) : Prop :=
  match r with
  | (Ok a, s') => Q a s'
  | (Err _, s') => E s'
  end.

Inductive ensures {A : Type} (m : M A) (P : State -> Prop)
    (Q : A -> State -> Prop) (E : State -> Prop) : Prop :=
| Ensures : (forall s, P s -> outcome Q E (m s)) -> ensures m P Q E.

(** [keeps I m]: [m] maintains [I], however it ends. *)
Definition keeps {A : Type} (I : State -> Prop) (m : M A) : Prop :=
  ensures m I (fun _ => I) I.

(** Every load-balancing weight lies in [[0.1, 2.0]]. *)
Definition inBounds (w : Q) : Prop := 0.1 <= w /\ w <= 2.0.

Definition weightsBounded (s : State) : Prop :=
  forall name stats,
    loadBalancingStats s !! name = Some stats -> inBounds (weight stats).

(** The breaker of [p] is the open breaker [b], and no call has reached [p]
    since the trace was [before]. *)
Definition heldOpen (p : string) (b : Breaker) (before : list string)
    (s : State) : Prop :=
  circuitBreakers s !! p = Some b /\
  exists since, calls s = before ++ since /\ ~ In p since.

(** On the client [name]: the consecutive-error counter is [errors], the
    weight is [w], and the health flag is [flag] when that is known. *)
Definition probed (name : string) (errors : nat) (w : option Q)
    (flag : option bool) (s : State) : Prop :=
  (exists c, clients s !! name = Some c /\
             match flag with
             | Some f => isHealthy c = f
             | None => True
             end) /\
  (exists h, healthStatus s !! name = Some h /\
             consecutiveErrors h = errors) /\
  (weight <$> (loadBalancingStats s !! name)) = w.

(** The rounds of health checks of a run all happen before [limit]. *)
Definition checksBefore (limit : Z) (evs : list Event) : Prop :=
  forall probe now, In (PerformHealthChecks probe now) evs -> (now < limit)%Z.

(** *** A coordinator with the stock clients *)

Definition stock : State := booted defaultConfig clientConfigs 0.

Definition timingOut : string -> Outcome := fun _ => Rejected "Request timeout".
Definition answering : string -> Outcome := fun _ => Resolved 12.

Definition pricing (respond : string -> Outcome) (now : Z) : Event :=
  RouteRequest "pricing" noOptions respond 0 now.

Definition probesPass (now : Z) : Event :=
  PerformHealthChecks (fun _ => Passes) now.

(** Five failed pricing requests, with a passing round of probes wherever
    the client had been marked unhealthy: the fifth failure, at time [4],
    opens the breaker of [coingecko] until [60004]. *)
Definition tripped : State :=
  runEvents stock
    [ pricing timingOut 0; pricing timingOut 0; pricing timingOut 0;
      probesPass 1; pricing timingOut 2; probesPass 3; pricing timingOut 4 ].

(** After the breaker has opened: a request, and a round of probes with
    another request one millisecond before the retry time. *)
Definition waiting : list Event :=
  [ pricing answering 5; probesPass 60003; pricing answering 60003 ].

Definition breakerOf (s : State) (name : string) : option Breaker :=
  circuitBreakers s !! name.

Definition weightIn (s : State) (name : string) : option Q :=
  weight <$> (loadBalancingStats s !! name).

Definition healthyIn (s : State) (name : string) : option bool :=
  isHealthy <$> (clients s !! name).

Definition errorsIn (s : State) (name : string) : option nat :=
  consecutiveErrors <$> (healthStatus s !! name).

End Coordinator.

(** ** The estimator: batches and variations of an opportunity *)

Module EstimatorMore.
Import JS Estimator.

(** An element of the array that [batchEstimate] returns: the result of
    [estimateProfit] with the [id] of the opportunity put in front. *)
Record BatchEntry : Type := {
  entryId : option string;
  entryResult : Result
}.

(** [x.profitPercent || 0]: a result without the field, [NaN] and [0] all
    count as [0]. *)
Definition profitPercentOrZero (x : BatchEntry) : number :=
  match entryResult x with
  | Estimated e =>
      match est_profitPercent e with
      | Num q => Num q
      | NaN => Num 0
      end
  | _ => Num 0
  end.

(** The loop of [batchEstimate]; the [i]-th call of [estimateProfit] reads
    the clock as [clock i]. *)
Fixpoint estimateEach (cfg : Config) (clock : nat -> Z) (i : nat)
    (opportunities : list Opportunity) : list BatchEntry :=
  match opportunities with
  | [] => []
  | opportunity :: rest =>
      {| entryId := id opportunity;
         entryResult := estimateProfit cfg (clock i) opportunity |}
      :: estimateEach cfg clock (S i) rest
  end.

(** [batchEstimate]. *)
Definition batchEstimate (cfg : Config) (clock : nat -> Z)
    (opportunities : list Opportunity) : list BatchEntry :=
  sort (fun a b => sub (profitPercentOrZero b) (profitPercentOrZero a))
       (estimateEach cfg clock 0 opportunities).

(** The opportunity with another price difference. *)
Definition withPriceDelta (d : Q) (o : Opportunity) : Opportunity := {|
  priceDelta := Some d;
  volume := volume o;
  gasPrice := gasPrice o;
  flashLoanProvider := flashLoanProvider o;
  dexA := dexA o;
  dexB := dexB o;
  liquidityA := liquidityA o;
  liquidityB := liquidityB o;
  ethPriceUsd := ethPriceUsd o;
  id := id o;
  chain := chain o
|}.

(** A threshold above the mark of [STRONG_BUY]. *)
Definition strictConfig : Config := {|
  minProfitThreshold := 0.02;
  maxGasPriceGwei := 50;
  maxSlippage := 0.001;
  reserveBuffer := 0.1
|}.

End EstimatorMore.

(** ** The engine: validation, and the worker of the execution queue *)

Module EngineMore.
Import JS Double Engine.

(** *** Validation of an opportunity by [ArbitrageEngine] *)

(** What [mcpCoordinator.getOptimalFlashLoanProvider] settles to: a provider,
    a falsy value, or a rejection. *)
Inductive Lookup : Type :=
| Found
| NotFound
| LookupFails (message : string).

(** The object returned by the engine's [validateOpportunity]. *)
Record Validation : Type := {
  valid : bool;
  validationReason : option string
}.

Definition rejected (why : string) : Validation :=
  {| valid := false; validationReason := Some why |}.

(** [checkDEXLiquidity]: the [sufficient] flag,
    [opportunity.liquidity >= opportunity.amount * 2]. *)
Definition sufficient (o : Opp) : bool :=
  (toNumber (amount o) * 2 <=? toNumber (liquidity o))%float.

(** [validateOpportunity] of [ArbitrageEngine]; [gasCost] is what
    [estimateGasCost] resolves to (it catches its own exceptions).  The
    gas test is [gasCost > opportunity.expectedProfit * 0.3]. *)
Definition validateOpportunity (provider : Lookup) (gasCost : float) (o : Opp)
  : Validation :=
  match provider with
  | LookupFails message => rejected message
  | NotFound => rejected "No flash loan provider available"
  | Found =>
      if (toNumber (expectedProfit o) * 0.3 <? gasCost)%float
      then rejected "Gas costs too high"
      else if negb (sufficient o)
      then rejected "Insufficient DEX liquidity"
      else {| valid := true; validationReason := None |}
  end.

(** The validation where a provider is found and the gas estimate is 0.01,
    which [estimateGasCost] gives for its default gas price of 20 gwei and
    when the chain configuration cannot be read. *)
Definition validated (o : Opp) : bool :=
  valid (validateOpportunity Found 0.01 o).

(** *** The execution queue *)

(** What [flashLoanCore.executeFlashLoan] settles to. *)
Inductive Execution : Type :=
| Succeeds (profit : Q)
| Fails
| Throws.

(** The engine with the counters of its executions; [executedTrace] is not
    a field of the class: it lists, in order, the entries handed to
    [executeFlashLoan]. *)
Record Runner : Type := {
  engine : State;
  processingQueue : bool;
  opportunitiesExecuted : nat;
  successfulExecutions : nat;
  totalProfit : Q;
  executedTrace : list Queued
}.

(** [executeOpportunity]. *)
Definition executeOpportunity (execute : Queued -> Execution) (q : Queued)
    (r : Runner) : Runner :=
  let counted := S (opportunitiesExecuted r) in
  match execute q with
  | Succeeds profit =>
      {| engine := engine r; processingQueue := processingQueue r;
         opportunitiesExecuted := counted;
         successfulExecutions := S (successfulExecutions r);
         totalProfit := totalProfit r + profit;
         executedTrace := executedTrace r ++ [q] |}
  | Fails | Throws =>
      {| engine := engine r; processingQueue := processingQueue r;
         opportunitiesExecuted := counted;
         successfulExecutions := successfulExecutions r;
         totalProfit := totalProfit r;
         executedTrace := executedTrace r ++ [q] |}
  end.

Definition withEngine (st : State) (r : Runner) : Runner :=
  {| engine := st; processingQueue := processingQueue r;
     opportunitiesExecuted := opportunitiesExecuted r;
     successfulExecutions := successfulExecutions r;
     totalProfit := totalProfit r;
     executedTrace := executedTrace r |}.

Definition withProcessing (b : bool) (r : Runner) : Runner :=
  {| engine := engine r; processingQueue := b;
     opportunitiesExecuted := opportunitiesExecuted r;
     successfulExecutions := successfulExecutions r;
     totalProfit := totalProfit r;
     executedTrace := executedTrace r |}.

(** The [while] loop of [processExecutionQueue]: [shift], then
    [executeOpportunity], as long as the queue has an entry.  [fuel] bounds
    the number of rounds. *)
Fixpoint drain (execute : Queued -> Execution) (fuel : nat) (r : Runner)
  : Runner :=
  match fuel with
  | O => r
  | S fuel' =>
      if negb (isRunning (engine r)) then r
      else
        match shift (engine r) with
        | (None, _) => r
        | (Some opportunity, st) =>
            drain execute fuel' (executeOpportunity execute opportunity (withEngine st r))
        end
  end.

(** [processExecutionQueue]. *)
Definition processExecutionQueue (execute : Queued -> Execution) (r : Runner)
  : Runner :=
  if processingQueue r || negb (isRunning (engine r)) then r
  else
    withProcessing false
      (drain execute (length (executionQueue (engine r)))
             (withProcessing true r)).

(** The profits of the executions that succeeded. *)
Definition profitOf (execute : Queued -> Execution) (q : Queued) : Q :=
  match execute q with
  | Succeeds profit => profit
  | _ => 0
  end.

Definition succeeded (execute : Queued -> Execution) (q : Queued) : bool :=
  match execute q with
  | Succeeds _ => true
  | _ => false
  end.

(** An opportunity just above the thresholds of [filterOpportunities]. *)
Definition thinEdge : Opp :=
  {| token := "T"; chain := "bsc"; profitability := Number 0.5;
     liquidity := Number 1000000; confidence := Number 70;
     amount := Number 1000; expectedProfit := Undefined |}.

(** The same without [confidence]. *)
Definition noConfidence : Opp :=
  {| token := "N"; chain := "bsc"; profitability := Number 0.5;
     liquidity := Number 1000000; confidence := Undefined;
     amount := Number 1000; expectedProfit := Undefined |}.

(** An opportunity whose Kelly fraction is zero in exact arithmetic and
    positive as the code computes it. *)
Definition roundedEdge : Opp :=
  {| token := "R"; chain := "bsc"; profitability := Number 0.5;
     liquidity := Number 1e300; confidence := Number 80;
     amount := Number 1000; expectedProfit := Undefined |}.

(** A runner as the constructor leaves it, around the engine [st]. *)
Definition idleRunner (st : State) : Runner :=
  {| engine := st; processingQueue := false; opportunitiesExecuted := 0;
     successfulExecutions := 0; totalProfit := 0; executedTrace := [] |}.

End EngineMore.

(** ** The same-chain strategy ([SameChainArbitrage]) *)

Module SameChain.
Import JS.

(** [this.config] of [SameChainArbitrage]. *)
Record Config : Type := {
  minVolumeUsd : Q;
  maxGasPriceGwei : Q;
  minProfitThreshold : Q;
  maxTradeSize : Q;
  chains : list string;
  simulationMode : bool
}.

Definition defaultConfig (simulation : bool) : Config := {|
  minVolumeUsd := 1000000;
  maxGasPriceGwei := 50;
  minProfitThreshold := 0.0025;
  maxTradeSize := 50000;
  chains := ["bsc"; "polygon"]%string;
  simulationMode := simulation
|}.

(** An entry of [this.targetPairs]. *)
Record Pair : Type := {
  pairId : string;
  tokenA : string;
  tokenB : string;
  symbol : string;
  pairChains : list string;
  minVolume : Q;
  pairProvider : string;
  dexes : list (string * list string)
}.

Definition targetPairs : list Pair :=
  [ {| pairId := "usdt-usdc"; tokenA := "tether"; tokenB := "usd-coin";
       symbol := "USDT/USDC"; pairChains := ["bsc"; "polygon"];
       minVolume := 10000000; pairProvider := "venus";
       dexes := [ ("bsc", ["pancakeswap"; "biswap"]);
                  ("polygon", ["quickswap"; "sushiswap"]) ] |};
    {| pairId := "eth-wsteth"; tokenA := "ethereum"; tokenB := "wrapped-steth";
       symbol := "ETH/wstETH"; pairChains := ["polygon"];
       minVolume := 5000000; pairProvider := "aave";
       dexes := [ ("polygon", ["quickswap"; "uniswap-v3"]) ] |};
    {| pairId := "btc-wbtc"; tokenA := "bitcoin"; tokenB := "wrapped-bitcoin";
       symbol := "BTC/WBTC"; pairChains := ["polygon"];
       minVolume := 2000000; pairProvider := "aave";
       dexes := [ ("polygon", ["quickswap"; "curve"]) ] |} ]%string.

(** The estimator that the constructor builds: of the configuration only
    the threshold is handed on. *)
Definition estimatorConfig (cfg : Config) : Estimator.Config := {|
  Estimator.minProfitThreshold := minProfitThreshold cfg;
  Estimator.maxGasPriceGwei := 50;
  Estimator.maxSlippage := 0.001;
  Estimator.reserveBuffer := 0.1
|}.

(** An entry of the market data: the two fields that the strategy reads,
    both numbers. *)
Record TokenData : Type := {
  current_price : Q;
  volume_24h : Q
}.

(** [calculateOptimalTradeSize]. *)
Definition calculateOptimalTradeSize (cfg : Config) (minVolume : Q) : Q :=
  Qmin (minVolume * 0.01) (maxTradeSize cfg).

Fixpoint dexesOn (chain : string) (l : list (string * list string))
  : option (list string) :=
  match l with
  | [] => None
  | (k, ds) :: rest => if String.eqb k chain then Some ds else dexesOn chain rest
  end.

(** [pair.dexes[chain][1] || pair.dexes[chain][0]]. *)
Definition secondaryDex (ds : list string) : option string :=
  match ds !! 1%nat with
  | Some name => if String.eqb name "" then ds !! 0%nat else Some name
  | None => ds !! 0%nat
  end.

(** The first half of [analyzePair]: the opportunity object handed to the
    estimator, or [None] where the method returns [null] before that.
    [stamp] is the reading of the clock that ends the [id].  A quotient by
    an average price of zero is not below [0.1] in either arithmetic; a
    chain without venues makes [pair.dexes[chain][0]] throw, and the [catch]
    returns [null]. *)
Definition opportunityFor (cfg : Config) (pair : Pair) (chain : string)
    (marketData : gmap string TokenData) (gasPrice : Q) (stamp : string)
  : option Estimator.Opportunity :=
  match marketData !! tokenA pair, marketData !! tokenB pair with
  | Some tokenAData, Some tokenBData =>
      let minVolume24 := Qmin (volume_24h tokenAData) (volume_24h tokenBData) in
      if Qlt_bool minVolume24 (minVolume pair) then None
      else
        let priceA := current_price tokenAData in
        let priceB := current_price tokenBData in
        let priceDelta := Qabs (priceA - priceB) in
        let avgPrice := (priceA + priceB) / 2 in
        let priceDiffPercent :=
          mul (div (Num priceDelta) (Num avgPrice)) (Num 100) in
        if lt priceDiffPercent (Num 0.1) then None
        else
          let tradeSize := calculateOptimalTradeSize cfg minVolume24 in
          match dexesOn chain (dexes pair) with
          | None => None
          | Some ds =>
              Some {|
                Estimator.priceDelta := Some priceDelta;
                Estimator.volume := Some tradeSize;
                Estimator.gasPrice := Some gasPrice;
                Estimator.flashLoanProvider := Some (pairProvider pair);
                Estimator.dexA := ds !! 0%nat;
                Estimator.dexB := secondaryDex ds;
                Estimator.liquidityA := Some (volume_24h tokenAData);
                Estimator.liquidityB := Some (volume_24h tokenBData);
                Estimator.ethPriceUsd :=
                  Some (orDefault (current_price <$> marketData !! "ethereum"%string)
                                  2000);
                Estimator.id :=
                  Some (pairId pair ++ "-" ++ chain ++ "-" ++ stamp)%string;
                Estimator.chain := Some chain
              |}
          end
  | _, _ => None
  end.

(** [analyzePair]. *)
Definition analyzePair (cfg : Config) (now : Z) (stamp : string) (pair : Pair)
    (chain : string) (marketData : gmap string TokenData) (gasPrice : Q)
  : option Engine.Detected :=
  match opportunityFor cfg pair chain marketData gasPrice stamp with
  | Some opportunity => Engine.analyzePair (estimatorConfig cfg) now opportunity
  | None => None
  end.

(** [getCurrentGasPrices]; [r1] and [r2] are the two values of
    [Math.random()]. *)
Definition getCurrentGasPrices (r1 r2 : Q) : list (string * Q) :=
  [ ("bsc", 5 + r1 * 15); ("polygon", 30 + r2 * 50) ]%string.

(** [gasPrices[chain] && gasPrices[chain] <= this.config.maxGasPriceGwei]. *)
Definition viable (cfg : Config) (gasPrices : list (string * Q))
    (chain : string) : bool :=
  truthy (getProperty gasPrices chain)
  && le (valueToNumber (getProperty gasPrices chain))
        (Num (maxGasPriceGwei cfg)).

(** The two loops of [detectOpportunities]. *)
Definition analyzeOn (cfg : Config) (now : Z) (stamp : string)
    (marketData : gmap string TokenData) (gasPrices : list (string * Q))
    (pair : Pair) (chain : string) : option Engine.Detected :=
  if negb (existsb (String.eqb chain) (pairChains pair)) then None
  else
    match ownProperty gasPrices chain with
    | Some gasPrice => analyzePair cfg now stamp pair chain marketData gasPrice
    | None => None
    end.

Definition analyzeAll (cfg : Config) (now : Z) (stamp : string)
    (marketData : gmap string TokenData) (gasPrices : list (string * Q))
    (pairs : list Pair) (viableChains : list string) : list Engine.Detected :=
  flat_map (fun pair =>
              omap (analyzeOn cfg now stamp marketData gasPrices pair)
                   viableChains)
           pairs.

(** [this.metrics]. *)
Record Metrics : Type := {
  opportunitiesDetected : nat;
  opportunitiesExecuted : nat;
  totalProfit : number;
  totalGasCost : number;
  successRate : number;
  lastReset : Z
}.

(** An entry of [this.executionHistory]. *)
Record HistoryEntry : Type := {
  executionId : string;
  executed : option string;
  profit : number;
  gasUsed : Z;
  executedAt : Z;
  simulation : bool
}.

Record State : Type := {
  isRunning : bool;
  opportunities : list Engine.Detected;
  executionHistory : list HistoryEntry;
  metrics : Metrics
}.

(** [executeArbitrage]; [r] is the value of [Math.random()]. *)
Definition executeArbitrage (cfg : Config) (now : Z) (stamp : string) (r : Q)
    (opportunity : Engine.Detected) (st : State) : State :=
  if simulationMode cfg then
    let simulatedProfit :=
      mul (Engine.estimatedProfit opportunity) (Num (0.8 + r * 0.4)) in
    let candidate := Engine.candidate opportunity in
    let gasCost :=
      div (mul (mul (toNumber (Estimator.gasPrice candidate)) (Num 450000))
               (toNumber (Estimator.ethPriceUsd candidate)))
          (Num 1000000000) in
    let m := metrics st in
    {| isRunning := isRunning st;
       opportunities := opportunities st;
       executionHistory :=
         executionHistory st
         ++ [ {| executionId := "exec-" ++ stamp;
                 executed := Estimator.id candidate;
                 profit := simulatedProfit;
                 gasUsed := 450000;
                 executedAt := now;
                 simulation := true |} ];
       metrics :=
         {| opportunitiesDetected := opportunitiesDetected m;
            opportunitiesExecuted := S (opportunitiesExecuted m);
            totalProfit := add (totalProfit m) simulatedProfit;
            totalGasCost := add (totalGasCost m) gasCost;
            successRate := successRate m;
            lastReset := lastReset m |} |}
  else st.

(** [executeOpportunities]: the [i]-th call of [executeArbitrage] draws
    [random i]. *)
Fixpoint executeEach (cfg : Config) (now : Z) (stamp : string)
    (random : nat -> Q) (i : nat) (l : list Engine.Detected) (st : State)
  : State :=
  match l with
  | [] => st
  | opportunity :: rest =>
      executeEach cfg now stamp random (S i) rest
                  (executeArbitrage cfg now stamp (random i) opportunity st)
  end.

Definition executeOpportunities (cfg : Config) (now : Z) (stamp : string)
    (random : nat -> Q) (l : list Engine.Detected) (st : State) : State :=
  executeEach cfg now stamp random 0 (Engine.executeOpportunities l) st.

(** What one tick reads from outside: the two draws of the gas prices, the
    market data ([None] when the request fails), the clock (every reading
    during the tick gives [clock], printed as [clockText]) and the draws of
    the simulated executions. *)
Record Inputs : Type := {
  gasDraw1 : Q;
  gasDraw2 : Q;
  market : option (gmap string TokenData);
  clock : Z;
  clockText : string;
  draws : nat -> Q
}.

(** [detectOpportunities]. *)
Definition detectOpportunities (cfg : Config) (pairs : list Pair)
    (inp : Inputs) (st : State) : State :=
  if negb (isRunning st) then st
  else
    let gasPrices := getCurrentGasPrices (gasDraw1 inp) (gasDraw2 inp) in
    let viableChains := List.filter (viable cfg gasPrices) (chains cfg) in
    match viableChains with
    | [] => st
    | _ :: _ =>
        match market inp with
        | None => st
        | Some marketData =>
            let detectedOpportunities :=
              sort (fun a b => sub (Engine.estimatedProfit b)
                                   (Engine.estimatedProfit a))
                   (analyzeAll cfg (clock inp) (clockText inp) marketData
                               gasPrices pairs viableChains) in
            let m := metrics st in
            executeOpportunities cfg (clock inp) (clockText inp) (draws inp)
              (firstn 3 detectedOpportunities)
              {| isRunning := isRunning st;
                 opportunities := detectedOpportunities;
                 executionHistory := executionHistory st;
                 metrics :=
                   {| opportunitiesDetected :=
                        (opportunitiesDetected m
                         + length detectedOpportunities)%nat;
                      opportunitiesExecuted := opportunitiesExecuted m;
                      totalProfit := totalProfit m;
                      totalGasCost := totalGasCost m;
                      successRate := successRate m;
                      lastReset := lastReset m |} |}
        end
    end.

(** [resetMetrics]. *)
Definition resetMetrics (now : Z) (st : State) : State :=
  {| isRunning := isRunning st;
     opportunities := opportunities st;
     executionHistory := [];
     metrics :=
       {| opportunitiesDetected := 0; opportunitiesExecuted := 0;
          totalProfit := Num 0; totalGasCost := Num 0;
          successRate := Num 0; lastReset := now |} |}.

(** [reportMetrics]: the success rate it stores. *)
Definition reportMetrics (st : State) : State :=
  let m := metrics st in
  {| isRunning := isRunning st;
     opportunities := opportunities st;
     executionHistory := executionHistory st;
     metrics :=
       {| opportunitiesDetected := opportunitiesDetected m;
          opportunitiesExecuted := opportunitiesExecuted m;
          totalProfit := totalProfit m;
          totalGasCost := totalGasCost m;
          successRate :=
            if (0 <? opportunitiesExecuted m)%nat
            then mul (div (Num (inject_Z (Z.of_nat (opportunitiesExecuted m))))
                          (Num (inject_Z (Z.of_nat (opportunitiesDetected m)))))
                     (Num 100)
            else Num 0;
          lastReset := lastReset m |} |}.

(** The strategy once [start] has set [isRunning]. *)
Definition started (now : Z) : State :=
  {| isRunning := true; opportunities := []; executionHistory := [];
     metrics :=
       {| opportunitiesDetected := 0; opportunitiesExecuted := 0;
          totalProfit := Num 0; totalGasCost := Num 0;
          successRate := Num 0; lastReset := now |} |}.

Inductive Event : Type :=
| Detect (inp : Inputs)
| ResetMetrics (now : Z)
| ReportMetrics.

Definition step (cfg : Config) (pairs : list Pair) (st : State) (ev : Event)
  : State :=
  match ev with
  | Detect inp => detectOpportunities cfg pairs inp st
  | ResetMetrics now => resetMetrics now st
  | ReportMetrics => reportMetrics st
  end.

Definition runEvents (cfg : Config) (pairs : list Pair) (st : State)
    (evs : list Event) : State :=
  fold_left (step cfg pairs) evs st.

(** The counters of executions follow the history and never pass the
    counter of detections. *)
Definition counted (st : State) : Prop :=
  (opportunitiesExecuted (metrics st) <= opportunitiesDetected (metrics st))%nat
  /\ length (executionHistory st) = opportunitiesExecuted (metrics st).

(** The first of the target pairs. *)
Definition usdtUsdc : Pair :=
  {| pairId := "usdt-usdc"; tokenA := "tether"; tokenB := "usd-coin";
     symbol := "USDT/USDC"; pairChains := ["bsc"; "polygon"];
     minVolume := 10000000; pairProvider := "venus";
     dexes := [ ("bsc", ["pancakeswap"; "biswap"]);
                ("polygon", ["quickswap"; "sushiswap"]) ] |}%string.

(** Market data in which the two stablecoins are twenty cents apart. *)
Definition fifthApart : gmap string TokenData :=
  {[ "tether"%string := {| current_price := 1.2; volume_24h := 50000000 |};
     "usd-coin"%string := {| current_price := 1; volume_24h := 40000000 |} ]}.

(** A tick on that market with gas at 12.5 gwei on BSC and 35 gwei on
    Polygon. *)
Definition calmTick : Inputs :=
  {| gasDraw1 := 0.5; gasDraw2 := 0.1; market := Some fifthApart; clock := 0;
     clockText := "0"; draws := fun _ => 0.5 |}.

End SameChain.

(** ** The coordinator: retries, and the invariants of its tracking maps *)

Module CoordinatorMore.
Import Coordinator.

(** *** Retries *)

(** How [withRetry] ends: with the value of the operation, with the last
    error, or with [undefined] when it was allowed no attempt. *)
Inductive Settled : Type :=
| Returned (value : Q)
| ThrewError (message : string)
| ThrewUndefined.

(** A run of [withRetry]: how it ended, how often the operation was called
    and the delays slept through, in order. *)
Record Retried : Type := {
  settled : Settled;
  attempts : nat;
  slept : list Z
}.

(** [Math.min(retryDelay * Math.pow(2, attempt - 1), maxDelay)]. *)
Definition backoff (retryDelay maxDelay : Z) (attempt : nat) : Z :=
  Z.min (retryDelay * 2 ^ (Z.of_nat attempt - 1)) maxDelay.

(** The loop of [withRetry] from the attempt numbered [attempt] on;
    [remaining] counts the attempts left and [operation k] is what the
    [k]-th call settles to. *)
Fixpoint retryFrom (operation : nat -> Outcome) (retryDelay maxDelay : Z)
    (maxRetries attempt remaining : nat) (lastError : option string)
  : Retried :=
  match remaining with
  | O =>
      {| settled := match lastError with
                    | Some message => ThrewError message
                    | None => ThrewUndefined
                    end;
         attempts := 0; slept := [] |}
  | S remaining' =>
      match operation attempt with
      | Resolved value => {| settled := Returned value; attempts := 1; slept := [] |}
      | Rejected message =>
          let later :=
            retryFrom operation retryDelay maxDelay maxRetries (S attempt)
                      remaining' (Some message) in
          {| settled := settled later;
             attempts := S (attempts later);
             slept :=
               (if (attempt <? maxRetries)%nat
                then [backoff retryDelay maxDelay attempt] else [])
               ++ slept later |}
      end
  end.

(** [withRetry]. *)
Definition withRetry (operation : nat -> Outcome) (retryDelay maxDelay : Z)
    (maxRetries : nat) : Retried :=
  retryFrom operation retryDelay maxDelay maxRetries 1 maxRetries None.

(** *** Invariants of the tracking maps *)

(** A breaker is open exactly when its failure count has reached the
    threshold, and an open breaker has a retry time. *)
Definition breakerConsistent (threshold : nat) (b : Breaker) : Prop :=
  (isOpen b = true <-> (threshold <= failureCount b)%nat) /\
  (isOpen b = true -> is_Some (nextRetryTime b)).

Definition breakersConsistent (threshold : nat) (s : State) : Prop :=
  circuitBreakerThreshold (config s) = threshold /\
  forall name b, circuitBreakers s !! name = Some b ->
                 breakerConsistent threshold b.

(** The requests in flight on each client are [load]. *)
Definition loadsAre (load : string -> option Z) (s : State) : Prop :=
  forall name, requestCount <$> (clients s !! name) = load name.

(** [p] is not a registered client, and no call has reached it since the
    trace was [before]. *)
Definition neverRegistered (p : string) (before : list string) (s : State)
  : Prop :=
  clients s !! p = None /\
  exists since, calls s = before ++ since /\ ~ In p since.

(** Every registered client has an entry in [requestMetrics]. *)
Definition metered (s : State) : Prop :=
  forall name,
    is_Some (clients s !! name) -> is_Some (requestMetrics s !! name).

(** [name] is registered and has an entry in each of the four tracking
    maps. *)
Definition complete (s : State) (name : string) : Prop :=
  is_Some (clients s !! name) /\
  is_Some (healthStatus s !! name) /\
  is_Some (requestMetrics s !! name) /\
  is_Some (circuitBreakers s !! name) /\
  is_Some (loadBalancingStats s !! name).

(** From [s0] to [s] the configuration, the capabilities, the set of
    registered clients and the set of clients with load statistics have
    stayed the same, and no other tracking map has lost an entry. *)
Definition grows (s0 s : State) : Prop :=
  config s = config s0 /\
  configs s = configs s0 /\
  capabilities s = capabilities s0 /\
  (forall name, is_Some (clients s !! name) <-> is_Some (clients s0 !! name)) /\
  (forall name, is_Some (healthStatus s0 !! name) ->
                is_Some (healthStatus s !! name)) /\
  (forall name, is_Some (requestMetrics s0 !! name) ->
                is_Some (requestMetrics s !! name)) /\
  (forall name, is_Some (circuitBreakers s0 !! name) ->
                is_Some (circuitBreakers s !! name)) /\
  (forall name, is_Some (loadBalancingStats s !! name) <->
                is_Some (loadBalancingStats s0 !! name)).

(** The counters of a client between two requests: every request counted
    has been counted as a success or as a failure, and as one of them only
    where [exact] holds. *)
Definition settledMetrics (exact : Prop) (m : Metrics) : Prop :=
  (totalRequests m <= successfulRequests m + failedRequests m)%nat /\
  (exact -> totalRequests m = (successfulRequests m + failedRequests m)%nat).

(** The same with one request still under way. *)
Definition pendingMetrics (exact : Prop) (m : Metrics) : Prop :=
  (totalRequests m <= S (successfulRequests m + failedRequests m))%nat /\
  (exact -> totalRequests m = S (successfulRequests m + failedRequests m)).

(** The counters add up, exactly so for the clients that were complete in
    [s0]. *)
Definition accounted (s0 s : State) : Prop :=
  forall name m,
    requestMetrics s !! name = Some m -> settledMetrics (complete s0 name) m.

(** The same with one request of [pending] still under way. *)
Definition accountedBut (s0 : State) (pending : string) (s : State) : Prop :=
  forall name m,
    requestMetrics s !! name = Some m ->
    if decide (name = pending)
    then pendingMetrics (complete s0 name) m
    else settledMetrics (complete s0 name) m.

(** Between two requests: since [s0] nothing was lost, the requests in
    flight are [load] and the counters add up. *)
Definition steady (s0 : State) (load : string -> option Z) (s : State) : Prop :=
  grows s0 s /\ loadsAre load s /\ accounted s0 s.

(** While the request to [pending] is under way. *)
Definition midRequest (s0 : State) (load : string -> option Z)
    (pending : string) (s : State) : Prop :=
  grows s0 s /\ loadsAre load s /\ accountedBut s0 pending s.

(** One more request in flight on [name]. *)
Definition oneMore (name : string) (load : string -> option Z)
  : string -> option Z :=
  fun n => if decide (n = name) then Z.succ <$> load n else load n.

(** The configured clients whose connection succeeded, and those that got
    as far as the registration. *)
Definition connected (connects : string -> Connection)
    (cs : list (string * ClientConfig)) (name : string) : Prop :=
  In name (map fst cs) /\ connects name = Connected.

Definition admitted (connects : string -> Connection)
    (cs : list (string * ClientConfig)) (name : string) : Prop :=
  In name (map fst cs) /\ registers (connects name) = true.

(** No client has a request in flight. *)
Definition idle (s : State) : Prop :=
  forall name c, clients s !! name = Some c -> requestCount c = 0%Z.

(** No request has been counted. *)
Definition unused (s : State) : Prop :=
  forall name m,
    requestMetrics s !! name = Some m ->
    totalRequests m = 0%nat /\ successfulRequests m = 0%nat /\
    failedRequests m = 0%nat.

(** While [initialize] runs: only configured clients that got as far as the
    registration are registered, each with its capabilities and nothing in
    flight, and no request has been counted. *)
Definition registering (connects : string -> Connection)
    (cs : list (string * ClientConfig)) (s : State) : Prop :=
  configs s = cs /\
  (forall name, is_Some (clients s !! name) ->
                admitted connects cs name /\
                is_Some (mapGet name (capabilities s))) /\
  idle s /\ unused s.

(** The clients of [done] that got as far as the registration are
    registered. *)
Definition registeredOn (connects : string -> Connection)
    (done : list (string * ClientConfig)) (s : State) : Prop :=
  forall entry, In entry done -> registers (connects (fst entry)) = true ->
                is_Some (clients s !! fst entry).

(** The clients of [done] have an entry for their health, their metrics and
    their breaker, and those that connected an entry for their load
    statistics as well. *)
Definition trackedOn (connects : string -> Connection)
    (done : list (string * ClientConfig)) (s : State) : Prop :=
  forall entry, In entry done ->
    is_Some (healthStatus s !! fst entry) /\
    is_Some (requestMetrics s !! fst entry) /\
    is_Some (circuitBreakers s !! fst entry) /\
    (connects (fst entry) = Connected ->
     is_Some (loadBalancingStats s !! fst entry)).

(** Only clients that connected have load statistics. *)
Definition measured (connects : string -> Connection)
    (cs : list (string * ClientConfig)) (s : State) : Prop :=
  forall name, is_Some (loadBalancingStats s !! name) ->
               connected connects cs name.

(** Consecutive selections by [selectByRoundRobin] over one list. *)
Fixpoint roundRobinTimes (k : nat) (availableClients : list string)
    (s : State) : list (option string) * State :=
  match k with
  | O => ([], s)
  | S k' =>
      match selectByRoundRobin availableClients s with
      | (Ok selected, s') =>
          let (later, s'') := roundRobinTimes k' availableClients s' in
          (selected :: later, s'')
      | (Err _, s') => ([], s')
      end
  end.

(** Two initialisations that do not go through: [web3] refuses the
    connection; the class of [coingecko] has no method [on]. *)
Definition web3Refused (name : string) : Connection :=
  if String.eqb name "web3" then Refused (Some "connect ECONNREFUSED")
  else Connected.

Definition coingeckoDeaf (name : string) : Connection :=
  if String.eqb name "coingecko"
  then ListenersFail (Some "client.on is not a function")
  else Connected.

End CoordinatorMore.

(** * Facts about doubles

    The comparisons of doubles through an integer rank, and how the sign of
    a difference and of a product follows those of the operands, from the
    specification of the operations in [SpecFloat]. *)

Module DoubleFacts.
Import PrimFloat FloatOps SpecFloat FloatAxioms.
Local Open Scope Z_scope.

(** ** Digits and canonical mantissas *)

Lemma digits2_bounds (m : positive) :
  2 ^ (Zpos (digits2_pos m) - 1) <= Zpos m < 2 ^ Zpos (digits2_pos m).
Proof.
  induction m as [p IH|p IH|]; cbn [digits2_pos].
  - rewrite Pos2Z.inj_succ.
    replace (Z.succ (Zpos (digits2_pos p)) - 1) with (Zpos (digits2_pos p))
      by lia.
    rewrite Z.pow_succ_r by lia.
    assert (E : 2 ^ Zpos (digits2_pos p)
                = 2 * 2 ^ (Zpos (digits2_pos p) - 1)).
    { rewrite <- Z.pow_succ_r by lia. f_equal. lia. }
    change (Z.pos p~1) with (2 * Z.pos p + 1). lia.
  - rewrite Pos2Z.inj_succ.
    replace (Z.succ (Zpos (digits2_pos p)) - 1) with (Zpos (digits2_pos p))
      by lia.
    rewrite Z.pow_succ_r by lia.
    assert (E : 2 ^ Zpos (digits2_pos p)
                = 2 * 2 ^ (Zpos (digits2_pos p) - 1)).
    { rewrite <- Z.pow_succ_r by lia. f_equal. lia. }
    change (Z.pos p~0) with (2 * Z.pos p). lia.
  - cbn. lia.
Qed.

(** What [valid_binary] says of a finite double. *)
Lemma bounded_spec (m : positive) (e : Z) :
  bounded prec emax m e = true ->
  -1074 <= e <= 971 /\
  Zpos (digits2_pos m) <= 53 /\
  (Zpos (digits2_pos m) = 53 \/ e = -1074).
Proof.
  unfold bounded, canonical_mantissa, fexp, emin, prec, emax.
  intros H. apply andb_true_iff in H as [H1 H2].
  apply Z.eqb_eq in H1. apply Z.leb_le in H2. lia.
Qed.

(** The value of a finite double in units of the least positive one. *)
Definition scaled (x : spec_float) : Z :=
  match x with
  | S754_finite s m e => cond_Zopp s (Zpos m * 2 ^ (e + 1074))
  | _ => 0
  end.

Definition finiteSF (x : spec_float) : Prop :=
  match x with
  | S754_zero _ | S754_finite _ _ _ => True
  | _ => False
  end.

Lemma scaled_positive (m : positive) (e : Z) :
  -1074 <= e -> 0 < Zpos m * 2 ^ (e + 1074).
Proof.
  intros H. apply Z.mul_pos_pos; [lia|]. apply Z.pow_pos_nonneg; lia.
Qed.

(** A canonical mantissa with the smaller exponent has the smaller
    value. *)
Lemma lower_exponent (m1 m2 : positive) (e1 e2 : Z) :
  bounded prec emax m1 e1 = true -> bounded prec emax m2 e2 = true ->
  e1 < e2 ->
  Zpos m1 * 2 ^ (e1 + 1074) < Zpos m2 * 2 ^ (e2 + 1074).
Proof.
  intros B1 B2 Hlt.
  destruct (bounded_spec m1 e1 B1) as (R1 & D1 & _).
  destruct (bounded_spec m2 e2 B2) as (R2 & D2 & [C2|C2]); [|lia].
  pose proof (digits2_bounds m1) as [_ U1].
  pose proof (digits2_bounds m2) as [L2 _].
  rewrite C2 in L2. change (53 - 1) with 52 in L2.
  assert (U1' : Zpos m1 < 2 ^ 53).
  { eapply Z.lt_le_trans; [exact U1|]. apply Z.pow_le_mono_r; lia. }
  set (a := e1 + 1074) in *. set (b := e2 + 1074) in *.
  assert (Ha : 0 <= a) by (unfold a; lia).
  assert (Hb : a + 1 <= b) by (unfold a, b; lia).
  assert (Pa : 0 < 2 ^ a) by (apply Z.pow_pos_nonneg; lia).
  apply Z.lt_le_trans with (2 ^ 53 * 2 ^ a).
  - apply Z.mul_lt_mono_pos_r; assumption.
  - apply Z.le_trans with (2 ^ 52 * 2 ^ b).
    + replace (2 ^ 53) with (2 ^ 52 * 2) by reflexivity.
      rewrite <- Z.mul_assoc. apply Z.mul_le_mono_nonneg_l; [lia|].
      replace (2 * 2 ^ a) with (2 ^ (a + 1))
        by (rewrite Z.pow_add_r by lia; change (2 ^ 1) with 2; lia).
      apply Z.pow_le_mono_r; lia.
    + apply Z.mul_le_mono_nonneg_r; [|exact L2].
      apply Z.pow_nonneg. lia.
Qed.

Lemma compare_scale (a b k : Z) : 0 < k -> (a * k ?= b * k) = (a ?= b).
Proof.
  intros H. destruct (Z.compare_spec a b) as [E|E|E].
  - subst. apply Z.compare_refl.
  - apply Z.compare_lt_iff. nia.
  - apply Z.compare_gt_iff. nia.
Qed.

Lemma compare_cont_eq (m1 m2 : positive) :
  PosDef.Pos.compare_cont Eq m1 m2 = (Zpos m1 ?= Zpos m2).
Proof. reflexivity. Qed.

(** The comparison of two finite doubles is that of their values. *)
Lemma compare_scaled (x y : spec_float) :
  valid_binary x = true -> valid_binary y = true ->
  finiteSF x -> finiteSF y ->
  SFcompare x y = Some (scaled x ?= scaled y).
Proof.
  destruct x as [sx| | |sx mx ex], y as [sy| | |sy my ey];
    unfold valid_binary; cbn [SpecFloat.valid_binary finiteSF scaled];
    intros Vx Vy Fx Fy;
    try contradiction.
  - reflexivity.
  - pose proof (bounded_spec my ey Vy) as (R & _).
    pose proof (scaled_positive my ey ltac:(lia)) as P.
    destruct sy; cbn [SFcompare cond_Zopp]; f_equal; symmetry.
    + apply Z.compare_gt_iff. lia.
    + apply Z.compare_lt_iff. lia.
  - pose proof (bounded_spec mx ex Vx) as (R & _).
    pose proof (scaled_positive mx ex ltac:(lia)) as P.
    destruct sx; cbn [SFcompare cond_Zopp]; f_equal; symmetry.
    + apply Z.compare_lt_iff. lia.
    + apply Z.compare_gt_iff. lia.
  - pose proof (bounded_spec mx ex Vx) as (Rx & _).
    pose proof (bounded_spec my ey Vy) as (Ry & _).
    pose proof (scaled_positive mx ex ltac:(lia)) as Px.
    pose proof (scaled_positive my ey ltac:(lia)) as Py.
    cbn [SFcompare].
    destruct sx, sy; cbn [cond_Zopp]; f_equal.
    + (* both negative *)
      destruct (ex ?= ey) eqn:E.
      * apply Z.compare_eq in E. subst ey.
        rewrite compare_cont_eq.
        rewrite Z.compare_opp.
        rewrite compare_scale by (apply Z.pow_pos_nonneg; lia).
        rewrite (Z.compare_antisym (Z.pos mx) (Z.pos my)). reflexivity.
      * apply Z.compare_lt_iff in E. symmetry. apply Z.compare_gt_iff.
        pose proof (lower_exponent mx my ex ey Vx Vy E). lia.
      * apply Z.compare_gt_iff in E. symmetry. apply Z.compare_lt_iff.
        pose proof (lower_exponent my mx ey ex Vy Vx E). lia.
    + symmetry. apply Z.compare_lt_iff. lia.
    + symmetry. apply Z.compare_gt_iff. lia.
    + destruct (ex ?= ey) eqn:E.
      * apply Z.compare_eq in E. subst ey.
        rewrite compare_cont_eq.
        rewrite compare_scale by (apply Z.pow_pos_nonneg; lia).
        reflexivity.
      * apply Z.compare_lt_iff in E. symmetry. apply Z.compare_lt_iff.
        apply (lower_exponent mx my ex ey Vx Vy E).
      * apply Z.compare_gt_iff in E. symmetry. apply Z.compare_gt_iff.
        apply (lower_exponent my mx ey ex Vy Vx E).
Qed.

(** ** Rounding keeps the sign *)

Lemma shr_1_m (mrs : shr_record) :
  0 <= shr_m mrs -> shr_m (shr_1 mrs) = Z.div2 (shr_m mrs).
Proof.
  destruct mrs as [m r s]. cbn [shr_m]. intros H.
  destruct m as [|p|p]; [reflexivity|destruct p; reflexivity|lia].
Qed.

Lemma iter_shr_m (n : positive) (mrs : shr_record) :
  0 <= shr_m mrs ->
  shr_m (iter_pos shr_1 n mrs) = Z.shiftr (shr_m mrs) (Zpos n).
Proof.
  revert mrs.
  induction n as [n IH|n IH|]; intros mrs H; cbn [iter_pos].
  - assert (H1 : 0 <= shr_m (shr_1 mrs))
      by (rewrite shr_1_m by exact H; apply Z.div2_nonneg; exact H).
    assert (H2 : 0 <= shr_m (iter_pos shr_1 n (shr_1 mrs)))
      by (rewrite IH by exact H1; apply Z.shiftr_nonneg; exact H1).
    rewrite IH by exact H2. rewrite IH by exact H1.
    rewrite shr_1_m by exact H. rewrite Z.div2_spec.
    rewrite !Z.shiftr_shiftr by lia. f_equal. lia.
  - assert (H2 : 0 <= shr_m (iter_pos shr_1 n mrs))
      by (rewrite IH by exact H; apply Z.shiftr_nonneg; exact H).
    rewrite IH by exact H2. rewrite IH by exact H.
    rewrite Z.shiftr_shiftr by lia. f_equal. lia.
  - rewrite shr_1_m by exact H. apply Z.div2_spec.
Qed.

Definition shiftBy (m e : Z) : Z :=
  Z.max 0 (fexp prec emax (Zdigits2 m + e) - e).

Lemma shr_fexp_spec (m e : Z) (l : location) :
  0 <= m ->
  shr_m (fst (shr_fexp prec emax m e l)) = Z.shiftr m (shiftBy m e) /\
  snd (shr_fexp prec emax m e l) = e + shiftBy m e.
Proof.
  intros H. unfold shr_fexp, shr, shiftBy.
  assert (E : shr_m (shr_record_of_loc m l) = m)
    by (destruct l as [|[| |]]; reflexivity).
  destruct (fexp prec emax (Zdigits2 m + e) - e) as [|n|n] eqn:En;
    cbn [fst snd].
  - rewrite E. split; [symmetry; apply Z.shiftr_0_r|lia].
  - rewrite iter_shr_m by (rewrite E; exact H). rewrite E.
    split; [f_equal; lia|lia].
  - rewrite E. replace (Z.max 0 (Z.neg n)) with 0 by lia.
    split; [symmetry; apply Z.shiftr_0_r|lia].
Qed.

Lemma shift_keeps_positive (p : positive) (e : Z) :
  -1074 <= e -> 0 < Z.shiftr (Zpos p) (shiftBy (Zpos p) e).
Proof.
  intros He.
  pose proof (digits2_bounds p) as [L _].
  assert (Hn : 0 <= shiftBy (Zpos p) e <= Zpos (digits2_pos p) - 1).
  { unfold shiftBy, fexp, emin, prec, emax. cbn [Zdigits2]. lia. }
  rewrite Z.shiftr_div_pow2 by lia.
  apply Z.div_str_pos. split; [apply Z.pow_pos_nonneg; lia|].
  eapply Z.le_trans; [|exact L]. apply Z.pow_le_mono_r; lia.
Qed.

Lemma round_nearest_even_ge (m : Z) (l : location) :
  m <= round_nearest_even m l.
Proof.
  destruct l as [|[| |]]; cbn [round_nearest_even];
    try destruct (Z.even m); lia.
Qed.

Definition signed (s : bool) (x : spec_float) : Prop :=
  match x with
  | S754_zero t | S754_infinity t | S754_finite t _ _ => t = s
  | S754_nan => False
  end.

Definition nonzero (x : spec_float) : Prop :=
  match x with
  | S754_zero _ => False
  | _ => True
  end.

(** The rounding of a mantissa that is not negative carries the sign it is
    given. *)
Lemma binary_round_aux_signed (s : bool) (m e : Z) (l : location) :
  0 <= m -> signed s (binary_round_aux prec emax s m e l).
Proof.
  intros H. unfold binary_round_aux.
  pose proof (shr_fexp_spec m e l H) as [M1 _].
  destruct (shr_fexp prec emax m e l) as [mrs1 e1]. cbn [fst] in M1.
  set (m1 := round_nearest_even (shr_m mrs1) (loc_of_shr_record mrs1)).
  assert (H1 : 0 <= m1).
  { eapply Z.le_trans; [|apply round_nearest_even_ge].
    rewrite M1. apply Z.shiftr_nonneg. exact H. }
  pose proof (shr_fexp_spec m1 e1 loc_Exact H1) as [M2 _].
  destruct (shr_fexp prec emax m1 e1 loc_Exact) as [mrs2 e2].
  cbn [fst] in M2.
  assert (H2 : 0 <= shr_m mrs2)
    by (rewrite M2; apply Z.shiftr_nonneg; exact H1).
  destruct (shr_m mrs2) as [|q|q]; [reflexivity| |lia].
  destruct (e2 <=? emax - prec); reflexivity.
Qed.

(** With an exponent in range, a positive mantissa is not rounded to
    zero. *)
Lemma binary_round_aux_nonzero (s : bool) (p : positive) (e : Z)
    (l : location) :
  -1074 <= e -> nonzero (binary_round_aux prec emax s (Zpos p) e l).
Proof.
  intros He. unfold binary_round_aux.
  pose proof (shr_fexp_spec (Zpos p) e l ltac:(lia)) as [M1 E1].
  pose proof (shift_keeps_positive p e He) as P1.
  destruct (shr_fexp prec emax (Zpos p) e l) as [mrs1 e1].
  cbn [fst snd] in M1, E1.
  set (m1 := round_nearest_even (shr_m mrs1) (loc_of_shr_record mrs1)).
  assert (H1 : 0 < m1).
  { eapply Z.lt_le_trans; [|apply round_nearest_even_ge].
    rewrite M1. exact P1. }
  assert (He1 : -1074 <= e1) by (unfold shiftBy in E1; lia).
  destruct m1 as [|p1|p1] eqn:Em1; try lia.
  pose proof (shr_fexp_spec (Zpos p1) e1 loc_Exact ltac:(lia)) as [M2 _].
  pose proof (shift_keeps_positive p1 e1 He1) as P2.
  destruct (shr_fexp prec emax (Zpos p1) e1 loc_Exact) as [mrs2 e2].
  cbn [fst] in M2. rewrite <- M2 in P2.
  destruct (shr_m mrs2) as [|q|q]; try lia.
  destruct (e2 <=? emax - prec); exact I.
Qed.

Lemma binary_round_signed (s : bool) (p : positive) (e : Z) :
  -1074 <= e ->
  signed s (binary_round prec emax s p e) /\
  nonzero (binary_round prec emax s p e).
Proof.
  intros He. unfold binary_round.
  destruct (shl_align p e (fexp prec emax (Z.pos (digits2_pos p) + e)))
    as [mz ez] eqn:E.
  assert (Hz : -1074 <= ez).
  { unfold shl_align in E.
    destruct (fexp prec emax (Z.pos (digits2_pos p) + e) - e) eqn:D;
      inversion E; subst; try lia.
    unfold fexp, emin, prec, emax. lia. }
  split.
  - apply binary_round_aux_signed. lia.
  - apply binary_round_aux_nonzero. exact Hz.
Qed.

Lemma shl_align_value (m : positive) (e ez : Z) :
  ez <= e -> Zpos (fst (shl_align m e ez)) = Zpos m * 2 ^ (e - ez).
Proof.
  intros H. unfold shl_align.
  destruct (ez - e) as [|d|d] eqn:D; cbn [fst].
  - replace (e - ez) with 0 by lia. lia.
  - lia.
  - change (Pos.iter xO m d) with (shift_pos d m).
    rewrite shift_pos_correct. replace (e - ez) with (Zpos d) by lia.
    change (2 ^ Zpos d) with (Z.pow_pos 2 d). lia.
Qed.

(** ** The sign of a difference *)

Lemma scaled_split (m : positive) (e ez : Z) :
  -1074 <= ez <= e ->
  Zpos m * 2 ^ (e + 1074) = Zpos m * 2 ^ (e - ez) * 2 ^ (ez + 1074).
Proof.
  intros H. rewrite <- Z.mul_assoc, <- Z.pow_add_r by lia.
  do 2 f_equal. lia.
Qed.

Definition notNaN (x : spec_float) : Prop :=
  match x with
  | S754_nan => False
  | _ => True
  end.

Lemma SFltb_zero (x : spec_float) (s : bool) :
  signed s x -> nonzero x ->
  SFltb (S754_zero false) x = negb s.
Proof.
  destruct x as [t|t| |t m e]; cbn [signed nonzero]; intros Hs N;
    try contradiction; subst t; destruct s; reflexivity.
Qed.

(** [0 < y - x] exactly when [x < y], for numbers. *)
Lemma SFsub_positive (x y : spec_float) :
  valid_binary x = true -> valid_binary y = true ->
  notNaN x -> notNaN y ->
  SFltb (S754_zero false) (SFsub prec emax y x) = SFltb x y.
Proof.
  intros Vx Vy Nx Ny.
  destruct x as [sx|sx| |sx mx ex], y as [sy|sy| |sy my ey];
    try contradiction;
    try (destruct sx, sy; reflexivity);
    try (destruct sx; reflexivity); try (destruct sy; reflexivity).
  pose proof (compare_scaled _ _ Vx Vy I I) as C.
  unfold SFltb. rewrite C. clear C.
  unfold valid_binary in Vx, Vy. cbn [SpecFloat.valid_binary] in Vx, Vy.
  pose proof (bounded_spec mx ex Vx) as (Rx & _).
  pose proof (bounded_spec my ey Vy) as (Ry & _).
  cbn [SFsub scaled].
  set (ez := Z.min ey ex).
  rewrite !shl_align_value by (unfold ez; lia).
  rewrite (scaled_split mx ex ez) by (unfold ez; lia).
  rewrite (scaled_split my ey ez) by (unfold ez; lia).
  set (X := Zpos mx * 2 ^ (ex - ez)).
  set (Y := Zpos my * 2 ^ (ey - ez)).
  set (k := 2 ^ (ez + 1074)).
  assert (Hk : 0 < k) by (apply Z.pow_pos_nonneg; unfold ez; lia).
  assert (S : (cond_Zopp sx (X * k) ?= cond_Zopp sy (Y * k))
              = (0 ?= cond_Zopp sy Y - cond_Zopp sx X)).
  { replace (cond_Zopp sx (X * k)) with (cond_Zopp sx X * k)
      by (destruct sx; cbn [cond_Zopp]; lia).
    replace (cond_Zopp sy (Y * k)) with (cond_Zopp sy Y * k)
      by (destruct sy; cbn [cond_Zopp]; lia).
    rewrite compare_scale by exact Hk.
    destruct (Z.compare_spec (cond_Zopp sx X) (cond_Zopp sy Y)) as [E|E|E];
      symmetry.
    - apply Z.compare_eq_iff. lia.
    - apply Z.compare_lt_iff. lia.
    - apply Z.compare_gt_iff. lia. }
  rewrite S. clear S.
  destruct (cond_Zopp sy Y - cond_Zopp sx X) as [|d|d];
    cbn [binary_normalize].
  - reflexivity.
  - destruct (binary_round_signed false d ez ltac:(unfold ez; lia))
      as [Sg Nz].
    fold (SFltb (S754_zero false) (binary_round prec emax false d ez)).
    rewrite (SFltb_zero _ false Sg Nz). reflexivity.
  - destruct (binary_round_signed true d ez ltac:(unfold ez; lia))
      as [Sg Nz].
    fold (SFltb (S754_zero false) (binary_round prec emax true d ez)).
    rewrite (SFltb_zero _ true Sg Nz). reflexivity.
Qed.

(** ** The order of the numbers

    Every double but [NaN] has a rank, an integer, and the comparisons of
    doubles are those of their ranks; the two zeros share rank [0]. *)

Definition SFrank (x : spec_float) : Z :=
  match x with
  | S754_infinity true => - 2 ^ 2099
  | S754_infinity false => 2 ^ 2099
  | _ => scaled x
  end.

Lemma scaled_bound (m : positive) (e : Z) :
  bounded prec emax m e = true ->
  0 < Zpos m * 2 ^ (e + 1074) < 2 ^ 2099.
Proof.
  intros B. destruct (bounded_spec m e B) as (R & D & _).
  split; [apply scaled_positive; lia|].
  pose proof (digits2_bounds m) as [_ U].
  assert (U' : Zpos m < 2 ^ 53).
  { eapply Z.lt_le_trans; [exact U|]. apply Z.pow_le_mono_r; lia. }
  assert (P : 2 ^ (e + 1074) < 2 ^ 2046)
    by (apply Z.pow_lt_mono_r; lia).
  replace (2 ^ 2099) with (2 ^ 53 * 2 ^ 2046)
    by (rewrite <- Z.pow_add_r by lia; reflexivity).
  apply Z.mul_lt_mono_nonneg; [lia|exact U'| |exact P].
  apply Z.pow_nonneg. lia.
Qed.

Lemma SFcompare_rank (x y : spec_float) :
  valid_binary x = true -> valid_binary y = true ->
  notNaN x -> notNaN y ->
  SFcompare x y = Some (SFrank x ?= SFrank y).
Proof.
  intros Vx Vy Nx Ny.
  assert (Fin : forall z, valid_binary z = true -> finiteSF z ->
                          - 2 ^ 2099 < scaled z < 2 ^ 2099).
  { intros [s|s| |s m e] Vz Fz; try contradiction; cbn [scaled].
    - split; [apply Z.opp_neg_pos|]; apply Z.pow_pos_nonneg; lia.
    - pose proof (scaled_bound m e Vz). destruct s; cbn [cond_Zopp]; lia. }
  assert (P : 0 < 2 ^ 2099) by (apply Z.pow_pos_nonneg; lia).
  destruct x as [sx|sx| |sx mx ex], y as [sy|sy| |sy my ey];
    try contradiction;
    try (apply compare_scaled; trivial; exact I).
  all: try pose proof (Fin _ Vx I) as Fx; try pose proof (Fin _ Vy I) as Fy.
  all: repeat match goal with s : bool |- _ => destruct s end;
    cbn [SFcompare SFrank scaled cond_Zopp] in *; f_equal; symmetry;
    first [apply Z.compare_refl
          |apply Z.compare_lt_iff; lia|apply Z.compare_gt_iff; lia].
Qed.

Lemma SFcompare_antisym (x y : spec_float) :
  SFcompare y x = option_map CompOpp (SFcompare x y).
Proof.
  destruct x as [sx|sx| |sx mx ex], y as [sy|sy| |sy my ey]; cbn;
    try reflexivity;
    try (destruct sx; reflexivity); try (destruct sy; reflexivity);
    try (destruct sx, sy; reflexivity).
  change (PosDef.Pos.compare_cont Eq my mx) with (Pos.compare_cont Eq my mx).
  change (PosDef.Pos.compare_cont Eq mx my) with (Pos.compare_cont Eq mx my).
  rewrite (Z.compare_antisym ey ex).
  pose proof (Pos.compare_cont_antisym mx my Eq) as H. cbn [CompOpp] in H.
  destruct sx, sy; cbn; try reflexivity.
  all: destruct (ey ?= ex)%Z; cbn; try reflexivity.
  - rewrite <- H. rewrite CompOpp_involutive. reflexivity.
  - rewrite <- H. reflexivity.
Qed.

(** ** Primitive doubles *)

Definition rank (x : float) : Z := SFrank (Prim2SF x).

Lemma is_nan_spec (x : float) :
  is_nan x = true <-> Prim2SF x = S754_nan.
Proof.
  unfold is_nan. rewrite eqb_spec. unfold SFeqb.
  destruct (Prim2SF x) as [s|s| |s m e]; cbn [SFcompare].
  - split; discriminate.
  - destruct s; split; discriminate.
  - split; reflexivity.
  - rewrite Z.compare_refl.
    change (PosDef.Pos.compare_cont Eq m m) with (Pos.compare m m).
    rewrite Pos.compare_refl. destruct s; split; discriminate.
Qed.

Lemma is_number (x : float) : is_nan x = false <-> notNaN (Prim2SF x).
Proof.
  pose proof (is_nan_spec x) as H.
  destruct (is_nan x), (Prim2SF x); cbn [notNaN]; split; intros G;
    try reflexivity; try exact I; try discriminate; try contradiction.
  - destruct H as [H _]. discriminate (H eq_refl).
  - destruct H as [H _]. discriminate (H eq_refl).
  - destruct H as [H _]. discriminate (H eq_refl).
  - destruct H as [_ H]. discriminate (H eq_refl).
Qed.

Lemma ltb_rank (x y : float) :
  is_nan x = false -> is_nan y = false ->
  (x <? y)%float = (rank x <? rank y).
Proof.
  intros Nx Ny. apply is_number in Nx, Ny.
  rewrite ltb_spec. unfold SFltb, rank.
  rewrite (SFcompare_rank _ _ (Prim2SF_valid x) (Prim2SF_valid y) Nx Ny).
  unfold Z.ltb. destruct (SFrank (Prim2SF x) ?= SFrank (Prim2SF y));
    reflexivity.
Qed.

Lemma leb_rank (x y : float) :
  is_nan x = false -> is_nan y = false ->
  (x <=? y)%float = (rank x <=? rank y).
Proof.
  intros Nx Ny. apply is_number in Nx, Ny.
  rewrite leb_spec. unfold SFleb, rank.
  rewrite (SFcompare_rank _ _ (Prim2SF_valid x) (Prim2SF_valid y) Nx Ny).
  unfold Z.leb. destruct (SFrank (Prim2SF x) ?= SFrank (Prim2SF y));
    reflexivity.
Qed.

(** A comparison that holds is one of numbers. *)
Lemma ltb_numbers (x y : float) :
  (x <? y)%float = true -> is_nan x = false /\ is_nan y = false.
Proof.
  rewrite ltb_spec. unfold SFltb. intros H.
  split; apply is_number;
    destruct (Prim2SF x), (Prim2SF y); try exact I; discriminate.
Qed.

Lemma leb_numbers (x y : float) :
  (x <=? y)%float = true -> is_nan x = false /\ is_nan y = false.
Proof.
  rewrite leb_spec. unfold SFleb. intros H.
  split; apply is_number;
    destruct (Prim2SF x), (Prim2SF y); try exact I; discriminate.
Qed.

(** [x < y] excludes [y <= x]. *)
Lemma ltb_not_leb (x y : float) :
  (x <? y)%float = true -> (y <=? x)%float = false.
Proof.
  intros H. destruct (ltb_numbers x y H) as [Nx Ny].
  rewrite (ltb_rank x y Nx Ny) in H. rewrite (leb_rank y x Ny Nx).
  lia.
Qed.

(** [0 < y - x] exactly when [x < y], for numbers. *)
Lemma sub_positive (x y : float) :
  is_nan x = false -> is_nan y = false ->
  (0 <? y - x)%float = (x <? y)%float.
Proof.
  intros Nx Ny. apply is_number in Nx, Ny.
  rewrite !ltb_spec, sub_spec.
  change (Prim2SF 0) with (S754_zero false).
  apply SFsub_positive; auto using Prim2SF_valid.
Qed.

(** A comparison with [NaN] is false. *)
Lemma ltb_nan (x y : float) :
  is_nan x = true \/ is_nan y = true -> (x <? y)%float = false.
Proof.
  intros H. destruct (x <? y)%float eqn:E; [|reflexivity].
  destruct (ltb_numbers x y E) as [Nx Ny]. destruct H; congruence.
Qed.

Lemma leb_nan (x y : float) :
  is_nan x = true \/ is_nan y = true -> (x <=? y)%float = false.
Proof.
  intros H. destruct (x <=? y)%float eqn:E; [|reflexivity].
  destruct (leb_numbers x y E) as [Nx Ny]. destruct H; congruence.
Qed.

Lemma mul_nan_l (y : float) : is_nan (nan * y) = true.
Proof. apply is_nan_spec. rewrite mul_spec. reflexivity. Qed.

(** ** Products with a positive finite number *)

Lemma rank_signed_true (x : spec_float) : signed true x -> SFrank x <= 0.
Proof.
  destruct x as [s|s| |s m e]; cbn [signed SFrank scaled]; intros H;
    try contradiction; subst s.
  - lia.
  - assert (0 < 2 ^ 2099) by (apply Z.pow_pos_nonneg; lia). lia.
  - cbn [cond_Zopp].
    assert (0 <= 2 ^ (e + 1074)) by (apply Z.pow_nonneg; lia). nia.
Qed.

Lemma SFmul_not_positive (m : positive) (e : Z) (y : spec_float) :
  valid_binary y = true -> notNaN y -> SFrank y <= 0 ->
  notNaN (SFmul prec emax (S754_finite false m e) y) /\
  SFrank (SFmul prec emax (S754_finite false m e) y) <= 0.
Proof.
  assert (P : 0 < 2 ^ 2099) by (apply Z.pow_pos_nonneg; lia).
  destruct y as [s|s| |s my ey]; cbn [notNaN]; intros V N R;
    try contradiction.
  - cbn [SFmul SFrank scaled]. split; [exact I|lia].
  - destruct s; cbn [SFrank] in R; [|lia].
    cbn [SFmul xorb SFrank]. split; [exact I|lia].
  - unfold valid_binary in V. cbn [SpecFloat.valid_binary] in V.
    destruct (bounded_spec my ey V) as (Re & _).
    pose proof (scaled_positive my ey ltac:(lia)) as Q.
    destruct s; cbn [SFrank scaled cond_Zopp] in R; [|lia].
    cbn [SFmul xorb].
    pose proof (binary_round_aux_signed true (Zpos (m * my)) (e + ey)
                  loc_Exact ltac:(lia)) as S.
    split; [|apply rank_signed_true; exact S].
    destruct (binary_round_aux prec emax true (Zpos (m * my)) (e + ey)
                loc_Exact); cbn [signed notNaN] in *; trivial.
Qed.

Lemma positive_finite (l : float) :
  (0 <? l)%float = true -> (l <? infinity)%float = true ->
  exists m e, Prim2SF l = S754_finite false m e.
Proof.
  rewrite !ltb_spec.
  change (Prim2SF 0) with (S754_zero false).
  change (Prim2SF infinity) with (S754_infinity false).
  unfold SFltb.
  destruct (Prim2SF l) as [s|s| |s m e]; cbn [SFcompare];
    try discriminate.
  - destruct s; discriminate.
  - destruct s; [discriminate|]. intros _ _. eauto.
Qed.

(** The product of a positive finite number and a number that is not
    positive is a number that is not positive. *)
Lemma mul_not_positive (l k : float) :
  (0 <? l)%float = true -> (l <? infinity)%float = true ->
  (k <=? 0)%float = true ->
  is_nan (l * k) = false /\ rank (l * k) <= 0.
Proof.
  intros Hl Hf Hk. destruct (positive_finite l Hl Hf) as (m & e & El).
  destruct (leb_numbers k 0 Hk) as [Nk _].
  rewrite (leb_rank k 0 Nk eq_refl) in Hk. apply Z.leb_le in Hk.
  change (rank 0) with 0 in Hk.
  destruct (SFmul_not_positive m e (Prim2SF k) (Prim2SF_valid k)
              (proj1 (is_number k) Nk) Hk) as [N R].
  split.
  - apply is_number. rewrite mul_spec, El. exact N.
  - unfold rank. rewrite mul_spec, El. exact R.
Qed.

(** ** [Math.min] and [Math.max] *)

Lemma min_rank (x y : float) :
  is_nan (Double.min x y) = false ->
  is_nan x = false /\ is_nan y = false /\
  rank (Double.min x y) = Z.min (rank x) (rank y).
Proof.
  unfold Double.min.
  destruct (is_nan x) eqn:Nx; [intros H; vm_compute in H; discriminate|].
  destruct (is_nan y) eqn:Ny; [intros H; vm_compute in H; discriminate|].
  cbn [orb]. intros _. split; [reflexivity|]. split; [reflexivity|].
  rewrite (ltb_rank x y Nx Ny), (ltb_rank y x Ny Nx).
  destruct (rank x <? rank y) eqn:E1;
    [apply Z.ltb_lt in E1; lia|apply Z.ltb_ge in E1].
  destruct (rank y <? rank x) eqn:E2;
    [apply Z.ltb_lt in E2; lia|apply Z.ltb_ge in E2].
  destruct (get_sign x); lia.
Qed.

Lemma max_rank (x y : float) :
  is_nan (Double.max x y) = false ->
  is_nan x = false /\ is_nan y = false /\
  rank (Double.max x y) = Z.max (rank x) (rank y).
Proof.
  unfold Double.max.
  destruct (is_nan x) eqn:Nx; [intros H; vm_compute in H; discriminate|].
  destruct (is_nan y) eqn:Ny; [intros H; vm_compute in H; discriminate|].
  cbn [orb]. intros _. split; [reflexivity|]. split; [reflexivity|].
  rewrite (ltb_rank x y Nx Ny), (ltb_rank y x Ny Nx).
  destruct (rank x <? rank y) eqn:E1;
    [apply Z.ltb_lt in E1; lia|apply Z.ltb_ge in E1].
  destruct (rank y <? rank x) eqn:E2;
    [apply Z.ltb_lt in E2; lia|apply Z.ltb_ge in E2].
  destruct (get_sign x); lia.
Qed.

(** [Math.min] of a number that is not positive and a positive one. *)
Lemma min_not_positive (x y : float) :
  is_nan x = false -> rank x <= 0 -> is_nan y = false -> 0 < rank y ->
  Double.min x y = x.
Proof.
  intros Nx Rx Ny Ry. unfold Double.min. rewrite Nx, Ny. cbn [orb].
  rewrite (ltb_rank x y Nx Ny).
  replace (rank x <? rank y) with true by (symmetry; apply Z.ltb_lt; lia).
  reflexivity.
Qed.

Lemma max_not_positive (x y : float) :
  is_nan x = false -> 0 < rank x -> is_nan y = false -> rank y <= 0 ->
  Double.max x y = x.
Proof.
  intros Nx Rx Ny Ry. unfold Double.max. rewrite Nx, Ny. cbn [orb].
  rewrite (ltb_rank x y Nx Ny), (ltb_rank y x Ny Nx).
  replace (rank x <? rank y) with false by (symmetry; apply Z.ltb_ge; lia).
  replace (rank y <? rank x) with true by (symmetry; apply Z.ltb_lt; lia).
  reflexivity.
Qed.

(** ** Sorting by [(a, b) => key(b) - key(a)] *)

(** On numbers the comparator keeps [x] ahead of [y] exactly when the key
    of [y] is at most that of [x]. *)
Lemma keepsOrder_difference {A : Type} (key : A -> float) (x y : A) :
  is_nan (key x) = false -> is_nan (key y) = false ->
  JS.keepsOrder (fun a b => Double.sign (key b - key a)) x y
  = (key y <=? key x)%float.
Proof.
  intros Nx Ny. unfold JS.keepsOrder, Double.sign.
  pose proof (sub_positive (key x) (key y) Nx Ny) as S.
  rewrite (ltb_rank _ _ Nx Ny) in S. rewrite (leb_rank _ _ Ny Nx).
  destruct (is_nan (key y - key x)) eqn:Ed.
  - rewrite (ltb_nan 0 (key y - key x)) in S by (right; exact Ed).
    symmetry in S. apply Z.ltb_ge in S. symmetry. apply Z.leb_le. exact S.
  - destruct (0 <? key y - key x)%float.
    + symmetry in S. apply Z.ltb_lt in S.
      transitivity false; [reflexivity|]. symmetry. apply Z.leb_gt. exact S.
    + symmetry in S. apply Z.ltb_ge in S.
      transitivity true;
        [destruct (key y - key x <? 0)%float; reflexivity|].
      symmetry. apply Z.leb_le. exact S.
Qed.

End DoubleFacts.

(** * Properties of the profit estimator *)

Module EstimatorProofs.
Import JS Estimator.

Lemma Qle_bool_false (x y : Q) : Qle_bool x y = false <-> y < x.
Proof.
  split; intros H.
  - apply Qnot_le_lt. intros Hle. apply Qle_bool_iff in Hle. congruence.
  - destruct (Qle_bool x y) eqn:E; [|reflexivity].
    apply Qle_bool_iff in E. exfalso. apply (Qlt_not_le _ _ H E).
Qed.

Lemma Qlt_bool_iff (x y : Q) : Qlt_bool x y = true <-> x < y.
Proof.
  unfold Qlt_bool. rewrite negb_true_iff. apply Qle_bool_false.
Qed.

Lemma Qeq_bool_false_pos (v : Q) : 0 < v -> Qeq_bool v 0 = false.
Proof.
  intros H. destruct (Qeq_bool v 0) eqn:E; [|reflexivity].
  apply Qeq_bool_iff in E. rewrite E in H. exfalso. apply (Qlt_irrefl 0 H).
Qed.

Lemma Qeq_bool_false_neq (v : Q) : ~ v == 0 -> Qeq_bool v 0 = false.
Proof.
  intros H. destruct (Qeq_bool v 0) eqn:E; [|reflexivity].
  apply Qeq_bool_iff in E. contradiction.
Qed.

(** What a validated opportunity looks like. *)
Lemma validated_fields (o : Opportunity) :
  validateOpportunity o = true ->
  exists p v g,
    priceDelta o = Some p /\ volume o = Some v /\ gasPrice o = Some g /\
    0 < p /\ 0 < v /\ 0 < g.
Proof.
  unfold validateOpportunity. intros H.
  destruct (priceDelta o) as [p|]; [|discriminate].
  destruct (volume o) as [v|]; [|discriminate].
  destruct (gasPrice o) as [g|]; [|simpl in H; discriminate].
  exists p, v, g. repeat split; try reflexivity.
  all: simpl in H.
  all: destruct (present (flashLoanProvider o) && present (dexA o)
                 && present (dexB o)); simpl in H; [|discriminate].
  all: unfold le, cmp in H.
  all: destruct (Qle_bool p 0) eqn:Ep; [discriminate|].
  all: destruct (Qle_bool v 0) eqn:Ev; [discriminate|].
  all: destruct (Qle_bool g 0) eqn:Eg; [discriminate|].
  all: apply Qle_bool_false; assumption.
Qed.

(** The result of [estimateProfit], by cases. *)
Lemma estimateProfit_cases (cfg : Config) (now : Z) (o : Opportunity) :
  (validateOpportunity o = false /\
   estimateProfit cfg now o = Invalid "Invalid opportunity data") \/
  (validateOpportunity o = true /\ calculateCosts cfg o = None /\
   estimateProfit cfg now o = CalcError "Calculation error") \/
  (validateOpportunity o = true /\
   exists costs e,
     calculateCosts cfg o = Some costs /\
     estimateProfit cfg now o = Estimated e /\
     est_baseProfit e = calculateBaseProfit o /\
     est_totalCosts e = total costs /\
     est_slippageImpact e = calculateSlippageImpact cfg o /\
     est_netProfit e =
       sub (sub (est_baseProfit e) (est_totalCosts e)) (est_slippageImpact e) /\
     est_profitPercent e = div (est_netProfit e) (toNumber (volume o)) /\
     est_profitable e =
       ge (est_profitPercent e) (Num (minProfitThreshold cfg)) /\
     est_confidence e = calculateConfidence cfg o /\
     timestamp (est_metadata e) = now).
Proof.
  unfold estimateProfit.
  destruct (validateOpportunity o); simpl.
  - destruct (calculateCosts cfg o) as [costs|].
    + right. right. split; [reflexivity|].
      eexists costs, _. split; [reflexivity|]. split; [reflexivity|].
      simpl. repeat split; reflexivity.
    + right. left. repeat split; reflexivity.
  - left. split; reflexivity.
Qed.

(** ** Admission threshold *)

Lemma ge_Num (m t : Q) : ge (Num m) (Num t) = true <-> t <= m.
Proof. unfold ge, le, cmp. apply Qle_bool_iff. Qed.

Ltac qdecide :=
  first [ reflexivity
        | apply Qle_bool_iff; reflexivity
        | apply Qlt_bool_iff; reflexivity ].

(** The zero-fee provider is turned away by the same guard, whatever the
    margin: [!this.flashLoanFees['compound']] is [!0]. *)
Example compound_is_rejected_as_unknown :
  ownProperty flashLoanFees "compound" = Some 0 /\
  estimateProfit defaultConfig 0 compoundLoan
    = Invalid "Invalid opportunity data".
Proof. split; reflexivity. Qed.

(** ** Determinism *)

(** C2 (as amended).  With the same configuration and the same opportunity,
    two calls return results that agree in every field except
    [metadata.timestamp], which holds the time of the call; the verdict and
    the reason are the same. *)
Theorem estimateProfit_deterministic_up_to_timestamp
    (cfg : Config) (now1 now2 : Z) (o : Opportunity) :
  withoutTimestamp (estimateProfit cfg now1 o)
    = withoutTimestamp (estimateProfit cfg now2 o) /\
  profitable (estimateProfit cfg now1 o)
    = profitable (estimateProfit cfg now2 o) /\
  reason (estimateProfit cfg now1 o) = reason (estimateProfit cfg now2 o).
Proof.
  unfold estimateProfit.
  destruct (validateOpportunity o); simpl; [|repeat split].
  destruct (calculateCosts cfg o); simpl; repeat split.
Qed.

(** C2 (as stated) fails: the same opportunity estimated at two instants
    gives two different results. *)
Lemma same_opportunity_two_instants_two_results :
  estimateProfit defaultConfig 0 testOpportunity
    <> estimateProfit defaultConfig 1 testOpportunity.
Proof.
  intros H.
  apply (f_equal (fun r => match r with
                           | Estimated e => timestamp (est_metadata e)
                           | _ => 0%Z
                           end)) in H.
  vm_compute in H. discriminate.
Qed.

(** ** Slippage *)



(** An absent or zero depth is replaced by one million before the formula
    is applied. *)
Lemma slippage_default_depth (cfg : Config) (o : Opportunity) (v : Q) :
  volume o = Some v ->
  liquidityA o = None -> liquidityB o = Some 0 ->
  calculateSlippageImpact cfg o
    = Num (Qmin (v / 1000000 * 0.5 + v / 1000000 * 0.5) (maxSlippage cfg) * v).
Proof.
  intros Hv HA HB. unfold calculateSlippageImpact. rewrite Hv, HA, HB.
  reflexivity.
Qed.

(** ** Rejections *)

(** Everything [validateOpportunity] has checked when it answers [true]. *)
Lemma validated_names (o : Opportunity) :
  validateOpportunity o = true ->
  exists provider a b,
    flashLoanProvider o = Some provider /\ dexA o = Some a /\
    dexB o = Some b /\
    truthy (getProperty flashLoanFees provider) = true /\
    truthy (getProperty dexFees a) = true /\
    truthy (getProperty dexFees b) = true.
Proof.
  unfold validateOpportunity. intros H.
  destruct (priceDelta o) as [p|]; [|discriminate].
  destruct (volume o) as [v|]; [|discriminate].
  destruct (gasPrice o) as [g|]; [|simpl in H; discriminate].
  destruct (flashLoanProvider o) as [provider|]; [|simpl in H; discriminate].
  destruct (dexA o) as [a|]; [|simpl in H; discriminate].
  destruct (dexB o) as [b|]; [|simpl in H; discriminate].
  exists provider, a, b. cbn [present andb negb keyOf] in H.
  destruct (le (toNumber (Some p)) (Num 0) || le (toNumber (Some v)) (Num 0)
            || le (toNumber (Some g)) (Num 0)); [discriminate|].
  destruct (truthy (getProperty flashLoanFees provider)); [|discriminate].
  destruct (truthy (getProperty dexFees a)); [|discriminate].
  destruct (truthy (getProperty dexFees b)); [|discriminate].
  repeat split; reflexivity.
Qed.

(** The part of C10 that the code keeps.  [estimateProfit] is a total
    function; an opportunity with a required field missing, with a
    non-positive number, or with a provider or venue name that is neither a
    key of the fee table nor a property of [Object.prototype], is answered
    by [profitable = false] and the reason ['Invalid opportunity data']; an
    exception of the gas price conversion is answered by [profitable = false]
    and the reason ['Calculation error']. *)
Lemma rejections_carry_a_reason (cfg : Config) (now : Z) (o : Opportunity) :
  (priceDelta o = None \/ volume o = None \/ gasPrice o = None \/
   flashLoanProvider o = None \/ dexA o = None \/ dexB o = None \/
   (exists q, priceDelta o = Some q /\ q <= 0) \/
   (exists q, volume o = Some q /\ q <= 0) \/
   (exists q, gasPrice o = Some q /\ q <= 0) \/
   getProperty flashLoanFees (keyOf (flashLoanProvider o)) = VUndefined \/
   getProperty dexFees (keyOf (dexA o)) = VUndefined \/
   getProperty dexFees (keyOf (dexB o)) = VUndefined ->
   estimateProfit cfg now o = Invalid "Invalid opportunity data")
  /\
  (validateOpportunity o = true -> calculateCosts cfg o = None ->
   estimateProfit cfg now o = CalcError "Calculation error")
  /\
  (reason (estimateProfit cfg now o) = None ->
   validateOpportunity o = true).
Proof.
  split; [|split].
  - intros H.
    destruct (estimateProfit_cases cfg now o)
      as [[_ Hr] | [[Hv _] | [Hv _]]]; [exact Hr | exfalso | exfalso].
    all: destruct (validated_fields o Hv)
           as [p [v [g [Hp [Hvol [Hg [Pp [Pv Pg]]]]]]]].
    all: destruct (validated_names o Hv)
           as [fp [a [b [Hfp [Ha [Hb [Tf [Ta Tb]]]]]]]].
    all: rewrite Hfp, Ha, Hb in H; cbn [keyOf] in H.
    all: destruct H as [H|[H|[H|[H|[H|[H|[[q [Hq Hle]]|[[q [Hq Hle]]|
                        [[q [Hq Hle]]|[H|[H|H]]]]]]]]]]];
           try congruence.
    all: try (first [ rewrite H in Tf | rewrite H in Ta | rewrite H in Tb ];
              discriminate).
    all: first [ rewrite Hp in Hq | rewrite Hvol in Hq | rewrite Hg in Hq ];
           injection Hq as ->;
           first [ exact (Qlt_not_le _ _ Pp Hle)
                 | exact (Qlt_not_le _ _ Pv Hle)
                 | exact (Qlt_not_le _ _ Pg Hle) ].
  - intros Hv Hc. unfold estimateProfit. rewrite Hv, Hc. reflexivity.
  - intros H.
    destruct (estimateProfit_cases cfg now o)
      as [[_ Hr] | [[_ [_ Hr]] | [Hv _]]];
      [rewrite Hr in H; discriminate | rewrite Hr in H; discriminate | exact Hv].
Qed.

(** A gas price with more than nine decimals makes [parseUnits] throw; the
    [catch] reports it. *)
Example ten_decimals_is_a_calculation_error :
  estimateProfit defaultConfig 0 tenDecimals = CalcError "Calculation error".
Proof. reflexivity. Qed.

(** C10, at the input where the code departs from it.  ["toString"] is not a
    venue of the fee table, yet [this.dexFees["toString"]] is the function
    inherited from [Object.prototype], which is truthy: the opportunity
    passes [validateOpportunity], the venue fee and with it every cost total
    is [NaN], and the object returned has [profitable = false] but no
    [reason]. *)
Theorem inherited_venue_name_is_not_rejected :
  ownProperty dexFees "toString" = None /\
  getProperty dexFees "toString" = VObject /\
  validateOpportunity inheritedVenue = true /\
  exists e,
    estimateProfit defaultConfig 0 inheritedVenue = Estimated e /\
    est_profitable e = false /\
    dexFeeA (est_costs e) = NaN /\
    est_totalCosts e = NaN /\
    est_profitPercent e = NaN /\
    reason (estimateProfit defaultConfig 0 inheritedVenue) = None.
Proof.
  split; [reflexivity|]. split; [reflexivity|]. split; [reflexivity|].
  eexists. split; [reflexivity|]. repeat split; reflexivity.
Qed.

End EstimatorProofs.

(** * The profit estimator in double arithmetic *)

Module Estimator64Proofs.
Import PrimFloat FloatOps SpecFloat FloatAxioms.
Import Double Estimator64.

(** ** The result of [estimateProfit], by cases *)

Lemma estimateProfit_by_cases (cfg : Config) (now : Z) (o : Opportunity) :
  (validateOpportunity o = false /\
   estimateProfit cfg now o = Invalid "Invalid opportunity data") \/
  (validateOpportunity o = true /\ calculateCosts cfg o = None /\
   estimateProfit cfg now o = CalcError "Calculation error") \/
  (validateOpportunity o = true /\
   exists costs e,
     calculateCosts cfg o = Some costs /\
     estimateProfit cfg now o = Estimated e /\
     est_baseProfit e = calculateBaseProfit o /\
     est_totalCosts e = total costs /\
     est_slippageImpact e = calculateSlippageImpact cfg o /\
     est_netProfit e
       = (est_baseProfit e - est_totalCosts e - est_slippageImpact e)%float /\
     est_profitPercent e = (est_netProfit e / toNumber (volume o))%float /\
     est_profitable e
       = (minProfitThreshold cfg <=? est_profitPercent e)%float /\
     est_confidence e = calculateConfidence cfg o /\
     Estimator.timestamp (est_metadata e) = now).
Proof.
  unfold estimateProfit.
  destruct (validateOpportunity o); simpl.
  - destruct (calculateCosts cfg o) as [costs|].
    + right. right. split; [reflexivity|].
      eexists costs, _. split; [reflexivity|]. split; [reflexivity|].
      simpl. repeat split; reflexivity.
    + right. left. repeat split; reflexivity.
  - left. split; reflexivity.
Qed.

(** The verdict in one expression. *)
Lemma profitable_as_a_test (cfg : Config) (now : Z) (o : Opportunity) :
  profitable (estimateProfit cfg now o) =
  validateOpportunity o &&
  match netMargin cfg o with
  | Some m => (minProfitThreshold cfg <=? m)%float
  | None => false
  end.
Proof.
  unfold netMargin.
  destruct (estimateProfit_by_cases cfg now o)
    as [[Hv Hr] | [[Hv [Hc Hr]] | [Hv [costs [e [Hc [Hr H]]]]]]];
    rewrite Hr, Hv; simpl.
  - reflexivity.
  - rewrite Hc. reflexivity.
  - rewrite Hc.
    destruct H as [Hb [Ht [Hs [Hn [Hp [Hprof _]]]]]].
    rewrite Hprof, Hp, Hn, Hb, Ht, Hs. reflexivity.
Qed.

(** ** Admission threshold *)



(** At 24.99 bps in exact arithmetic the estimator computes
    0.002499000000000001 and rejects. *)
Example margin_2499bps_is_rejected :
  netMargin defaultConfig (double Estimator.at2499bps)
    = Some 0.002499000000000001%float /\
  profitable (estimateProfit defaultConfig 0 (double Estimator.at2499bps))
    = false.
Proof. split; vm_compute; reflexivity. Qed.


(** ** Confidence *)




(** Rounding decides on the boundary of a test.  In exact arithmetic
    0.29 / 58 is 0.005, which is not below 0.005, and 0.07 * 10 is 0.7,
    which the depth 0.7 is not below; the code computes
    0.004999999999999999 and 0.7000000000000001 and applies both
    penalties. *)
Example rounding_decides_on_the_boundary :
  smallDelta (onTheBoundary 0.29 58 1000000) = true /\
  calculateConfidence defaultConfig (onTheBoundary 0.29 58 1000000)
    = 0.7%float /\
  thinLiquidity (onTheBoundary 1 0.07 0.7) = true /\
  calculateConfidence defaultConfig (onTheBoundary 1 0.07 0.7) = 0.6%float.
Proof. repeat split; vm_compute; reflexivity. Qed.

(** X1.  [calculateConfidence] always returns a number between
    0.33599999999999997, the product of its three penalties 0.8, 0.6 and
    0.7 in double arithmetic, and 1; the floor of 0.1 applied at its end
    never changes the result, and the result is 1 exactly when none of the
    three tests holds. *)
Theorem confidence_lies_between_the_three_penalties_and_one
    (cfg : Config) (o : Opportunity) :
  let c := calculateConfidence cfg o in
  (0.33599999999999997 <=? c)%float = true /\
  (c <=? 1)%float = true /\
  max c 0.1 = c /\
  (c = 1%float <->
   highGas cfg o = false /\ thinLiquidity o = false /\ smallDelta o = false).
Proof.
  cbv zeta. unfold calculateConfidence.
  destruct (highGas cfg o), (thinLiquidity o), (smallDelta o);
    (split; [reflexivity|]); (split; [reflexivity|]);
    (split; [reflexivity|]).
  all: split; [|intros (H1 & H2 & H3); try discriminate; reflexivity].
  all: intros H; try (repeat split; reflexivity).
  all: exfalso; revert H; vm_compute; intros H.
  all: apply (f_equal Prim2SF) in H; vm_compute in H; discriminate H.
Qed.

End Estimator64Proofs.

(** * Properties of the scanners and of the execution queue *)

Module EngineProofs.
Import JS Engine.

(** ** [Array.prototype.sort] *)

Section SortFacts.
Context {A : Type}.
Variable compareFn : A -> A -> number.

Lemma insertSorted_perm (x : A) (l : list A) :
  Permutation (insertSorted compareFn x l) (x :: l).
Proof.
  induction l as [|y rest IH]; simpl.
  - apply Permutation_refl.
  - destruct (keepsOrder compareFn x y).
    + apply Permutation_refl.
    + apply perm_trans with (y :: x :: rest).
      * apply perm_skip. exact IH.
      * apply perm_swap.
Qed.

Lemma sort_perm (l : list A) : Permutation (sort compareFn l) l.
Proof.
  induction l as [|x rest IH]; simpl.
  - apply perm_nil.
  - apply perm_trans with (x :: sort compareFn rest).
    + apply insertSorted_perm.
    + apply perm_skip. exact IH.
Qed.

Lemma sort_length (l : list A) : length (sort compareFn l) = length l.
Proof. apply Permutation_length. apply sort_perm. Qed.

End SortFacts.

(** Sorting by a numeric key, largest first. *)
Section SortByKey.
Context {A : Type}.
Variable key : A -> number.

Local Abbreviation descending := (descending key).
Local Abbreviation notBelow := (notBelow key).
Local Abbreviation numeric := (numeric key).

Lemma keepsOrder_descending (x y : A) :
  numeric x -> numeric y ->
  (keepsOrder descending x y = true -> notBelow x y) /\
  (keepsOrder descending x y = false -> notBelow y x).
Proof.
  intros [qx Hx] [qy Hy]. unfold keepsOrder, JS.descending, JS.notBelow.
  rewrite Hx, Hy. cbn [sub lift2 ge le cmp]. split; intros H.
  - apply Qle_bool_iff. apply Qle_bool_iff in H. lra.
  - apply Qle_bool_iff. apply EstimatorProofs.Qle_bool_false in H. lra.
Qed.

Lemma notBelow_trans (x y z : A) :
  numeric x -> numeric y -> numeric z ->
  notBelow x y -> notBelow y z -> notBelow x z.
Proof.
  intros [qx Hx] [qy Hy] [qz Hz]. unfold JS.notBelow. rewrite Hx, Hy, Hz.
  cbn [ge le cmp]. intros H1 H2.
  apply Qle_bool_iff. apply Qle_bool_iff in H1. apply Qle_bool_iff in H2. lra.
Qed.

Lemma insertSorted_sorted (x : A) (l : list A) :
  numeric x -> Forall numeric l ->
  StronglySorted notBelow l ->
  StronglySorted notBelow (insertSorted descending x l).
Proof.
  intros Hx Hl Hs. induction Hs as [|y rest Hs IH Hy]; simpl.
  - constructor; constructor.
  - inversion Hl as [|? ? Hny Hnrest]; subst.
    destruct (keepsOrder descending x y) eqn:E.
    + apply (proj1 (keepsOrder_descending x y Hx Hny)) in E.
      constructor; [constructor; assumption|].
      constructor; [exact E|].
      rewrite Forall_forall in Hy, Hnrest |- *. intros z Hz.
      apply (notBelow_trans x y z); auto.
    + apply (proj2 (keepsOrder_descending x y Hx Hny)) in E.
      constructor; [apply IH; assumption|].
      apply (Permutation_Forall
               (Permutation_sym (insertSorted_perm descending x rest))).
      constructor; assumption.
Qed.

Lemma sort_sorted (l : list A) :
  Forall numeric l -> StronglySorted notBelow (sort descending l).
Proof.
  induction l as [|x rest IH]; intros H; simpl.
  - constructor.
  - inversion H as [|? ? Hx Hrest]; subst.
    apply insertSorted_sorted; [exact Hx| |apply IH; exact Hrest].
    apply (Permutation_Forall (Permutation_sym (sort_perm descending rest))).
    exact Hrest.
Qed.

End SortByKey.

(** ** The tick of [SameChainArbitrage] *)

Lemma analyzePair_numeric (cfg : Estimator.Config) (now : Z)
    (o : Estimator.Opportunity) (d : Detected) :
  analyzePair cfg now o = Some d -> numeric estimatedProfit d.
Proof.
  unfold analyzePair. intros H.
  destruct (EstimatorProofs.estimateProfit_cases cfg now o)
    as [[_ Hr] | [[_ [_ Hr]] | [_ [costs [e [_ [Hr He]]]]]]];
    rewrite Hr in H; try discriminate.
  destruct He as [_ [_ [_ [_ [Hp [Hprof _]]]]]].
  cbn iota beta in H.
  destruct (Estimator.est_profitable e); [|discriminate].
  injection H as Hd. subst d. cbn [estimatedProfit]. unfold numeric.
  rewrite Hp in Hprof.
  destruct (Estimator.est_netProfit e) as [q|]; [exists q; reflexivity|].
  discriminate.
Qed.

Lemma detected_numeric (cfg : Estimator.Config) (now : Z)
    (candidates : list Estimator.Opportunity) :
  Forall (numeric estimatedProfit) (omap (analyzePair cfg now) candidates).
Proof.
  induction candidates as [|o rest IH]; simpl.
  - constructor.
  - destruct (analyzePair cfg now o) as [d|] eqn:E; [|exact IH].
    constructor; [|exact IH]. apply (analyzePair_numeric cfg now o). exact E.
Qed.

Lemma executeOpportunities_length (l : list Detected) :
  (length (executeOpportunities l) <= length l)%nat.
Proof.
  unfold executeOpportunities. induction l as [|d rest IH]; simpl.
  - lia.
  - destruct (negb _); simpl; lia.
Qed.

(** ** Sorting by a comparator that follows an order *)

Section SortBy.
Context {A : Type}.
Variable compareFn : A -> A -> number.
Variable ordered : A -> A -> Prop.
Variable sound : A -> Prop.

Hypothesis ordered_trans :
  forall x y z, sound x -> sound y -> sound z ->
                ordered x y -> ordered y z -> ordered x z.
Hypothesis keeps :
  forall x y, sound x -> sound y ->
              keepsOrder compareFn x y = true -> ordered x y.
Hypothesis swaps :
  forall x y, sound x -> sound y ->
              keepsOrder compareFn x y = false -> ordered y x.

Lemma insertSorted_sorted_by (x : A) (l : list A) :
  sound x -> Forall sound l ->
  StronglySorted ordered l ->
  StronglySorted ordered (insertSorted compareFn x l).
Proof.
  intros Hx Hl Hs. induction Hs as [|y rest Hs IH Hy]; simpl.
  - constructor; constructor.
  - inversion Hl as [|? ? Hny Hnrest]; subst.
    destruct (keepsOrder compareFn x y) eqn:E.
    + apply (keeps x y Hx Hny) in E.
      constructor; [constructor; assumption|].
      constructor; [exact E|].
      rewrite Forall_forall in Hy, Hnrest |- *. intros z Hz.
      apply (ordered_trans x y z); auto.
    + apply (swaps x y Hx Hny) in E.
      constructor; [apply IH; assumption|].
      apply (Permutation_Forall
               (Permutation_sym (insertSorted_perm compareFn x rest))).
      constructor; assumption.
Qed.

Lemma sort_sorted_by (l : list A) :
  Forall sound l -> StronglySorted ordered (sort compareFn l).
Proof.
  induction l as [|x rest IH]; intros H; simpl.
  - constructor.
  - inversion H as [|? ? Hx Hrest]; subst.
    apply insertSorted_sorted_by; [exact Hx| |apply IH; exact Hrest].
    apply (Permutation_Forall (Permutation_sym (sort_perm compareFn rest))).
    exact Hrest.
Qed.

End SortBy.

Lemma insertSorted_ext {A : Type} (f g : A -> A -> number) (x : A)
    (l : list A) :
  (forall y, In y l -> f x y = g x y) ->
  insertSorted f x l = insertSorted g x l.
Proof.
  induction l as [|y rest IH]; intros H; simpl; [reflexivity|].
  unfold keepsOrder. rewrite (H y (or_introl eq_refl)).
  rewrite IH by (intros z Hz; apply H; right; exact Hz). reflexivity.
Qed.

(** The result of a sort depends on the comparator only through its values
    on the elements of the list. *)
Lemma sort_ext {A : Type} (f g : A -> A -> number) (l : list A) :
  (forall x y, In x l -> In y l -> f x y = g x y) ->
  sort f l = sort g l.
Proof.
  induction l as [|x rest IH]; intros H; simpl; [reflexivity|].
  rewrite IH by (intros a b Ha Hb; apply H; right; assumption).
  apply insertSorted_ext. intros y Hy. apply H; [left; reflexivity|].
  right. apply (Permutation_in _ (sort_perm g rest)). exact Hy.
Qed.

(** ** The tick of [ArbitrageEngine] *)

(** The opportunities that [rankOpportunities] orders: those whose score is
    a number; and the order. *)
Definition scored (ln : float -> float) (o : Opp) : Prop :=
  is_nan (score ln o) = false.

Definition scoreNotBelow (ln : float -> float) (a b : Opp) : Prop :=
  (score ln b <=? score ln a)%float = true.

Section Tick.
Variable ln : float -> float.
Variable validateOpportunity : Opp -> bool.

Lemma scan_appends_ranked (st : State) (id : string) (now : Z)
    (opps : list Opp) :
  isRunning st = true ->
  executionQueue
    (scanForOpportunities ln validateOpportunity st id now (Some opps))
  = executionQueue st
    ++ map (enqueue id now)
         (rankOpportunities ln (filterOpportunities validateOpportunity st opps)).
Proof.
  intros Hrun. unfold scanForOpportunities. rewrite Hrun. simpl.
  destruct opps as [|o rest]; simpl.
  - rewrite app_nil_r. reflexivity.
  - reflexivity.
Qed.

Lemma ranked_sorted (l : list Opp) :
  Forall (scored ln) l ->
  StronglySorted (scoreNotBelow ln) (rankOpportunities ln l).
Proof.
  unfold rankOpportunities.
  apply (sort_sorted_by (byScore ln) (scoreNotBelow ln) (scored ln)).
  - intros x y z Hx Hy Hz H1 H2. unfold scoreNotBelow, scored in *.
    rewrite (DoubleFacts.leb_rank _ _ Hy Hx) in H1.
    rewrite (DoubleFacts.leb_rank _ _ Hz Hy) in H2.
    rewrite (DoubleFacts.leb_rank _ _ Hz Hx).
    apply Z.leb_le in H1, H2. apply Z.leb_le. lia.
  - intros x y Hx Hy H. unfold scoreNotBelow, byScore in *.
    rewrite (DoubleFacts.keepsOrder_difference (score ln) x y Hx Hy) in H.
    exact H.
  - intros x y Hx Hy H. unfold scoreNotBelow, byScore, scored in *.
    rewrite (DoubleFacts.keepsOrder_difference (score ln) x y Hx Hy) in H.
    rewrite (DoubleFacts.leb_rank _ _ Hy Hx) in H.
    rewrite (DoubleFacts.leb_rank _ _ Hx Hy).
    apply Z.leb_gt in H. apply Z.leb_le. lia.
Qed.

End Tick.

(** C4 (as amended).  On a tick of [ArbitrageEngine] the valid opportunities
    are put in descending order of the score
    [profitability * confidence * Math.log(liquidity) / 1000], as the code
    computes it in doubles, and every one of them is pushed onto the
    execution queue, behind the entries already there.  The order by
    estimated net profit and the cut to the first three belong to the tick
    of [SameChainArbitrage], which hands those three to
    [executeOpportunities] directly. *)
Theorem tick_ranks_by_score_and_queues_all
    (ln : float -> float) (validateOpportunity : Opp -> bool)
    (st : State) (id : string) (now : Z) (opps : list Opp)
    (cfg : Estimator.Config) (candidates : list Estimator.Opportunity) :
  isRunning st = true ->
  let valid := filterOpportunities validateOpportunity st opps in
  let ranked := rankOpportunities ln valid in
  (executionQueue
     (scanForOpportunities ln validateOpportunity st id now (Some opps))
   = executionQueue st ++ map (enqueue id now) ranked /\
   Permutation ranked valid /\
   (Forall (scored ln) valid -> StronglySorted (scoreNotBelow ln) ranked))
  /\
  (let sorted := fst (detectOpportunities cfg now candidates) in
   let executed := snd (detectOpportunities cfg now candidates) in
   StronglySorted (notBelow estimatedProfit) sorted /\
   Permutation sorted (omap (analyzePair cfg now) candidates) /\
   executed = executeOpportunities (firstn 3 sorted) /\
   (length executed <= 3)%nat).
Proof.
  intros Hrun valid ranked. split; [split; [|split]|].
  - apply scan_appends_ranked. exact Hrun.
  - apply sort_perm.
  - intros Hnum. apply ranked_sorted. exact Hnum.
  - cbn [detectOpportunities fst snd]. split; [|split; [|split]].
    + apply (sort_sorted estimatedProfit). apply detected_numeric.
    + apply sort_perm.
    + reflexivity.
    + eapply Nat.le_trans; [apply executeOpportunities_length|].
      apply firstn_le_length.
Qed.

(** The four opportunities pass the three thresholds and the validation of
    the engine. *)
Lemma four_valid :
  filterOpportunities EngineMore.validated started fourOpportunities
  = map sized fourOpportunities.
Proof. vm_compute. reflexivity. Qed.

Lemma three_valid :
  filterOpportunities EngineMore.validated started threeOpportunities
  = map sized threeOpportunities.
Proof. vm_compute. reflexivity. Qed.

Lemma tick_ranks_by_score_and_queues_all_witness :
  queuedTokens
    (scanForOpportunities logOfMillion EngineMore.validated started "SCAN" 0
       (Some fourOpportunities))
  = map token
      (rankOpportunities logOfMillion
         (filterOpportunities EngineMore.validated started fourOpportunities))
  /\ length (filterOpportunities EngineMore.validated started fourOpportunities)
     = 4%nat.
Proof.
  split; [|vm_compute; reflexivity].
  unfold queuedTokens.
  rewrite (proj1 (proj1 (tick_ranks_by_score_and_queues_all
                           logOfMillion EngineMore.validated started "SCAN" 0
                           fourOpportunities Estimator.defaultConfig []
                           eq_refl))).
  cbn [started executionQueue app]. rewrite map_map. reflexivity.
Defined.

(** The ranking reads [Math.log] at the liquidities only. *)
Lemma rank_at_million (ln : float -> float) (l : list Opp) :
  ln 1000000%float = 13.815510557964274%float ->
  Forall (fun o => liquidity o = Double.Number 1000000) l ->
  rankOpportunities ln l = rankOpportunities logOfMillion l.
Proof.
  intros Hln Hl. unfold rankOpportunities. apply sort_ext.
  rewrite List.Forall_forall in Hl. intros x y Hx Hy.
  unfold byScore, score, logOfMillion.
  rewrite (Hl x Hx), (Hl y Hy). cbn [Double.toNumber]. rewrite Hln.
  reflexivity.
Qed.

(** C4 (as stated) fails on [ArbitrageEngine]: a tick that finds four valid
    opportunities pushes all four onto the queue, not the best three, and it
    puts B, whose expected profit is 1500, ahead of A, whose expected profit
    is 2000, because B has the higher score.  The four opportunities come
    in with an [amount] of 1000 and pass [validateOpportunity] with a
    provider found and a gas estimate of 0.01; [Math.log(1000000)] is
    13.815510557964274. *)
Lemma tick_queues_four_with_lower_profit_first :
  Forall (fun o => EngineMore.validated o = true) fourOpportunities /\
  (forall ln,
     length (executionQueue
               (scanForOpportunities ln EngineMore.validated started "SCAN" 0
                  (Some fourOpportunities))) = 4%nat) /\
  (forall ln,
     ln 1000000%float = 13.815510557964274%float ->
     queuedTokens
       (scanForOpportunities ln EngineMore.validated started "SCAN" 0
          (Some fourOpportunities))
     = ["B"; "A"; "C"; "D"]%string) /\
  expectedProfit (sized oppB) = Double.Number 1500 /\
  expectedProfit (sized oppA) = Double.Number 2000.
Proof.
  split; [|split; [|split; [|split]]].
  - repeat constructor.
  - intros ln. rewrite scan_appends_ranked by reflexivity.
    cbn [started executionQueue app]. rewrite length_map.
    unfold rankOpportunities. rewrite sort_length. rewrite four_valid.
    reflexivity.
  - intros ln Hln. unfold queuedTokens.
    rewrite scan_appends_ranked by reflexivity.
    rewrite four_valid.
    rewrite (rank_at_million ln _ Hln) by (repeat constructor).
    vm_compute. reflexivity.
  - vm_compute. reflexivity.
  - vm_compute. reflexivity.
Qed.

(** ** The execution queue *)

(** C5 (as amended).  The execution queue has no capacity: a tick of a
    running engine appends one entry for every valid opportunity, in rank
    order, behind the entries already queued; nothing is dropped, and the
    worker still takes the oldest entry first. *)
Theorem queue_keeps_every_opportunity
    (ln : float -> float) (validateOpportunity : Opp -> bool)
    (st : State) (id : string) (now : Z) (opps : list Opp) :
  isRunning st = true ->
  let st' :=
    scanForOpportunities ln validateOpportunity st id now (Some opps) in
  length (executionQueue st')
  = (length (executionQueue st)
     + length (List.filter (keepOpportunity validateOpportunity st) opps))%nat
  /\
  (exists added,
     executionQueue st' = executionQueue st ++ added /\
     Permutation (map queuedOpp added)
                 (filterOpportunities validateOpportunity st opps))
  /\
  (forall first rest,
     executionQueue st = first :: rest ->
     fst (shift st') = Some first /\
     executionQueue (snd (shift st'))
     = rest ++ map (enqueue id now)
                 (rankOpportunities ln
                    (filterOpportunities validateOpportunity st opps))).
Proof.
  intros Hrun st'. subst st'.
  rewrite (scan_appends_ranked ln validateOpportunity st id now opps Hrun).
  split; [|split].
  - rewrite length_app, length_map. unfold rankOpportunities.
    rewrite sort_length. unfold filterOpportunities. rewrite length_map.
    reflexivity.
  - eexists. split; [reflexivity|].
    rewrite map_map. cbn [enqueue queuedOpp]. rewrite map_id.
    apply sort_perm.
  - intros first rest Hq.
    pose proof (scan_appends_ranked ln validateOpportunity st id now opps Hrun)
      as Happ.
    unfold shift. rewrite Happ, Hq. cbn [app fst snd executionQueue].
    split; reflexivity.
Qed.

Lemma queue_keeps_every_opportunity_witness :
  length (executionQueue
            (scanForOpportunities logOfMillion EngineMore.validated started
               "SCAN" 0 (Some threeOpportunities)))
  = (0 + length (List.filter (keepOpportunity EngineMore.validated started)
                             threeOpportunities))%nat
  /\ length (List.filter (keepOpportunity EngineMore.validated started)
                         threeOpportunities) = 3%nat.
Proof.
  split; [|vm_compute; reflexivity].
  exact (proj1 (queue_keeps_every_opportunity
                  logOfMillion EngineMore.validated started "SCAN" 0
                  threeOpportunities eq_refl)).
Defined.

(** C5 (as stated) fails: with a capacity of two, as in the specification's
    overflow scenario, a tick that emits three ranked opportunities leaves
    three entries in the queue, and the lowest-ranked one, C, is among
    them.  The three opportunities come in with an [amount] of 1000 and
    pass [validateOpportunity] with a provider found and a gas estimate of
    0.01; [Math.log(1000000)] is 13.815510557964274. *)
Lemma three_opportunities_exceed_capacity_two :
  Forall (fun o => EngineMore.validated o = true) threeOpportunities /\
  (forall ln,
     (2 < length (executionQueue
                    (scanForOpportunities ln EngineMore.validated started
                       "SCAN" 0 (Some threeOpportunities))))%nat) /\
  (forall ln,
     In "C"%string
        (queuedTokens
           (scanForOpportunities ln EngineMore.validated started "SCAN" 0
              (Some threeOpportunities)))) /\
  (forall ln,
     ln 1000000%float = 13.815510557964274%float ->
     queuedTokens
       (scanForOpportunities ln EngineMore.validated started "SCAN" 0
          (Some threeOpportunities))
     = ["B"; "A"; "C"]%string).
Proof.
  split; [|split; [|split]].
  - repeat constructor.
  - intros ln. rewrite scan_appends_ranked by reflexivity.
    cbn [started executionQueue app]. rewrite length_map.
    unfold rankOpportunities. rewrite sort_length. rewrite three_valid.
    vm_compute. lia.
  - intros ln. unfold queuedTokens.
    rewrite scan_appends_ranked by reflexivity.
    cbn [started executionQueue app]. rewrite map_map.
    cbn [enqueue queuedOpp]. rewrite three_valid.
    apply (Permutation_in (l := map token (map sized threeOpportunities))).
    + apply Permutation_map. apply Permutation_sym. apply sort_perm.
    + cbn. auto.
  - intros ln Hln. unfold queuedTokens.
    rewrite scan_appends_ranked by reflexivity.
    rewrite three_valid.
    rewrite (rank_at_million ln _ Hln) by (repeat constructor).
    vm_compute. reflexivity.
Qed.

End EngineProofs.

(** * Properties of the coordinator *)

Module CoordinatorProofs.
Import Coordinator.

(** ** Rules for postconditions *)

Lemma ensures_run {A : Type} (m : M A) (P : State -> Prop)
    (Q : A -> State -> Prop) (E : State -> Prop) (s : State) :
  ensures m P Q E -> P s -> outcome Q E (m s).
Proof. intros [H]. apply H. Qed.

Section Rules.
Context {A B : Type}.

Lemma ensures_ret (a : A) (P : State -> Prop) (Q : A -> State -> Prop)
    (E : State -> Prop) :
  (forall s, P s -> Q a s) -> ensures (ret a) P Q E.
Proof. intros H. constructor. intros s Hs. simpl. auto. Qed.

Lemma ensures_throw (e : Error) (P : State -> Prop) (Q : A -> State -> Prop)
    (E : State -> Prop) :
  (forall s, P s -> E s) -> ensures (@throw A e) P Q E.
Proof. intros H. constructor. intros s Hs. simpl. auto. Qed.

Lemma ensures_bind (m : M A) (k : A -> M B) (P : State -> Prop)
    (R : A -> State -> Prop) (Q : B -> State -> Prop) (E : State -> Prop) :
  ensures m P R E ->
  (forall a, ensures (k a) (R a) Q E) ->
  ensures (bind m k) P Q E.
Proof.
  intros Hm Hk. constructor. intros s Hs. unfold bind.
  pose proof (ensures_run m P R E s Hm Hs) as H.
  destruct (m s) as [[a|e] s']; simpl in H.
  - apply (ensures_run (k a) (R a) Q E s' (Hk a) H).
  - exact H.
Qed.

Lemma ensures_weaken (m : M A) (P P' : State -> Prop)
    (Q Q' : A -> State -> Prop) (E E' : State -> Prop) :
  ensures m P' Q' E' ->
  (forall s, P s -> P' s) ->
  (forall a s, Q' a s -> Q a s) ->
  (forall s, E' s -> E s) ->
  ensures m P Q E.
Proof.
  intros Hm HP HQ HE. constructor. intros s Hs.
  pose proof (ensures_run m P' Q' E' s Hm (HP s Hs)) as H.
  destruct (m s) as [[a|e] s']; simpl in *; auto.
Qed.

Lemma ensures_assume (m : M A) (fact : Prop) (P : State -> Prop)
    (Q : A -> State -> Prop) (E : State -> Prop) :
  (fact -> ensures m P Q E) ->
  ensures m (fun s => fact /\ P s) Q E.
Proof.
  intros H. constructor. intros s [Hf Hs].
  apply (ensures_run m P Q E s (H Hf) Hs).
Qed.

Lemma ensures_defined (x : option A) (P : State -> Prop)
    (Q : A -> State -> Prop) (E : State -> Prop) :
  (forall a s, x = Some a -> P s -> Q a s) ->
  (x = None -> forall s, P s -> E s) ->
  ensures (defined x) P Q E.
Proof.
  intros HQ HE. constructor. intros s Hs.
  destruct x as [a|]; simpl; [apply HQ | apply HE]; auto.
Qed.

Lemma ensures_liftRes (r : State -> Res A) (P : State -> Prop)
    (Q : A -> State -> Prop) (E : State -> Prop) :
  (forall s, P s -> match r s with Ok a => Q a s | Err _ => E s end) ->
  ensures (liftRes r) P Q E.
Proof.
  intros H. constructor. intros s Hs. unfold liftRes. specialize (H s Hs).
  destruct (r s); exact H.
Qed.

Lemma ensures_tryCatch (m : M A) (h : Error -> M A) (P : State -> Prop)
    (Q : A -> State -> Prop) (E' E : State -> Prop) :
  ensures m P Q E' ->
  (forall e, ensures (h e) E' Q E) ->
  ensures (tryCatch m h) P Q E.
Proof.
  intros Hm Hh. constructor. intros s Hs. unfold tryCatch.
  pose proof (ensures_run m P Q E' s Hm Hs) as H.
  destruct (m s) as [[a|e] s']; simpl in H.
  - exact H.
  - apply (ensures_run (h e) E' Q E s' (Hh e) H).
Qed.

Lemma ensures_finally (m : M A) (f : State -> State) (P : State -> Prop)
    (Q' Q : A -> State -> Prop) (E' E : State -> Prop) :
  ensures m P Q' E' ->
  (forall a s, Q' a s -> Q a (f s)) ->
  (forall s, E' s -> E (f s)) ->
  ensures (finally m f) P Q E.
Proof.
  intros Hm HQ HE. constructor. intros s Hs. unfold finally.
  pose proof (ensures_run m P Q' E' s Hm Hs) as H.
  destruct (m s) as [[a|e] s']; simpl in *; auto.
Qed.

End Rules.

Lemma ensures_get (P : State -> Prop) (E : State -> Prop) :
  ensures get P (fun s0 s => s0 = s /\ P s) E.
Proof. constructor. intros s Hs. simpl. auto. Qed.

Lemma ensures_modify (f : State -> State) (P : State -> Prop)
    (Q : unit -> State -> Prop) (E : State -> Prop) :
  (forall s, P s -> Q tt (f s)) -> ensures (modify f) P Q E.
Proof. intros H. constructor. intros s Hs. simpl. auto. Qed.

(** ** Rules for invariants *)

Section Keeps.
Variable I : State -> Prop.

Lemma keeps_intro {A : Type} (m : M A) :
  (forall s, I s -> I (snd (m s))) -> keeps I m.
Proof.
  intros H. constructor. intros s Hs. specialize (H s Hs).
  destruct (m s) as [[a|e] s']; exact H.
Qed.

Lemma keeps_state {A : Type} (m : M A) (s : State) :
  keeps I m -> I s -> I (snd (m s)).
Proof.
  intros Hm Hs. pose proof (ensures_run m _ _ _ s Hm Hs) as H.
  destruct (m s) as [[a|e] s']; exact H.
Qed.

Lemma keeps_ret {A : Type} (a : A) : keeps I (ret a).
Proof. apply ensures_ret. auto. Qed.

Lemma keeps_throw {A : Type} (e : Error) : keeps I (@throw A e).
Proof. apply ensures_throw. auto. Qed.

Lemma keeps_bind {A B : Type} (m : M A) (k : A -> M B) :
  keeps I m -> (forall a, keeps I (k a)) -> keeps I (bind m k).
Proof. intros Hm Hk. eapply ensures_bind; [exact Hm | exact Hk]. Qed.

Lemma keeps_get : keeps I get.
Proof. apply keeps_intro. auto. Qed.

Lemma keeps_defined {A : Type} (x : option A) : keeps I (defined x).
Proof. apply ensures_defined; auto. Qed.

Lemma keeps_liftRes {A : Type} (r : State -> Res A) : keeps I (liftRes r).
Proof. apply ensures_liftRes. intros s Hs. destruct (r s); exact Hs. Qed.

Lemma keeps_modify (f : State -> State) :
  (forall s, I s -> I (f s)) -> keeps I (modify f).
Proof. intros H. apply ensures_modify. exact H. Qed.

Lemma keeps_tryCatch {A : Type} (m : M A) (h : Error -> M A) :
  keeps I m -> (forall e, keeps I (h e)) -> keeps I (tryCatch m h).
Proof. intros Hm Hh. eapply ensures_tryCatch; [exact Hm | exact Hh]. Qed.

Lemma keeps_finally {A : Type} (m : M A) (f : State -> State) :
  keeps I m -> (forall s, I s -> I (f s)) -> keeps I (finally m f).
Proof.
  intros Hm Hf. eapply ensures_finally; [exact Hm | |]; simpl; auto.
Qed.

Lemma keeps_forEach {A : Type} (f : A -> M unit) (l : list A) :
  (forall x, keeps I (f x)) -> keeps I (forEach f l).
Proof.
  intros Hf. induction l as [|x rest IH]; simpl.
  - apply keeps_ret.
  - apply keeps_bind; [apply Hf | intros _; exact IH].
Qed.

End Keeps.

Create HintDb coordinator.
#[local] Hint Unfold getClient getHealth getMetrics getBreaker getLoadStats
  setClient setHealth setMetrics setBreaker setLoadStats messageOf discard
  : coordinator.

(** Walks through a computation built from the combinators; [special]
    gets the first try at every step, and a state update that does not
    touch what the invariant reads is closed on the spot. *)
Ltac keeps_step special :=
  first
    [ special
    | simple apply keeps_ret
    | simple apply keeps_throw
    | simple apply keeps_get
    | simple apply keeps_defined
    | simple apply keeps_liftRes
    | simple apply keeps_bind; [|intro]
    | simple apply keeps_tryCatch; [|intro]
    | simple apply keeps_finally; [|intros ? ?; try assumption]
    | simple apply keeps_forEach; intro
    | simple apply keeps_modify; intros ? ?; try assumption
    | match goal with
      | |- keeps _ (if ?c then _ else _) => destruct c
      | |- keeps _ (match ?x with _ => _ end) => destruct x
      end
    | progress autounfold with coordinator ].

Ltac keeps_walk special := cbv zeta; repeat keeps_step special.

(** ** Load-balancing weights *)

Lemma inBounds_success (w : Q) : inBounds w -> inBounds (Qmin (w * 1.1) 2.0).
Proof.
  intros [Hlo Hhi]. split.
  - apply Q.min_glb; lra.
  - apply Q.le_min_r.
Qed.

Lemma inBounds_failure (w : Q) : inBounds w -> inBounds (Qmax (w * 0.8) 0.1).
Proof.
  intros [Hlo Hhi]. split.
  - apply Q.le_max_r.
  - apply Q.max_lub; lra.
Qed.

Lemma weights_insert (name : string) (stats : LoadStats) (s : State) :
  inBounds (weight stats) -> weightsBounded s ->
  weightsBounded (withLoadStats (insert name stats) s).
Proof.
  intros Hb Hs n st. cbn [withLoadStats loadBalancingStats].
  destruct (decide (name = n)) as [->|Hne].
  - rewrite lookup_insert_eq. intros [= <-]. exact Hb.
  - rewrite lookup_insert_ne by exact Hne. apply Hs.
Qed.

Lemma weights_adjust (name : string) (f : LoadStats -> LoadStats) :
  (forall stats, inBounds (weight stats) -> inBounds (weight (f stats))) ->
  keeps weightsBounded
    (bind (getLoadStats name) (fun stats => setLoadStats name (f stats))).
Proof.
  intros Hf. apply keeps_intro. intros s Hs.
  unfold bind, getLoadStats, get, defined, setLoadStats, modify.
  cbn. destruct (loadBalancingStats s !! name) as [stats|] eqn:E; cbn.
  - apply weights_insert; [|exact Hs]. apply Hf. apply (Hs name). exact E.
  - exact Hs.
Qed.

Lemma weights_refresh (s : State) :
  weightsBounded s ->
  weightsBounded (withLoadStats (map_imap (refreshLoad s)) s).
Proof.
  intros Hs n st. cbn [withLoadStats loadBalancingStats].
  rewrite map_lookup_imap.
  destruct (loadBalancingStats s !! n) as [old|] eqn:E; cbn; [|discriminate].
  unfold refreshLoad. intros [= <-].
  destruct (clients s !! n); cbn; apply (Hs n); exact E.
Qed.

Ltac weights_special :=
  first
    [ simple apply weights_adjust; intros ? ?; cbn [weight];
      first [ apply inBounds_success | apply inBounds_failure ]; assumption
    | match goal with
      | H : weightsBounded ?s |- weightsBounded (withLoadStats (insert _ _) ?s) =>
          apply weights_insert; [cbn [weight]; unfold inBounds; lra | exact H]
      | H : weightsBounded ?s |- weightsBounded (withLoadStats (map_imap _) ?s) =>
          apply weights_refresh; exact H
      end ].

Lemma weights_updateSuccessMetrics (name : string) (responseTime : Q) :
  keeps weightsBounded (updateSuccessMetrics name responseTime).
Proof. unfold updateSuccessMetrics. keeps_walk weights_special. Qed.

Lemma weights_updateFailureMetrics (name : string) (e : Error) (now : Z) :
  keeps weightsBounded (updateFailureMetrics name e now).
Proof. unfold updateFailureMetrics. keeps_walk weights_special. Qed.

Ltac weights_known :=
  first
    [ weights_special
    | simple apply weights_updateSuccessMetrics
    | simple apply weights_updateFailureMetrics
    | match goal with
      | H : forall e, keeps _ (?f e) |- keeps _ (?f _) => simple apply H
      end ].

Section RequestWeights.
Variable respond : string -> Outcome.
Variable now : Z.
Variable rand : Q.

Lemma weights_selectClient (l : list string) (options : Options) :
  keeps weightsBounded (selectClient rand l options).
Proof.
  unfold selectClient, selectByRoundRobin, selectByLeastLoaded,
    selectByFastest, selectByPriority, selectByWeight.
  keeps_walk weights_known.
Qed.

Lemma weights_executeWith (onFailure : Error -> M string) (name : string)
    (options : Options) :
  (forall e, keeps weightsBounded (onFailure e)) ->
  keeps weightsBounded (executeWith respond now onFailure name options).
Proof.
  intros H. unfold executeWith, callClient. keeps_walk weights_known.
Qed.

Lemma weights_attemptFailover (failed : string) (options : Options) :
  keeps weightsBounded (attemptFailover respond now rand failed options).
Proof.
  unfold attemptFailover, executeSelected.
  keeps_walk ltac:(first [ simple apply weights_selectClient
                         | simple apply weights_executeWith; intro
                         | weights_known ]).
Qed.

Lemma weights_routeRequest (capability : string) (options : Options) :
  keeps weightsBounded (routeRequest respond now rand capability options).
Proof.
  unfold routeRequest, getClientsForCapability, executeRequest.
  keeps_walk ltac:(first [ simple apply weights_selectClient
                         | simple apply weights_attemptFailover
                         | simple apply weights_executeWith; intro
                         | weights_known ]).
Qed.

End RequestWeights.

Lemma weights_performHealthChecks (probe : string -> Probe) (now : Z) :
  keeps weightsBounded (performHealthChecks probe now).
Proof.
  unfold performHealthChecks, checkClientHealth, checkCircuitBreakers,
    updateLoadBalancingStats.
  keeps_walk weights_known.
Qed.

Lemma weights_handle (ev : Event) : keeps weightsBounded (handle ev).
Proof.
  destruct ev; cbn [handle].
  - unfold discard. keeps_walk ltac:(simple apply weights_routeRequest).
  - apply weights_performHealthChecks.
  - unfold handleClientError. keeps_walk weights_known.
  - unfold handleClientReconnected. keeps_walk weights_known.
  - unfold trackResponse. keeps_walk weights_known.
Qed.

Lemma weights_initialize (connects : string -> Connection) (now : Z) :
  keeps weightsBounded (initialize connects now).
Proof.
  unfold initialize, registerClient, initializeClientTracking,
    markClientUnhealthy.
  keeps_walk weights_known.
Qed.

Lemma weights_constructed (cfg : Config) (cs : list (string * ClientConfig)) :
  weightsBounded (constructed cfg cs).
Proof. intros name stats H. cbn in H. rewrite lookup_empty in H. discriminate. Qed.

Lemma weights_runEvents (evs : list Event) (s : State) :
  weightsBounded s -> weightsBounded (runEvents s evs).
Proof.
  revert s. induction evs as [|ev rest IH]; intros s Hs; simpl.
  - exact Hs.
  - apply IH. unfold step. apply keeps_state; [apply weights_handle | exact Hs].
Qed.

(** Turning a run [m s = (Ok a, s')] of a straight-line method into the
    lookups that succeeded and the state it built. *)
Ltac monad_unfold H :=
  unfold getClient, getHealth, getMetrics, getBreaker, getLoadStats,
    setClient, setHealth, setMetrics, setBreaker, setLoadStats, messageOf,
    bind, get, defined, ret, throw, modify, tryCatch in H;
  cbn beta iota zeta in H.

Ltac state_fields :=
  cbn [withClients withHealth withMetrics withBreakers withCounters
       withLoadStats withCalls clients healthStatus requestMetrics
       circuitBreakers roundRobinCounters loadBalancingStats config calls
       configs capabilities initialized fst snd].

Ltac state_fields_in H :=
  cbn [withClients withHealth withMetrics withBreakers withCounters
       withLoadStats withCalls clients healthStatus requestMetrics
       circuitBreakers roundRobinCounters loadBalancingStats config calls
       configs capabilities initialized fst snd] in H.

Ltac monad_cases H :=
  repeat
    (state_fields_in H;
     match type of H with
     | context [match ?m !! ?k with _ => _ end] =>
         let E := fresh "E" in destruct (m !! k) eqn:E
     | context [match ?e with TypeError => _ | _ => _ end] => destruct e
     | context [if ?c then _ else _] =>
         let E := fresh "E" in destruct c eqn:E
     end);
  try discriminate.

Lemma failure_weight (name : string) (e : Error) (now : Z) (s s' : State) :
  updateFailureMetrics name e now s = (Ok tt, s') ->
  exists stats,
    loadBalancingStats s !! name = Some stats /\
    weightIn s' name = Some (Qmax (weight stats * 0.8) 0.1).
Proof.
  intros H. unfold updateFailureMetrics in H. monad_unfold H. monad_cases H.
  all: injection H as <-; eexists; split; [reflexivity|].
  all: unfold weightIn; state_fields; rewrite lookup_insert_eq; reflexivity.
Qed.

Lemma success_weight (name : string) (responseTime : Q) (s s' : State) :
  updateSuccessMetrics name responseTime s = (Ok tt, s') ->
  exists stats,
    loadBalancingStats s !! name = Some stats /\
    weightIn s' name = Some (Qmin (weight stats * 1.1) 2.0).
Proof.
  intros H. unfold updateSuccessMetrics in H. monad_unfold H. monad_cases H.
  all: injection H as <-; eexists; split; [reflexivity|].
  all: unfold weightIn; state_fields; rewrite lookup_insert_eq; reflexivity.
Qed.

(** ** Health probes *)

Lemma probe_effect (name : string) (probe : Probe) (now : Z) (s : State)
    (c : ClientInfo) (h : Health) :
  clients s !! name = Some c ->
  healthStatus s !! name = Some h ->
  let s' := snd (checkClientHealth name probe now s) in
  healthyIn s' name = Some (verdict probe) /\
  errorsIn s' name = Some (consecutiveErrors h) /\
  loadBalancingStats s' = loadBalancingStats s /\
  circuitBreakers s' = circuitBreakers s.
Proof.
  intros Hc Hh s'. subst s'.
  unfold checkClientHealth, healthyIn, errorsIn.
  unfold getHealth, setHealth, messageOf, bind, get, defined, ret, throw,
    modify, tryCatch.
  cbn beta iota zeta. rewrite Hc.
  destruct probe as [|message]; cbn beta iota zeta; rewrite Hh;
    state_fields; rewrite lookup_alter_eq, Hc, lookup_insert_eq;
    repeat split; reflexivity.
Qed.

Lemma failure_health (name : string) (e : Error) (now : Z) (s s' : State)
    (c : ClientInfo) (h : Health) :
  clients s !! name = Some c ->
  healthStatus s !! name = Some h ->
  updateFailureMetrics name e now s = (Ok tt, s') ->
  errorsIn s' name = Some (S (consecutiveErrors h)) /\
  healthyIn s' name
  = Some (if (3 <=? S (consecutiveErrors h))%nat then false else isHealthy c).
Proof.
  intros Hc Hh H. unfold updateFailureMetrics in H. monad_unfold H.
  monad_cases H.
  all: injection H as <-; injection Hc as <-; injection Hh as <-.
  all: unfold errorsIn, healthyIn; state_fields.
  all: repeat first [ rewrite lookup_insert_eq | rewrite lookup_alter_eq ].
  all: repeat match goal with
              | H : ?x = _ |- context [?x] => rewrite H
              end.
  all: split; reflexivity.
Qed.

(** One probe inside a round: it settles the flag of its own client and
    leaves every other client alone. *)
Lemma probe_in_round (name : string) (errors : nat) (w : option Q)
    (flag : option bool) (x : string) (probe : Probe) (now : Z) :
  ensures (tryCatch (checkClientHealth x probe now) (fun _ => ret tt))
    (probed name errors w flag)
    (fun _ => probed name errors w
                (if String.eqb x name then Some (verdict probe) else flag))
    (fun _ => False).
Proof.
  constructor. intros s [[c [Hc Hf]] [[h [Hh He]] Hw]].
  unfold checkClientHealth, tryCatch, getHealth, setHealth, messageOf, bind,
    get, defined, ret, throw, modify.
  cbn beta iota zeta.
  destruct (String.eqb_spec x name) as [->|Hne].
  - rewrite Hc. destruct probe as [|message]; cbn beta iota zeta;
      rewrite Hh; cbn [outcome]; cbn beta iota zeta; unfold probed;
      state_fields;
      rewrite lookup_alter_eq, Hc, lookup_insert_eq; cbn;
      (split; [eexists; split; reflexivity|]);
      (split; [eexists; split; [reflexivity | exact He] | exact Hw]).
  - assert (Hkeep : forall s1,
              clients s1 !! name = clients s !! name ->
              healthStatus s1 !! name = healthStatus s !! name ->
              loadBalancingStats s1 = loadBalancingStats s ->
              probed name errors w flag s1).
    { intros s1 H1 H2 H3. unfold probed. rewrite H1, H2, H3.
      split; [exists c; auto|]. split; [exists h; auto | exact Hw]. }
    destruct (clients s !! x) as [cx|];
      [destruct probe as [|message];
       destruct (healthStatus s !! x) as [hx|] eqn:Ehx|];
      cbn [outcome]; cbn beta iota zeta; rewrite ?Ehx;
      cbn beta iota zeta; apply Hkeep; state_fields;
      rewrite ?lookup_alter_ne, ?lookup_insert_ne by exact Hne; reflexivity.
Qed.

Lemma probes_in_round (name : string) (errors : nat) (w : option Q)
    (probe : string -> Probe) (now : Z) (l : list string)
    (flag : option bool) :
  ensures
    (forEach (fun clientName =>
                tryCatch (checkClientHealth clientName (probe clientName) now)
                         (fun _ => ret tt)) l)
    (probed name errors w flag)
    (fun _ => probed name errors w
                (if existsb (fun x => String.eqb x name) l
                 then Some (verdict (probe name)) else flag))
    (fun _ => False).
Proof.
  revert flag. induction l as [|x rest IH]; intros flag; cbn [forEach existsb].
  - apply ensures_ret. auto.
  - eapply ensures_bind; [apply probe_in_round|]. intros u.
    eapply ensures_weaken;
      [exact (IH (if String.eqb x name
                  then Some (verdict (probe x)) else flag))
      | auto | | auto].
    intros v s Hs. cbv beta in Hs.
    destruct (String.eqb x name) eqn:E; cbn [orb].
    + apply String.eqb_eq in E. subst x.
      destruct (existsb _ rest); exact Hs.
    + exact Hs.
Qed.

(** A whole round of health checks, seen from one tracked client. *)
Lemma round_of_probes (s : State) (name : string) (c : ClientInfo)
    (h : Health) (probe : string -> Probe) (now : Z) :
  clients s !! name = Some c ->
  healthStatus s !! name = Some h ->
  let s' := step s (PerformHealthChecks probe now) in
  healthyIn s' name = Some (verdict (probe name)) /\
  errorsIn s' name = Some (consecutiveErrors h) /\
  weightIn s' name = weightIn s name.
Proof.
  intros Hc Hh s'. subst s'. unfold step. cbn [handle].
  set (P := probed name (consecutiveErrors h) (weightIn s name)).
  assert (H : ensures (performHealthChecks probe now) (P None)
                (fun _ => P (Some (verdict (probe name)))) (fun _ => False)).
  { unfold performHealthChecks.
    eapply ensures_bind; [apply ensures_get|]. intros s0.
    constructor. intros s1 [<- Hs1].
    assert (Hin : existsb (fun x => String.eqb x name)
                    (map fst (map_to_list (clients s0))) = true).
    { destruct Hs1 as [[c0 [Hc0 _]] _].
      apply existsb_exists. exists name. split; [|apply String.eqb_refl].
      apply in_map_iff. exists (name, c0). split; [reflexivity|].
      apply list_elem_of_In. apply elem_of_map_to_list. exact Hc0. }
    refine (ensures_run _ _ _ _ s0 _ Hs1).
    eapply ensures_bind.
    - apply (probes_in_round name (consecutiveErrors h) (weightIn s name)
               probe now).
    - intros u. rewrite Hin. unfold checkCircuitBreakers.
      eapply ensures_bind with (R := fun _ => P (Some (verdict (probe name)))).
      + apply ensures_modify. intros s2 Hs2. exact Hs2.
      + intros _. unfold updateLoadBalancingStats. apply ensures_modify.
        intros s2 [Hc2 [Hh2 Hw2]]. split; [exact Hc2|]. split; [exact Hh2|].
        state_fields. rewrite map_lookup_imap.
        destruct (loadBalancingStats s2 !! name) as [stats|]; cbn in *;
          [|exact Hw2].
        unfold refreshLoad. destruct (clients s2 !! name); exact Hw2. }
  assert (Hs : P None s).
  { split; [exists c; auto|]. split; [exists h; auto | reflexivity]. }
  pose proof (ensures_run _ _ _ _ s H Hs) as Hrun.
  destruct (performHealthChecks probe now s) as [[[]|e] s']; cbn in *;
    [|destruct Hrun].
  destruct Hrun as [[c' [Hc' Hf]] [[h' [Hh' He]] Hw]].
  unfold healthyIn, errorsIn, weightIn. rewrite Hc', Hh'. cbn.
  rewrite Hf, He. split; [reflexivity|]. split; [reflexivity | exact Hw].
Qed.




(** ** Selection *)

Lemma collect_members (s : State) (wanted : string -> list string -> Res bool)
    (entries : list (string * list string)) (l : list string) :
  collect s wanted entries = Ok l ->
  forall n, In n l -> selectable s n = Ok true.
Proof.
  revert l. induction entries as [|[name caps] rest IH]; intros l H n Hn.
  - injection H as <-. destruct Hn.
  - cbn [collect] in H.
    destruct (wanted name caps) as [[|]|]; try discriminate.
    + destruct (selectable s name) as [pushed|] eqn:Es; try discriminate.
      destruct (collect s wanted rest) as [others|]; try discriminate.
      injection H as <-. destruct pushed.
      * destruct Hn as [<-|Hn]; [exact Es | apply (IH others); auto].
      * apply (IH others); auto.
    + apply (IH l); auto.
Qed.

Lemma open_not_selectable (s : State) (p : string) (b : Breaker) :
  circuitBreakers s !! p = Some b -> isOpen b = true ->
  selectable s p <> Ok true.
Proof.
  intros Hb Ho. unfold selectable. rewrite Hb, Ho.
  destruct (clients s !! p) as [c|]; [destruct (isHealthy c)|]; discriminate.
Qed.

Lemma leastLoadedLoop_member (s : State) (l : list string) (best : string)
    (load : Z) (n : string) :
  leastLoadedLoop s l best load = Ok n -> n = best \/ In n l.
Proof.
  revert best load. induction l as [|x rest IH]; intros best load H.
  - injection H as <-. left. reflexivity.
  - cbn [leastLoadedLoop] in H. destruct (clients s !! x); try discriminate.
    destruct (_ <? _)%Z; apply IH in H; destruct H as [->|H];
      simpl; auto.
Qed.

Lemma fastestLoop_member (s : State) (l : list string) (best : string)
    (fastest : option Q) (n : string) :
  fastestLoop s l best fastest = Ok n -> n = best \/ In n l.
Proof.
  revert best fastest. induction l as [|x rest IH]; intros best fastest H.
  - injection H as <-. left. reflexivity.
  - cbn [fastestLoop] in H. destruct (clients s !! x); try discriminate.
    destruct (fasterThan _ _); apply IH in H; destruct H as [->|H];
      simpl; auto.
Qed.

Lemma priorityLoop_member (s : State) (l : list string) (best : string)
    (rank : nat) (n : string) :
  priorityLoop s l best rank = Ok n -> n = best \/ In n l.
Proof.
  revert best rank. induction l as [|x rest IH]; intros best rank H.
  - injection H as <-. left. reflexivity.
  - cbn [priorityLoop] in H.
    destruct (lookupConfig (configs s) x); try discriminate.
    destruct (_ <? _)%nat; apply IH in H; destruct H as [->|H];
      simpl; auto.
Qed.

Lemma weightLoop_member (l : list (string * Q)) (random : Q) (n : string) :
  weightLoop l random = Some n -> In n (map fst l).
Proof.
  revert random. induction l as [|[x w] rest IH]; intros random H.
  - discriminate.
  - cbn [weightLoop] in H. destruct (Qle_bool _ _).
    + injection H as <-. left. reflexivity.
    + right. apply (IH _ H).
Qed.

Lemma combine_fst_incl {X Y : Type} (l : list X) (k : list Y) (x : X) :
  In x (map fst (combine l k)) -> In x l.
Proof.
  revert k. induction l as [|a rest IH]; intros k H.
  - destruct H.
  - destruct k as [|y k']; [destruct H|].
    simpl in H. destruct H as [<-|H]; [left; reflexivity|].
    right. apply (IH k'). exact H.
Qed.

(** Whatever the strategy, the client selected is one of the candidates. *)
Lemma select_member (rand : Q) (l : list string) (options : Options)
    (s s' : State) (n : string) :
  selectClient rand l options s = (Ok (Some n), s') -> In n l.
Proof.
  intros H. unfold selectClient in H.
  assert (Hrr : selectByRoundRobin l s = (Ok (Some n), s') -> In n l).
  { clear H. intros H. unfold selectByRoundRobin in H. monad_unfold H.
    injection H as H _. apply list_elem_of_In.
    apply (list_elem_of_lookup_2 _ _ _ H). }
  monad_unfold H.
  destruct (default (loadBalancingStrategy (config s)) (optStrategy options));
    try (apply Hrr; exact H); clear Hrr.
  - unfold selectByLeastLoaded, liftRes in H.
    destruct l as [|first rest]; [discriminate|].
    monad_unfold H. destruct (clients s !! first) as [c|]; [|discriminate].
    destruct (leastLoadedLoop s (first :: rest) first (requestCount c))
      as [chosen|] eqn:E; [|discriminate].
    injection H as <- _. apply leastLoadedLoop_member in E.
    destruct E as [->|E]; [left; reflexivity | exact E].
  - unfold selectByFastest, liftRes in H.
    destruct l as [|first rest]; [discriminate|].
    monad_unfold H. destruct (clients s !! first) as [c|]; [|discriminate].
    destruct (fastestLoop s (first :: rest) first (responseTimeOrInfinity c))
      as [chosen|] eqn:E; [|discriminate].
    injection H as <- _. apply fastestLoop_member in E.
    destruct E as [->|E]; [left; reflexivity | exact E].
  - unfold selectByPriority, liftRes in H.
    destruct l as [|first rest]; [discriminate|].
    monad_unfold H.
    destruct (lookupConfig (configs s) first) as [c|]; [|discriminate].
    destruct (priorityLoop s (first :: rest) first (priorityRank (priority c)))
      as [chosen|] eqn:E; [|discriminate].
    injection H as <- _. apply priorityLoop_member in E.
    destruct E as [->|E]; [left; reflexivity | exact E].
  - unfold selectByWeight in H. monad_unfold H.
    destruct (weightLoop _ _) as [chosen|] eqn:E in H.
    + injection H as <- _. apply weightLoop_member in E.
      apply (combine_fst_incl _ _ _ E).
    + injection H as H _. destruct l as [|first rest]; [discriminate|].
      injection H as <-. left. reflexivity.
Qed.

(** ** An open breaker *)

Lemma ensures_result {A : Type} (m : M A) (I : State -> Prop)
    (fact : A -> Prop) :
  keeps I m ->
  (forall s a s', I s -> m s = (Ok a, s') -> fact a) ->
  ensures m I (fun a s => fact a /\ I s) I.
Proof.
  intros Hk Hf. constructor. intros s Hs.
  pose proof (ensures_run m _ _ _ s Hk Hs) as H.
  specialize (Hf s). destruct (m s) as [[a|e] s']; simpl in *.
  - split; [apply (Hf a s' Hs eq_refl) | exact H].
  - exact H.
Qed.

Section HeldOpen.
Variable p : string.
Variable b : Breaker.
Variable before : list string.
Hypothesis b_open : isOpen b = true.

Local Abbreviation held := (heldOpen p b before).

Lemma held_insert_other (name : string) (b' : Breaker) (s : State) :
  name <> p -> held s -> held (withBreakers (insert name b') s).
Proof.
  intros Hne [Hb Hc]. split; [|exact Hc].
  state_fields. rewrite lookup_insert_ne by exact Hne. exact Hb.
Qed.

Lemma held_call_other (name : string) (s : State) :
  name <> p -> held s -> held (withCalls (fun t => t ++ [name]) s).
Proof.
  intros Hne [Hb [since [Hc Hn]]]. split; [exact Hb|].
  exists (since ++ [name]). state_fields. split.
  - rewrite Hc. rewrite <- app_assoc. reflexivity.
  - intros Hin. apply in_app_or in Hin. destruct Hin as [Hin|[Hin|[]]].
    + exact (Hn Hin).
    + exact (Hne Hin).
Qed.

Ltac held_special Hne :=
  idtac;
  match goal with
  | H : heldOpen _ _ _ ?s |- heldOpen _ _ _ (withBreakers (insert _ _) ?s) =>
      apply held_insert_other; [exact Hne | exact H]
  | H : heldOpen _ _ _ ?s |- heldOpen _ _ _ (withCalls _ ?s) =>
      apply held_call_other; [exact Hne | exact H]
  | H : forall e, keeps _ (?f e) |- keeps _ (?f _) => simple apply H
  end.

Lemma held_updateSuccessMetrics (name : string) (responseTime : Q) :
  name <> p -> keeps held (updateSuccessMetrics name responseTime).
Proof.
  intros Hne. unfold updateSuccessMetrics.
  keeps_walk ltac:(held_special Hne).
Qed.

Lemma held_updateFailureMetrics (name : string) (e : Error) (now : Z) :
  name <> p -> keeps held (updateFailureMetrics name e now).
Proof.
  intros Hne. unfold updateFailureMetrics.
  keeps_walk ltac:(held_special Hne).
Qed.

Section Requests.
Variable respond : string -> Outcome.
Variable now : Z.
Variable rand : Q.

Lemma held_selectClient (l : list string) (options : Options) :
  keeps held (selectClient rand l options).
Proof.
  unfold selectClient, selectByRoundRobin, selectByLeastLoaded,
    selectByFastest, selectByPriority, selectByWeight.
  keeps_walk fail.
Qed.

Lemma held_executeWith (onFailure : Error -> M string) (name : string)
    (options : Options) :
  name <> p ->
  (forall e, keeps held (onFailure e)) ->
  keeps held (executeWith respond now onFailure name options).
Proof.
  intros Hne H. unfold executeWith, callClient.
  keeps_walk ltac:(first [ simple apply held_updateSuccessMetrics; exact Hne
                         | simple apply held_updateFailureMetrics; exact Hne
                         | held_special Hne ]).
Qed.

(** No candidate list contains [p]. *)
Lemma held_collect (wanted : State -> string -> list string -> Res bool) :
  ensures (liftRes (fun s => collect s (wanted s) (capabilities s)))
    held (fun l s => ~ In p l /\ held s) held.
Proof.
  apply ensures_result.
  - apply keeps_liftRes.
  - intros s l s' [Hb _] H Hin. unfold liftRes in H.
    destruct (collect s (wanted s) (capabilities s)) as [l'|] eqn:E;
      [|discriminate].
    injection H as <- _.
    apply (open_not_selectable s p b Hb b_open).
    apply (collect_members s (wanted s) (capabilities s) l' E). exact Hin.
Qed.

Lemma held_select (l : list string) (options : Options) :
  ensures (selectClient rand l options)
    held (fun r s => (forall n, r = Some n -> In n l) /\ held s) held.
Proof.
  apply ensures_result.
  - apply held_selectClient.
  - intros s r s' _ H n ->. apply (select_member rand l options s s' n H).
Qed.

Lemma held_selected (onFailure : Error -> M string) (l : list string)
    (options options' : Options) :
  ~ In p l ->
  (forall e, keeps held (onFailure e)) ->
  keeps held
    (bind (selectClient rand l options)
          (fun r => executeSelected respond now onFailure r options')).
Proof.
  intros Hp Hf. eapply ensures_bind; [apply held_select|].
  intros r. apply ensures_assume. intros Hr.
  destruct r as [n|]; cbn [executeSelected]; [|apply keeps_throw].
  apply held_executeWith; [|exact Hf].
  intros ->. apply Hp. apply Hr. reflexivity.
Qed.

Lemma held_attemptFailover (failed : string) (options : Options) :
  keeps held (attemptFailover respond now rand failed options).
Proof.
  unfold attemptFailover.
  eapply ensures_bind.
  - apply (held_collect (fun s name caps =>
             if String.eqb name failed then Ok false
             else sharesCapability (mapGet failed (capabilities s)) caps)).
  - intros l. apply ensures_assume. intros Hp.
    destruct l as [|x rest]; [apply keeps_throw|].
    apply held_selected; [exact Hp|]. intros e. apply keeps_throw.
Qed.

Lemma held_routeRequest (capability : string) (options : Options) :
  keeps held (routeRequest respond now rand capability options).
Proof.
  unfold routeRequest.
  apply keeps_bind; [apply keeps_get|]. intros s0.
  destruct (negb (initialized s0)); [apply keeps_throw|].
  eapply ensures_bind.
  - unfold getClientsForCapability.
    apply (held_collect (fun _ _ caps => Ok (includes capability caps))).
  - intros l. apply ensures_assume. intros Hp.
    destruct l as [|x rest]; [apply keeps_throw|].
    eapply ensures_bind; [apply held_select|].
    intros r. apply ensures_assume. intros Hr.
    destruct r as [n|]; [|apply keeps_throw].
    unfold executeRequest. apply held_executeWith.
    + intros ->. apply Hp. apply Hr. reflexivity.
    + intros e. destruct (enableFailover options);
        [apply held_attemptFailover | apply keeps_throw].
Qed.

End Requests.

(** A round of health checks before the retry time leaves the breaker as it
    is. *)
Lemma held_check_early (limit now : Z) (s : State) :
  nextRetryTime b = Some limit -> (now < limit)%Z ->
  held s -> held (withBreakers (fmap (resetIfDue now)) s).
Proof.
  intros Hl Hlt [Hb Hc]. split; [|exact Hc].
  state_fields. rewrite lookup_fmap, Hb. cbn.
  unfold resetIfDue, retryDue. rewrite b_open, Hl. cbn.
  destruct (limit <=? now)%Z eqn:E; [|reflexivity].
  apply Z.leb_le in E. lia.
Qed.

Lemma held_performHealthChecks (limit : Z) (probe : string -> Probe)
    (now : Z) :
  nextRetryTime b = Some limit -> (now < limit)%Z ->
  keeps held (performHealthChecks probe now).
Proof.
  intros Hl Hlt.
  unfold performHealthChecks, checkClientHealth, checkCircuitBreakers,
    updateLoadBalancingStats.
  keeps_walk ltac:(idtac;
    match goal with
    | H : heldOpen _ _ _ ?s
      |- heldOpen _ _ _ (withBreakers (fmap _) ?s) =>
        apply (held_check_early limit); [exact Hl | exact Hlt | exact H]
    end).
Qed.

Lemma held_handle (limit : Z) (ev : Event) :
  nextRetryTime b = Some limit ->
  (forall probe now, ev = PerformHealthChecks probe now -> (now < limit)%Z) ->
  keeps held (handle ev).
Proof.
  intros Hl Hev. destruct ev; cbn [handle].
  - unfold discard. keeps_walk ltac:(simple apply held_routeRequest).
  - apply (held_performHealthChecks limit); [exact Hl|].
    apply (Hev probe now eq_refl).
  - unfold handleClientError. keeps_walk fail.
  - unfold handleClientReconnected. keeps_walk fail.
  - unfold trackResponse. keeps_walk fail.
Qed.

Lemma held_runEvents (limit : Z) (evs : list Event) (s : State) :
  nextRetryTime b = Some limit ->
  checksBefore limit evs ->
  held s -> held (runEvents s evs).
Proof.
  intros Hl. revert s. induction evs as [|ev rest IH]; intros s Hev Hs.
  - exact Hs.
  - cbn [runEvents fold_left]. apply IH.
    + intros probe now Hin. apply (Hev probe now). right. exact Hin.
    + unfold step. apply keeps_state; [|exact Hs].
      apply (held_handle limit); [exact Hl|].
      intros probe now ->. apply (Hev probe now). left. reflexivity.
Qed.

End HeldOpen.

(** A round of health checks at or after the retry time closes the breaker
    and clears its counter. *)
Lemma checks_reset_due_breaker (p : string) (b : Breaker) (limit : Z)
    (probe : string -> Probe) (now : Z) (s : State) :
  circuitBreakers s !! p = Some b ->
  isOpen b = true -> nextRetryTime b = Some limit -> (limit <= now)%Z ->
  breakerOf (step s (PerformHealthChecks probe now)) p
  = Some {| isOpen := false; failureCount := 0;
            lastFailureTime := lastFailureTime b;
            nextRetryTime := nextRetryTime b |}.
Proof.
  intros Hb Ho Hl Hle. unfold step, breakerOf. cbn [handle].
  set (I := fun s : State => circuitBreakers s !! p = Some b).
  set (Q := fun s : State =>
              circuitBreakers s !! p
              = Some {| isOpen := false; failureCount := 0;
                        lastFailureTime := lastFailureTime b;
                        nextRetryTime := nextRetryTime b |}).
  assert (H : ensures (performHealthChecks probe now) I (fun _ => Q)
                      (fun _ => False)).
  { unfold performHealthChecks.
    eapply ensures_bind; [apply ensures_get|]. intros s0.
    apply ensures_weaken with (P' := I) (Q' := fun _ => Q)
      (E' := fun _ => False); [|intros s1 [_ Hs1]; exact Hs1|auto|auto].
    eapply ensures_bind with (R := fun _ => I).
    - induction (map fst (map_to_list (clients s0))) as [|x rest IH];
        cbn [forEach].
      + apply ensures_ret. auto.
      + eapply ensures_bind with (R := fun _ => I); [|intros _; exact IH].
        eapply ensures_tryCatch with (E' := I).
        * unfold checkClientHealth. keeps_walk fail.
        * intros e. apply ensures_ret. auto.
    - intros _. eapply ensures_bind with (R := fun _ => Q).
      + unfold checkCircuitBreakers. apply ensures_modify.
        intros s1 Hs1. unfold Q, I in *. state_fields.
        rewrite lookup_fmap, Hs1. cbn. unfold resetIfDue, retryDue.
        rewrite Ho, Hl. cbn.
        destruct (limit <=? now)%Z eqn:E; [reflexivity|].
        apply Z.leb_gt in E. lia.
      + intros _. unfold updateLoadBalancingStats. apply ensures_modify.
        intros s1 Hs1. exact Hs1. }
  pose proof (ensures_run _ _ _ _ s H Hb) as Hrun.
  destruct (performHealthChecks probe now s) as [[[]|e] s']; cbn in *.
  - exact Hrun.
  - destruct Hrun.
Qed.

(** A success closes the breaker of its client; if the breaker was open its
    counter is cleared. *)
Lemma success_closes_breaker (name : string) (responseTime : Q)
    (s s' : State) :
  updateSuccessMetrics name responseTime s = (Ok tt, s') ->
  exists b b',
    breakerOf s name = Some b /\ breakerOf s' name = Some b' /\
    isOpen b' = false /\
    (isOpen b = true -> failureCount b' = 0%nat).
Proof.
  intros H. unfold updateSuccessMetrics in H. monad_unfold H. monad_cases H.
  all: injection H as <-; unfold breakerOf; state_fields.
  all: eexists _, _; split; [eassumption|].
  all: first [ rewrite lookup_insert_eq; repeat split
             | split; [eassumption|]; split; [assumption | congruence] ].
Qed.




End CoordinatorProofs.

(** ** Facts about the estimator *)

Module EstimatorFacts.
Import JS Estimator EstimatorMore EstimatorProofs.

(** The verdict in one expression. *)
Lemma profitable_unfold (cfg : Config) (now : Z) (o : Opportunity) :
  profitable (estimateProfit cfg now o) =
  validateOpportunity o &&
  match adjustedProfitPercent cfg o with
  | Some m => ge m (Num (minProfitThreshold cfg))
  | None => false
  end.
Proof.
  unfold adjustedProfitPercent.
  destruct (estimateProfit_cases cfg now o)
    as [[Hv Hr] | [[Hv [Hc Hr]] | [Hv [costs [e [Hc [Hr H]]]]]]];
    rewrite Hr, Hv; simpl.
  - reflexivity.
  - rewrite Hc. reflexivity.
  - rewrite Hc.
    destruct H as [Hb [Ht [Hs [Hn [Hp [Hprof _]]]]]].
    rewrite Hprof, Hp, Hn, Hb, Ht, Hs. reflexivity.
Qed.

(** X2.  With a configured threshold of at most 0.5 %, an estimate that
    went through the whole calculation is profitable exactly when its
    recommendation is not [PASS]: [getRecommendation] and the final check of
    [estimateProfit] agree. *)
Theorem recommendation_is_pass_exactly_when_unprofitable
    (cfg : Config) (now : Z) (o : Opportunity) (e : Estimate) :
  minProfitThreshold cfg <= 0.005 ->
  estimateProfit cfg now o = Estimated e ->
  (est_profitable e = true <-> est_recommendation e <> PASS).
Proof.
  intros Hthr Hr. unfold estimateProfit in Hr.
  destruct (validateOpportunity o); [|discriminate]. cbn [negb] in Hr.
  destruct (calculateCosts cfg o) as [costs|]; [|discriminate].
  injection Hr as <-. cbn [est_profitable est_recommendation].
  unfold getRecommendation.
  destruct (div _ _) as [pp|].
  - destruct (ge (Num pp) (Num 0.01)) eqn:E1.
    { apply ge_Num in E1. split; [discriminate|]. intros _.
      apply ge_Num. lra. }
    destruct (ge (Num pp) (Num 0.005)) eqn:E2.
    { apply ge_Num in E2. split; [discriminate|]. intros _.
      apply ge_Num. lra. }
    unfold ge, le, cmp.
    destruct (Qle_bool (minProfitThreshold cfg) pp).
    + split; [discriminate | reflexivity].
    + split; [discriminate | congruence].
  - cbn. split; [discriminate | congruence].
Qed.

(** A threshold above 1% breaks the agreement: the recommendation is
    [STRONG_BUY] and the verdict is negative. *)
Example strong_buy_yet_unprofitable :
  exists e,
    estimateProfit strictConfig 0 (bscOpportunity 0.1224 20) = Estimated e /\
    est_recommendation e = STRONG_BUY /\ est_profitable e = false.
Proof. eexists. split; [reflexivity|]. split; reflexivity. Qed.

Lemma validate_withPriceDelta (d d' : Q) (o : Opportunity) :
  validateOpportunity o = true -> priceDelta o = Some d -> d <= d' ->
  validateOpportunity (withPriceDelta d' o) = true.
Proof.
  intros Hv Hd Hle.
  destruct (validated_fields o Hv) as [p [v [g [Hp [Hvol [Hg [Pp _]]]]]]].
  rewrite Hd in Hp. injection Hp as <-.
  unfold validateOpportunity in *.
  cbn [withPriceDelta priceDelta volume gasPrice flashLoanProvider dexA dexB].
  rewrite Hd in Hv. cbn [present toNumber] in *.
  assert (E : le (Num d') (Num 0) = false).
  { unfold le, cmp. apply Qle_bool_false. lra. }
  assert (E0 : le (Num d) (Num 0) = false).
  { unfold le, cmp. apply Qle_bool_false. exact Pp. }
  rewrite E. rewrite E0 in Hv. exact Hv.
Qed.

(** X3.  The verdict of [estimateProfit] is monotone in the price
    difference: an opportunity found profitable stays profitable when only
    its [priceDelta] is raised. *)
Theorem verdict_is_monotone_in_the_price_difference
    (cfg : Config) (now now' : Z) (o : Opportunity) (d d' : Q) :
  priceDelta o = Some d -> d <= d' ->
  profitable (estimateProfit cfg now o) = true ->
  profitable (estimateProfit cfg now' (withPriceDelta d' o)) = true.
Proof.
  intros Hd Hle Hp. rewrite profitable_unfold in *.
  apply andb_true_iff in Hp as [Hv Hm].
  rewrite (validate_withPriceDelta d d' o Hv Hd Hle). cbn [andb].
  destruct (validated_fields o Hv) as [p [v [g [Hp [Hvol [Hg [Pp [Pv _]]]]]]]].
  unfold adjustedProfitPercent in *.
  change (calculateCosts cfg (withPriceDelta d' o)) with (calculateCosts cfg o).
  destruct (calculateCosts cfg o) as [costs|]; [|discriminate].
  change (calculateSlippageImpact cfg (withPriceDelta d' o))
    with (calculateSlippageImpact cfg o).
  unfold calculateBaseProfit in *.
  cbn [withPriceDelta priceDelta volume]. rewrite Hd, Hvol in *.
  cbn [toNumber mul lift2] in *.
  destruct (total costs) as [t|]; [|discriminate].
  destruct (calculateSlippageImpact cfg o) as [sl|]; [|discriminate].
  cbn [sub lift2 div] in *. rewrite (Qeq_bool_false_pos v Pv) in *.
  apply ge_Num in Hm. apply ge_Num.
  eapply Qle_trans; [exact Hm|].
  apply Qmult_le_compat_r.
  - assert (d * v <= d' * v) by (apply Qmult_le_compat_r; lra). lra.
  - apply Qlt_le_weak. apply Qinv_lt_0_compat. exact Pv.
Qed.

(** ** Costs *)

Lemma isInteger_exact (q : Q) :
  isInteger q = true -> inject_Z (Qnum q / Zpos (Qden q)) == q.
Proof.
  unfold isInteger. intros H. apply Z.eqb_eq in H.
  unfold Qeq, inject_Z. cbn [Qnum Qden].
  rewrite Z.mul_1_r.
  rewrite Z.mul_comm. symmetry. apply Z.div_exact; [lia | exact H].
Qed.

Lemma parseGwei_exact (g : Q) (wei : Z) :
  parseGwei g = Some wei -> inject_Z wei == g * 1000000000.
Proof.
  unfold parseGwei. intros H.
  destruct (plainDecimal g && isInteger (g * (1000000000 # 1))) eqn:E;
    [|discriminate].
  apply andb_true_iff in E as [_ E]. injection H as <-.
  exact (isInteger_exact (g * (1000000000 # 1)) E).
Qed.

Lemma formatEther_scaled (units wei : Z) (g : Q) :
  inject_Z wei == g * 1000000000 ->
  formatEther (units * wei) == inject_Z units * g / 1000000000.
Proof.
  intros H. unfold formatEther. rewrite inject_Z_mult, H. field.
Qed.


(** ** Batches *)

Lemma estimateEach_length (cfg : Config) (clock : nat -> Z) (i : nat)
    (opps : list Opportunity) :
  length (estimateEach cfg clock i opps) = length opps.
Proof.
  revert i. induction opps as [|o rest IH]; intros i; simpl; [|rewrite IH];
    reflexivity.
Qed.

Lemma estimateEach_results (cfg : Config) (clock : nat -> Z) (i : nat)
    (opps : list Opportunity) (x : BatchEntry) :
  In x (estimateEach cfg clock i opps) ->
  exists o now, In o opps /\ entryId x = id o /\
                entryResult x = estimateProfit cfg now o.
Proof.
  revert i. induction opps as [|o rest IH]; intros i; simpl; intros H.
  - contradiction.
  - destruct H as [<-|H].
    + exists o, (clock i). split; [left; reflexivity|]. split; reflexivity.
    + destruct (IH (S i) H) as [o' [now [Hin H']]].
      exists o', now. split; [right; exact Hin | exact H'].
Qed.

Lemma profitPercentOrZero_numeric (x : BatchEntry) :
  numeric profitPercentOrZero x.
Proof.
  unfold numeric, profitPercentOrZero.
  destruct (entryResult x) as [r|r|e]; try (exists 0; reflexivity).
  destruct (est_profitPercent e) as [q|]; [exists q | exists 0]; reflexivity.
Qed.

(** X5.  [batchEstimate] returns one entry per opportunity, each carrying
    the [id] of its opportunity and the result of [estimateProfit] on it,
    rearranged so that [profitPercent || 0] never increases along the list:
    the entries without a profit percentage rank as 0. *)
Theorem batch_is_ordered_by_profit_percent_or_zero
    (cfg : Config) (clock : nat -> Z) (opps : list Opportunity) :
  let results := batchEstimate cfg clock opps in
  StronglySorted (notBelow profitPercentOrZero) results /\
  Permutation results (estimateEach cfg clock 0 opps) /\
  length results = length opps /\
  (forall x, In x results ->
     (exists o now, In o opps /\ entryId x = id o /\
                    entryResult x = estimateProfit cfg now o) /\
     (profitPercentOrZero x = Num 0 \/
      exists e, entryResult x = Estimated e /\
                est_profitPercent e = profitPercentOrZero x)).
Proof.
  intros results. subst results. unfold batchEstimate.
  split; [|split; [|split]].
  - apply (EngineProofs.sort_sorted profitPercentOrZero).
    apply Forall_forall. intros x _. apply profitPercentOrZero_numeric.
  - apply EngineProofs.sort_perm.
  - rewrite EngineProofs.sort_length. apply estimateEach_length.
  - intros x Hin. split.
    + apply (estimateEach_results cfg clock 0).
      eapply Permutation_in; [apply EngineProofs.sort_perm | exact Hin].
    + unfold profitPercentOrZero.
      destruct (entryResult x) as [r|r|e]; try (left; reflexivity).
      destruct (est_profitPercent e) as [q|] eqn:E; [|left; reflexivity].
      right. exists e. split; [reflexivity | exact E].
Qed.

(** ** Instances *)

Lemma recommendation_is_pass_exactly_when_unprofitable_witness :
  exists e,
    estimateProfit defaultConfig 0 testOpportunity = Estimated e /\
    (est_profitable e = true <-> est_recommendation e <> PASS).
Proof.
  destruct (estimateProfit defaultConfig 0 testOpportunity) as [| |e] eqn:E;
    try (vm_compute in E; discriminate E).
  exists e. split; [reflexivity|].
  apply (recommendation_is_pass_exactly_when_unprofitable
           defaultConfig 0 testOpportunity e); [qdecide | exact E].
Defined.

Lemma verdict_is_monotone_in_the_price_difference_witness :
  profitable (estimateProfit defaultConfig 0 at25bps) = true /\
  profitable (estimateProfit defaultConfig 1 (withPriceDelta 0.2 at25bps))
  = true.
Proof.
  assert (H : profitable (estimateProfit defaultConfig 0 at25bps) = true)
    by (vm_compute; reflexivity).
  split; [exact H|].
  apply (verdict_is_monotone_in_the_price_difference
           defaultConfig 0 1 at25bps 0.1099 0.2);
    [reflexivity | qdecide | exact H].
Defined.


End EstimatorFacts.

(** ** Facts about the engine *)

Module EngineFacts.
Import JS Engine EngineMore EstimatorProofs EngineProofs.

(** ** Trade sizes *)

(** X11.  [calculateOptimalTradeSize] of [ArbitrageEngine] returns its
    minimum of 1000 whenever the Kelly fraction, as the code computes it, is
    at most zero and the liquidity is a positive finite number.  A
    profitability of [+0] with a confidence below 100 is such a case: the
    fraction is [-Infinity]. *)
Theorem trade_size_is_the_minimum_when_the_edge_is_not_positive (o : Opp) :
  (kellyFraction o <=? 0)%float = true ->
  (0 <? Double.toNumber (liquidity o))%float = true ->
  (Double.toNumber (liquidity o) <? infinity)%float = true ->
  calculateOptimalTradeSize o = 1000%float.
Proof.
  intros Hk Hl Hf. unfold calculateOptimalTradeSize.
  destruct (DoubleFacts.leb_numbers _ _ Hk) as [Nk _].
  assert (Rk : (DoubleFacts.rank (kellyFraction o) <= 0)%Z).
  { rewrite (DoubleFacts.leb_rank (kellyFraction o) 0 Nk eq_refl) in Hk.
    apply Z.leb_le in Hk. exact Hk. }
  rewrite (DoubleFacts.min_not_positive (kellyFraction o) 0.1 Nk Rk eq_refl)
    by (vm_compute; reflexivity).
  destruct (DoubleFacts.mul_not_positive _ _ Hl Hf Hk) as [Nm Rm].
  rewrite (DoubleFacts.min_not_positive _ 100000 Nm Rm eq_refl)
    by (vm_compute; reflexivity).
  apply DoubleFacts.max_not_positive;
    [reflexivity|vm_compute; reflexivity|exact Nm|exact Rm].
Qed.

(** Outside these conditions the result can be the maximum.  With a
    profitability of 0.5, a confidence of 80 and a liquidity of 1e300 the
    edge is zero in exact arithmetic, the fraction computed is positive and
    the size is 100000; with a negative liquidity and a negative fraction
    the product is positive; with a profitability of [-0] the fraction is
    [+Infinity]. *)
Example trade_size_outside_the_conditions :
  (0 <? kellyFraction roundedEdge)%float = true /\
  calculateOptimalTradeSize roundedEdge = 100000%float /\
  calculateOptimalTradeSize
    {| token := "T"; chain := "bsc"; profitability := Double.Number 0.5;
       liquidity := Double.Number (-100000000); confidence := Double.Number 70;
       amount := Double.Undefined; expectedProfit := Double.Undefined |}
  = 100000%float /\
  calculateOptimalTradeSize
    {| token := "T"; chain := "bsc"; profitability := Double.Number neg_zero;
       liquidity := Double.Number 1000000; confidence := Double.Number 70;
       amount := Double.Undefined; expectedProfit := Double.Undefined |}
  = 100000%float /\
  calculateOptimalTradeSize
    {| token := "T"; chain := "bsc"; profitability := Double.Number 0;
       liquidity := Double.Number 1000000; confidence := Double.Number 70;
       amount := Double.Undefined; expectedProfit := Double.Undefined |}
  = 1000%float.
Proof. vm_compute. repeat split; reflexivity. Qed.

(** The size is [NaN] or lies between 1000 and 100000. *)
Lemma tradeSize_bounds (o : Opp) :
  is_nan (calculateOptimalTradeSize o) = true \/
  ((1000 <=? calculateOptimalTradeSize o)%float = true /\
   (calculateOptimalTradeSize o <=? 100000)%float = true).
Proof.
  destruct (is_nan (calculateOptimalTradeSize o)) eqn:N; [left; reflexivity|].
  right. unfold calculateOptimalTradeSize in *.
  set (m := Double.min _ 100000) in *.
  destruct (DoubleFacts.max_rank 1000 m N) as (N1 & Nm & R).
  destruct (DoubleFacts.min_rank _ _ Nm) as (_ & N2 & Rm).
  fold m in Rm.
  rewrite (DoubleFacts.leb_rank _ _ N1 N), (DoubleFacts.leb_rank _ _ N N2).
  rewrite R, Rm.
  assert (H : (DoubleFacts.rank 1000 <= DoubleFacts.rank 100000)%Z)
    by (vm_compute; discriminate).
  split; apply Z.leb_le; lia.
Qed.

(** ** Entries of the queue *)

Section Queue.
Variable ln : float -> float.
Variable validate : Opp -> bool.

Lemma filtered_entry (st : State) (opps : list Opp) (o : Opp) :
  In o (filterOpportunities validate st opps) ->
  exists raw, In raw opps /\ o = sized raw /\ keepOpportunity validate st raw = true.
Proof.
  unfold filterOpportunities. intros H.
  apply in_map_iff in H as [raw [<- Hraw]].
  apply filter_In in Hraw as [Hin Hkeep].
  exists raw. repeat split; assumption.
Qed.

Lemma kept_thresholds (st : State) (o : Opp) :
  keepOpportunity validate st o = true ->
  (Double.toNumber (profitability o) <? minProfitability st)%float = false /\
  (Double.toNumber (liquidity o) <? 50000)%float = false /\
  (Double.toNumber (confidence o) <? 70)%float = false /\
  validate o = true.
Proof.
  unfold keepOpportunity. intros H.
  destruct (_ <? minProfitability st)%float eqn:E1; [discriminate|].
  destruct (_ <? 50000)%float eqn:E2; [discriminate|].
  destruct (_ <? 70)%float eqn:E3; [discriminate|].
  repeat split; assumption.
Qed.

(** A test [x < t] that fails on numbers means that [x] reaches [t]. *)
Lemma reaches (x t : float) :
  (x <? t)%float = false -> is_nan x = false -> is_nan t = false ->
  (t <=? x)%float = true.
Proof.
  intros H Nx Nt. rewrite (DoubleFacts.ltb_rank _ _ Nx Nt) in H.
  rewrite (DoubleFacts.leb_rank _ _ Nt Nx).
  apply Z.ltb_ge in H. apply Z.leb_le. exact H.
Qed.

(** X10.  Every entry that a scan of a running engine adds to the execution
    queue carries the id and the time of the scan; it is [sized] from an
    opportunity of the scan that passed [validateOpportunity] as it came
    in; none of the three tests of [filterOpportunities]
    ([profitability < minProfitability], [liquidity < 50000],
    [confidence < 70]) holds of it, which a field that is [NaN] or absent
    satisfies as well; its [amount] is the result of
    [calculateOptimalTradeSize], which is [NaN] or a number between 1000
    and 100000, and its [expectedProfit] is [amount * profitability / 100].
    Where [profitability], [liquidity] and [confidence] are numbers, they
    reach the three thresholds.  (An opportunity without [confidence] is
    queued with an [amount] of [NaN]:
    [missing_confidence_is_queued_unsized].) *)
Theorem queued_entries_are_sized_by_the_scan
    (st : State) (id : string) (now : Z) (opps : list Opp) (q : Queued) :
  isRunning st = true ->
  In q (executionQueue
          (scanForOpportunities ln validate st id now (Some opps))) ->
  In q (executionQueue st) \/
  (scanId q = id /\ timestamp q = now /\
   (exists raw,
      In raw opps /\ queuedOpp q = sized raw /\ validate raw = true) /\
   let o := queuedOpp q in
   let p := Double.toNumber (profitability o) in
   let l := Double.toNumber (liquidity o) in
   let c := Double.toNumber (confidence o) in
   let size := calculateOptimalTradeSize o in
   (p <? minProfitability st)%float = false /\
   (l <? 50000)%float = false /\
   (c <? 70)%float = false /\
   amount o = Double.Number size /\
   expectedProfit o = Double.Number (size * p / 100)%float /\
   (is_nan size = true \/
    ((1000 <=? size)%float = true /\ (size <=? 100000)%float = true)) /\
   (is_nan p = false -> is_nan (minProfitability st) = false ->
    (minProfitability st <=? p)%float = true) /\
   (is_nan l = false -> (50000 <=? l)%float = true) /\
   (is_nan c = false -> (70 <=? c)%float = true)).
Proof.
  intros Hrun Hin.
  rewrite (scan_appends_ranked ln validate st id now opps Hrun) in Hin.
  apply in_app_or in Hin as [Hold|Hnew]; [left; exact Hold | right].
  apply in_map_iff in Hnew as [o [<- Ho]].
  cbn [enqueue scanId timestamp queuedOpp].
  split; [reflexivity|]. split; [reflexivity|].
  unfold rankOpportunities in Ho.
  apply (Permutation_in _ (sort_perm _ _)) in Ho.
  destruct (filtered_entry st opps o Ho) as [raw [Hraw [-> Hkeep]]].
  destruct (kept_thresholds st raw Hkeep) as [Hp [Hl [Hc Hv]]].
  split; [exists raw; repeat split; assumption|].
  cbv zeta.
  change (profitability (sized raw)) with (profitability raw).
  change (liquidity (sized raw)) with (liquidity raw).
  change (confidence (sized raw)) with (confidence raw).
  change (calculateOptimalTradeSize (sized raw))
    with (calculateOptimalTradeSize raw).
  split; [exact Hp|]. split; [exact Hl|]. split; [exact Hc|].
  split; [reflexivity|]. split; [reflexivity|].
  split; [apply tradeSize_bounds|].
  split; [intros Np Nm; apply reaches; assumption|].
  split; intros N; apply reaches; trivial.
Qed.

End Queue.

(** An opportunity without [confidence] passes [confidence < 70] and the
    validation; its trade size is [NaN], and it is queued with that
    amount. *)
Example missing_confidence_is_queued_unsized :
  validated noConfidence = true /\
  map (fun q => (token (queuedOpp q), amount (queuedOpp q),
                 expectedProfit (queuedOpp q)))
      (executionQueue
         (scanForOpportunities logOfMillion validated started "SCAN" 0
            (Some [noConfidence])))
  = [("N"%string, Double.Number nan, Double.Number nan)].
Proof. vm_compute. split; reflexivity. Qed.

(** ** Validation *)

(** X12.  [filterOpportunities] validates the opportunity as it came in,
    before [amount] and [expectedProfit] are set.  An opportunity without
    [amount] therefore never passes [validateOpportunity], whatever the
    provider lookup and the gas estimate give (the liquidity check compares
    with [NaN]), so a scan whose opportunities all lack [amount] leaves the
    queue as it was; and with a provider found and no [expectedProfit] the
    gas check never rejects: the opportunity is valid exactly when twice
    its [amount] is within its liquidity. *)
Theorem opportunity_without_amount_fails_validation
    (ln : float -> float) (provider : Opp -> Lookup) (gasCost : Opp -> float)
    (st : State) (id : string) (now : Z) (opps : list Opp) :
  let validate o := valid (validateOpportunity (provider o) (gasCost o) o) in
  (forall o, amount o = Double.Undefined -> validate o = false) /\
  (forall o,
     provider o = Found -> expectedProfit o = Double.Undefined ->
     validate o
     = (Double.toNumber (amount o) * 2
        <=? Double.toNumber (liquidity o))%float) /\
  (Forall (fun o => amount o = Double.Undefined) opps ->
   executionQueue (scanForOpportunities ln validate st id now (Some opps))
   = executionQueue st).
Proof.
  intros validate.
  assert (Hnone : forall o, amount o = Double.Undefined -> validate o = false).
  { intros o Ha. unfold validate, validateOpportunity, sufficient.
    rewrite Ha. cbn [Double.toNumber].
    destruct (provider o); try reflexivity.
    destruct (_ <? gasCost o)%float; [reflexivity|].
    rewrite (DoubleFacts.leb_nan (nan * 2))
      by (left; apply DoubleFacts.mul_nan_l).
    reflexivity. }
  assert (Hsome : forall o,
            provider o = Found -> expectedProfit o = Double.Undefined ->
            validate o
            = (Double.toNumber (amount o) * 2
               <=? Double.toNumber (liquidity o))%float).
  { intros o Hp He. unfold validate, validateOpportunity, sufficient.
    rewrite Hp, He. cbn [Double.toNumber].
    rewrite (DoubleFacts.ltb_nan (nan * 0.3))
      by (left; apply DoubleFacts.mul_nan_l).
    destruct (_ <=? _)%float; reflexivity. }
  split; [exact Hnone|]. split; [exact Hsome|].
  intros Hall. unfold scanForOpportunities.
  destruct (isRunning st); [|reflexivity]. cbn [negb].
  destruct opps as [|o rest]; [reflexivity|].
  assert (E : filterOpportunities validate st (o :: rest) = []).
  { unfold filterOpportunities.
    replace (List.filter (keepOpportunity validate st) (o :: rest))
      with (@nil Opp); [reflexivity|].
    symmetry. induction Hall as [|x l Hx Hl IH]; [reflexivity|].
    cbn [List.filter]. unfold keepOpportunity at 1. rewrite (Hnone x Hx).
    destruct (_ <? _)%float; [exact IH|].
    destruct (_ <? _)%float; [exact IH|].
    destruct (_ <? _)%float; exact IH. }
  rewrite E. cbn. rewrite app_nil_r. reflexivity.
Qed.

(** ** Processing the queue *)

Lemma drain_spec (execute : Queued -> Execution) (queue : list Queued)
    (fuel : nat) (r : Runner) :
  isRunning (engine r) = true ->
  executionQueue (engine r) = queue ->
  (length queue <= fuel)%nat ->
  let r' := drain execute fuel r in
  executionQueue (engine r') = [] /\
  isRunning (engine r') = true /\
  minProfitability (engine r') = minProfitability (engine r) /\
  stats (engine r') = stats (engine r) /\
  processingQueue r' = processingQueue r /\
  executedTrace r' = executedTrace r ++ queue /\
  opportunitiesExecuted r' = (opportunitiesExecuted r + length queue)%nat /\
  successfulExecutions r'
    = (successfulExecutions r
       + length (List.filter (succeeded execute) queue))%nat /\
  totalProfit r'
    == totalProfit r + fold_right Qplus 0 (map (profitOf execute) queue).
Proof.
  revert fuel r. induction queue as [|q rest IH]; intros fuel r Hrun Hq Hfuel.
  - destruct fuel; cbn [drain]; rewrite ?Hrun; cbn [negb];
      unfold shift; rewrite ?Hq; cbn.
    all: rewrite ?app_nil_r, ?Nat.add_0_r.
    all: repeat split; try assumption; try reflexivity; try ring.
  - destruct fuel as [|fuel]; [simpl in Hfuel; lia|].
    cbn [drain]. rewrite Hrun. cbn [negb]. unfold shift. rewrite Hq.
    cbn zeta.
    set (r1 := executeOpportunity execute q _).
    assert (Hrun1 : isRunning (engine r1) = true).
    { unfold r1, executeOpportunity. destruct (execute q); cbn; exact Hrun. }
    assert (Hq1 : executionQueue (engine r1) = rest).
    { unfold r1, executeOpportunity. destruct (execute q); reflexivity. }
    assert (Hfuel1 : (length rest <= fuel)%nat) by (simpl in Hfuel; lia).
    destruct (IH fuel r1 Hrun1 Hq1 Hfuel1)
      as [H1 [H2 [H3 [H4 [H5 [H6 [H7 [H8 H9]]]]]]]].
    split; [exact H1|]. split; [exact H2|].
    rewrite H3, H4, H5, H6, H7, H8, H9.
    unfold r1, executeOpportunity, succeeded, profitOf.
    cbn [map fold_right List.filter length].
    destruct (execute q); cbn; rewrite <- ?app_assoc; cbn.
    all: repeat split; try reflexivity; try lia; try ring.
Qed.


(** ** Instances *)

Lemma trade_size_is_the_minimum_when_the_edge_is_not_positive_witness :
  calculateOptimalTradeSize thinEdge = 1000%float.
Proof.
  apply (trade_size_is_the_minimum_when_the_edge_is_not_positive thinEdge);
    vm_compute; reflexivity.
Defined.

Lemma queued_entries_are_sized_by_the_scan_witness :
  let st := scanForOpportunities logOfMillion validated started "SCAN" 0
              (Some fourOpportunities) in
  length (executionQueue st) = 4%nat /\
  Forall (fun q =>
            (Double.toNumber (confidence (queuedOpp q)) <? 70)%float = false /\
            amount (queuedOpp q)
            = Double.Number (calculateOptimalTradeSize (queuedOpp q)))
         (executionQueue st).
Proof.
  cbv zeta. split; [vm_compute; reflexivity|].
  apply List.Forall_forall. intros q Hq.
  destruct (queued_entries_are_sized_by_the_scan
              logOfMillion validated started "SCAN" 0 fourOpportunities q
              eq_refl Hq)
    as [[]|(_ & _ & _ & _ & _ & Hc & Ha & _)].
  split; assumption.
Defined.


End EngineFacts.

(** ** Facts about the same-chain strategy *)

Module SameChainFacts.
Import JS SameChain EstimatorProofs.

(** What the opportunity built by [analyzePair] holds. *)
Lemma opportunityFor_fields (cfg : Config) (pair : Pair) (chain : string)
    (marketData : gmap string TokenData) (gasPrice : Q) (stamp : string)
    (o : Estimator.Opportunity) :
  opportunityFor cfg pair chain marketData gasPrice stamp = Some o ->
  exists a b,
    marketData !! tokenA pair = Some a /\
    marketData !! tokenB pair = Some b /\
    minVolume pair <= Qmin (volume_24h a) (volume_24h b) /\
    Estimator.priceDelta o = Some (Qabs (current_price a - current_price b)) /\
    Estimator.volume o
      = Some (calculateOptimalTradeSize cfg (Qmin (volume_24h a) (volume_24h b))) /\
    Estimator.gasPrice o = Some gasPrice /\
    Estimator.liquidityA o = Some (volume_24h a) /\
    Estimator.liquidityB o = Some (volume_24h b) /\
    Estimator.chain o = Some chain.
Proof.
  unfold opportunityFor. intros H.
  destruct (marketData !! tokenA pair) as [a|]; [|discriminate].
  destruct (marketData !! tokenB pair) as [b|]; [|discriminate].
  cbv zeta in H.
  destruct (Qlt_bool _ (minVolume pair)) eqn:E; [discriminate|].
  destruct (lt _ _); [discriminate|].
  destruct (dexesOn chain (dexes pair)) as [ds|]; [|discriminate].
  injection H as <-. exists a, b. cbn.
  repeat split; try reflexivity.
  unfold Qlt_bool in E. apply negb_false_iff in E. apply Qle_bool_iff in E.
  exact E.
Qed.

(** What a detected opportunity records of its estimate. *)
Lemma detected_estimate (ecfg : Estimator.Config) (now : Z)
    (o : Estimator.Opportunity) (d : Engine.Detected) :
  Engine.analyzePair ecfg now o = Some d ->
  Estimator.validateOpportunity o = true /\
  Engine.candidate d = o /\
  Engine.detectedConfidence d = Estimator.calculateConfidence ecfg o /\
  exists costs,
    Estimator.calculateCosts ecfg o = Some costs /\
    Engine.estimatedProfit d
      = sub (sub (Estimator.calculateBaseProfit o) (Estimator.total costs))
            (Estimator.calculateSlippageImpact ecfg o) /\
    ge (div (Engine.estimatedProfit d) (toNumber (Estimator.volume o)))
       (Num (Estimator.minProfitThreshold ecfg)) = true.
Proof.
  unfold Engine.analyzePair. intros H.
  destruct (estimateProfit_cases ecfg now o)
    as [[_ Hr] | [[_ [_ Hr]] | [Hv [costs [e [Hc [Hr He]]]]]]];
    rewrite Hr in H; try discriminate.
  destruct He as [Hb [Ht [Hs [Hn [Hp [Hprof [Hconf _]]]]]]].
  cbn iota beta in H.
  destruct (Estimator.est_profitable e) eqn:E; [|discriminate].
  injection H as Hd. subst d.
  cbn [Engine.candidate Engine.detectedConfidence Engine.estimatedProfit].
  split; [exact Hv|]. split; [reflexivity|]. split; [exact Hconf|].
  exists costs. split; [exact Hc|]. split.
  - rewrite Hn, Hb, Ht, Hs. reflexivity.
  - rewrite <- Hp. symmetry. exact Hprof.
Qed.

Lemma tradeSize_positive (cfg : Config) (m : Q) :
  0 < calculateOptimalTradeSize cfg m -> 0 < m.
Proof.
  unfold calculateOptimalTradeSize. intros H.
  pose proof (Q.le_min_l (m * 0.01) (maxTradeSize cfg)). lra.
Qed.

Lemma orDefault_nonzero (q d : Q) : 0 < q -> orDefault (Some q) d = q.
Proof.
  intros H. unfold orDefault. rewrite (Qeq_bool_false_pos q H). reflexivity.
Qed.

(** The confidence of an opportunity built by [analyzePair] at a gas price
    that the chain filter lets through. *)
Lemma built_confidence (cfg : Config) (pair : Pair) (chain : string)
    (marketData : gmap string TokenData) (gasPrice : Q) (stamp : string)
    (o : Estimator.Opportunity) :
  maxGasPriceGwei cfg <= 50 ->
  gasPrice <= maxGasPriceGwei cfg ->
  opportunityFor cfg pair chain marketData gasPrice stamp = Some o ->
  Estimator.validateOpportunity o = true ->
  Estimator.calculateConfidence (estimatorConfig cfg) o = Num 1 \/
  Estimator.calculateConfidence (estimatorConfig cfg) o = Num (1 * 0.7).
Proof.
  intros Hmax Hgas Ho Hv.
  destruct (opportunityFor_fields _ _ _ _ _ _ _ Ho)
    as [a [b [_ [_ [_ [Hd [Hvol [Hg [HA [HB _]]]]]]]]]].
  destruct (validated_fields o Hv) as [p [v [g [_ [Hv' [_ [_ [Pv _]]]]]]]].
  rewrite Hvol in Hv'. injection Hv' as Hv'. rewrite <- Hv' in Pv.
  pose proof (tradeSize_positive cfg _ Pv) as Pm.
  assert (Pa : 0 < volume_24h a).
  { pose proof (Q.le_min_l (volume_24h a) (volume_24h b)). lra. }
  assert (Pb : 0 < volume_24h b).
  { pose proof (Q.le_min_r (volume_24h a) (volume_24h b)). lra. }
  unfold Estimator.calculateConfidence.
  rewrite Hg, HA, HB, Hvol, Hd.
  rewrite (orDefault_nonzero _ _ Pa), (orDefault_nonzero _ _ Pb).
  cbn [toNumber Estimator.maxGasPriceGwei estimatorConfig min mul lift2].
  assert (E1 : gt (Num gasPrice) (Num 50) = false).
  { unfold gt, lt, cmp, Qlt_bool. apply negb_false_iff. apply Qle_bool_iff. lra. }
  rewrite E1.
  assert (E2 : lt (Num (Qmin (volume_24h a) (volume_24h b)))
                  (Num (calculateOptimalTradeSize cfg
                          (Qmin (volume_24h a) (volume_24h b)) * 10)) = false).
  { unfold lt, cmp, Qlt_bool. apply negb_false_iff. apply Qle_bool_iff.
    unfold calculateOptimalTradeSize.
    pose proof (Q.le_min_l (Qmin (volume_24h a) (volume_24h b) * 0.01)
                           (maxTradeSize cfg)).
    lra. }
  rewrite E2.
  destruct (lt _ (Num 0.005)); [right | left]; reflexivity.
Qed.

(** A chain that the filter lets through has a gas price, and that price is
    within the bound. *)
Lemma viable_gas (cfg : Config) (gasPrices : list (string * Q))
    (chain : string) :
  viable cfg gasPrices chain = true ->
  exists g, ownProperty gasPrices chain = Some g /\ g <= maxGasPriceGwei cfg.
Proof.
  unfold viable, getProperty. intros H. apply andb_true_iff in H as [_ H].
  destruct (ownProperty gasPrices chain) as [g|].
  - exists g. split; [reflexivity|]. apply Qle_bool_iff. exact H.
  - destruct (existsb _ _); discriminate.
Qed.

Lemma analyzeAll_member (cfg : Config) (now : Z) (stamp : string)
    (marketData : gmap string TokenData) (gasPrices : list (string * Q))
    (pairs : list Pair) (viableChains : list string) (d : Engine.Detected) :
  In d (analyzeAll cfg now stamp marketData gasPrices pairs viableChains) ->
  exists pair chain g,
    In pair pairs /\ In chain viableChains /\
    ownProperty gasPrices chain = Some g /\
    analyzePair cfg now stamp pair chain marketData g = Some d.
Proof.
  unfold analyzeAll. intros H. apply in_flat_map in H as [pair [Hpair H]].
  apply list_elem_of_In in H. apply list_elem_of_omap in H as [chain [Hchain H]].
  apply list_elem_of_In in Hchain. unfold analyzeOn in H.
  destruct (negb _); [discriminate|].
  destruct (ownProperty gasPrices chain) as [g|] eqn:E; [|discriminate].
  exists pair, chain, g. repeat split; assumption.
Qed.

Lemma detected_confidence (cfg : Config) (now : Z) (stamp : string)
    (pair : Pair) (chain : string) (marketData : gmap string TokenData)
    (g : Q) (d : Engine.Detected) :
  maxGasPriceGwei cfg <= 50 -> g <= maxGasPriceGwei cfg ->
  analyzePair cfg now stamp pair chain marketData g = Some d ->
  Engine.detectedConfidence d = Num 1 \/
  Engine.detectedConfidence d = Num (1 * 0.7).
Proof.
  intros Hmax Hg H. unfold analyzePair in H.
  destruct (opportunityFor cfg pair chain marketData g stamp) as [o|] eqn:Ho;
    [|discriminate].
  destruct (detected_estimate _ _ _ _ H) as [Hv [_ [Hc _]]].
  rewrite Hc. apply (built_confidence cfg pair chain marketData g stamp); assumption.
Qed.

Lemma confident_all_executed (l : list Engine.Detected) :
  (forall d, In d l ->
     Engine.detectedConfidence d = Num 1 \/
     Engine.detectedConfidence d = Num (1 * 0.7)) ->
  Engine.executeOpportunities l = l.
Proof.
  unfold Engine.executeOpportunities. induction l as [|d rest IH]; intros H.
  - reflexivity.
  - cbn [List.filter].
    assert (E : negb (lt (Engine.detectedConfidence d) (Num 0.5)) = true).
    { destruct (H d (or_introl eq_refl)) as [-> | ->]; reflexivity. }
    rewrite E. f_equal. apply IH. intros d' Hd'. apply H. right. exact Hd'.
Qed.

Lemma executeEach_effect (cfg : Config) (now : Z) (stamp : string)
    (random : nat -> Q) (i : nat) (l : list Engine.Detected) (st : State) :
  let st' := executeEach cfg now stamp random i l st in
  isRunning st' = isRunning st /\
  opportunities st' = opportunities st /\
  opportunitiesDetected (metrics st') = opportunitiesDetected (metrics st) /\
  lastReset (metrics st') = lastReset (metrics st) /\
  opportunitiesExecuted (metrics st')
    = (opportunitiesExecuted (metrics st)
       + if simulationMode cfg then length l else 0)%nat /\
  length (executionHistory st')
    = (length (executionHistory st)
       + if simulationMode cfg then length l else 0)%nat.
Proof.
  revert i st. induction l as [|d rest IH]; intros i st; cbn [executeEach].
  - destruct (simulationMode cfg); cbn [length]; rewrite !Nat.add_0_r;
      repeat split; reflexivity.
  - destruct (IH (S i) (executeArbitrage cfg now stamp (random i) d st))
      as [H1 [H2 [H3 [H4 [H5 H6]]]]].
    cbv zeta. rewrite H1, H2, H3, H4, H5, H6.
    unfold executeArbitrage. destruct (simulationMode cfg); cbn.
    + rewrite length_app. cbn. repeat split; try reflexivity; lia.
    + repeat split; reflexivity.
Qed.

(** The state a tick leaves, when it gets as far as the analysis. *)
Lemma detect_unfold (cfg : Config) (pairs : list Pair) (inp : Inputs)
    (st : State) :
  let st' := detectOpportunities cfg pairs inp st in
  st' = st \/
  exists sorted,
    Permutation sorted
      (analyzeAll cfg (clock inp) (clockText inp)
         (default ∅ (market inp))
         (getCurrentGasPrices (gasDraw1 inp) (gasDraw2 inp)) pairs
         (List.filter (viable cfg (getCurrentGasPrices (gasDraw1 inp)
                                                       (gasDraw2 inp)))
                      (chains cfg))) /\
    isRunning st' = isRunning st /\
    opportunities st' = sorted /\
    lastReset (metrics st') = lastReset (metrics st) /\
    opportunitiesDetected (metrics st')
      = (opportunitiesDetected (metrics st) + length sorted)%nat /\
    opportunitiesExecuted (metrics st')
      = (opportunitiesExecuted (metrics st)
         + if simulationMode cfg
           then length (Engine.executeOpportunities (firstn 3 sorted))
           else 0)%nat /\
    length (executionHistory st')
      = (length (executionHistory st)
         + if simulationMode cfg
           then length (Engine.executeOpportunities (firstn 3 sorted))
           else 0)%nat.
Proof.
  unfold detectOpportunities.
  destruct (negb (isRunning st)); [left; reflexivity|].
  cbv zeta.
  destruct (List.filter _ (chains cfg)) as [|c cs] eqn:Ef; [left; reflexivity|].
  destruct (market inp) as [marketData|]; [|left; reflexivity].
  right. eexists. split; [apply EngineProofs.sort_perm|].
  unfold executeOpportunities.
  match goal with
  | |- context [executeEach ?c ?n ?s ?r ?i ?l ?st0] =>
      destruct (executeEach_effect c n s r i l st0)
        as [H1 [H2 [H3 [H4 [H5 H6]]]]]
  end.
  cbv zeta in H1, H2, H3, H4, H5, H6.
  rewrite H1, H2, H3, H4, H5, H6. cbn. repeat split; reflexivity.
Qed.

(** X7.  When the configured gas ceiling of [SameChainArbitrage] does not
    exceed the 50 gwei of its estimator, every opportunity that a tick of
    [detectOpportunities] detects carries the confidence 1 or 0.7, never
    less than the 0.5 below which [executeOpportunities] skips: the skip
    never fires.  The tick adds the number [n] of detections to
    [opportunitiesDetected], and in simulation mode it executes the best
    [min 3 n] of them; outside simulation mode it executes none. *)
Theorem detected_opportunities_clear_the_confidence_bar
    (cfg : Config) (pairs : list Pair) (inp : Inputs) (st : State) :
  maxGasPriceGwei cfg <= 50 ->
  let st' := detectOpportunities cfg pairs inp st in
  (forall d, In d (opportunities st') ->
     In d (opportunities st) \/
     Engine.detectedConfidence d = Num 1 \/
     Engine.detectedConfidence d = Num (1 * 0.7)) /\
  exists n,
    opportunitiesDetected (metrics st')
      = (opportunitiesDetected (metrics st) + n)%nat /\
    opportunitiesExecuted (metrics st')
      = (opportunitiesExecuted (metrics st)
         + if simulationMode cfg then Nat.min 3 n else 0)%nat.
Proof.
  intros Hmax st'. subst st'.
  destruct (detect_unfold cfg pairs inp st)
    as [E | [sorted [Hperm [_ [Hopp [_ [Hdet [Hexe _]]]]]]]].
  - cbv zeta in E. rewrite E. split; [intros d Hd; left; exact Hd|].
    exists 0%nat. destruct (simulationMode cfg); cbn; rewrite !Nat.add_0_r;
      split; reflexivity.
  - assert (Hconf : forall d, In d sorted ->
              Engine.detectedConfidence d = Num 1 \/
              Engine.detectedConfidence d = Num (1 * 0.7)).
    { intros d Hd. apply (Permutation_in _ Hperm) in Hd.
      apply analyzeAll_member in Hd as [pair [chain [g [_ [Hc [Hg Hd]]]]]].
      apply filter_In in Hc as [_ Hc].
      destruct (viable_gas _ _ _ Hc) as [g' [Hg' Hle]].
      rewrite Hg in Hg'. injection Hg' as <-.
      exact (detected_confidence cfg _ _ pair chain _ g d Hmax Hle Hd). }
    cbv zeta in Hopp, Hdet, Hexe. split.
    + intros d Hd. right. apply Hconf. rewrite Hopp in Hd. exact Hd.
    + exists (length sorted). split; [exact Hdet|].
      rewrite Hexe. rewrite confident_all_executed.
      * rewrite length_firstn. reflexivity.
      * intros d Hd. apply Hconf.
        rewrite <- (firstn_skipn 3 sorted). apply in_or_app. left. exact Hd.
Qed.


(** ** Counters *)

Lemma counted_step (cfg : Config) (pairs : list Pair) (st : State)
    (ev : Event) :
  counted st -> counted (step cfg pairs st ev).
Proof.
  intros [Hle Hlen]. destruct ev as [inp|now|]; cbn [step].
  - destruct (detect_unfold cfg pairs inp st)
      as [E | [sorted [_ [_ [_ [_ [Hdet [Hexe Hhist]]]]]]]];
      cbv zeta in *.
    + rewrite E. split; assumption.
    + unfold counted. rewrite Hdet, Hexe, Hhist.
      pose proof (EngineProofs.executeOpportunities_length (firstn 3 sorted)).
      pose proof (firstn_le_length 3 sorted).
      pose proof (length_firstn 3 sorted).
      destruct (simulationMode cfg); lia.
  - split; cbn; [lia | reflexivity].
  - split; cbn; assumption.
Qed.

Lemma counted_run (cfg : Config) (pairs : list Pair) (evs : list Event)
    (st : State) :
  counted st -> counted (runEvents cfg pairs st evs).
Proof.
  revert st. induction evs as [|ev rest IH]; intros st H; cbn.
  - exact H.
  - apply IH. apply counted_step. exact H.
Qed.

(** X9.  From the state in which [start] leaves the strategy, after any
    sequence of detection ticks, [resetMetrics] and [reportMetrics], handled
    one after the other: the counter of executions never exceeds the counter
    of detections, the execution history holds exactly one entry per
    execution counted, and the success rate that [reportMetrics] computes is
    a number between 0 and 100 (it never divides by zero). *)
Theorem executions_never_outnumber_detections
    (cfg : Config) (pairs : list Pair) (now : Z) (evs : list Event) :
  let st := runEvents cfg pairs (started now) evs in
  (opportunitiesExecuted (metrics st) <= opportunitiesDetected (metrics st))%nat
  /\ length (executionHistory st) = opportunitiesExecuted (metrics st)
  /\ exists rate,
       successRate (metrics (reportMetrics st)) = Num rate /\
       0 <= rate /\ rate <= 100.
Proof.
  intros st.
  assert (H : counted st).
  { apply counted_run. split; cbn; [lia | reflexivity]. }
  destruct H as [Hle Hlen]. split; [exact Hle|]. split; [exact Hlen|].
  cbn [reportMetrics metrics successRate].
  destruct (0 <? opportunitiesExecuted (metrics st))%nat eqn:E.
  - apply Nat.ltb_lt in E.
    set (e := opportunitiesExecuted (metrics st)) in *.
    set (n := opportunitiesDetected (metrics st)) in *.
    assert (Pn : 0 < inject_Z (Z.of_nat n)).
    { rewrite <- (Zlt_Qlt 0). lia. }
    assert (Pe : 0 <= inject_Z (Z.of_nat e)).
    { rewrite <- (Zle_Qle 0). lia. }
    assert (Hen : inject_Z (Z.of_nat e) <= inject_Z (Z.of_nat n)).
    { rewrite <- Zle_Qle. lia. }
    cbn [div mul lift2]. rewrite (Qeq_bool_false_pos _ Pn). cbn [mul lift2].
    eexists. split; [reflexivity|]. split.
    + apply Qmult_le_0_compat; [|lra].
      apply Qle_shift_div_l; [exact Pn | lra].
    + assert (inject_Z (Z.of_nat e) / inject_Z (Z.of_nat n) <= 1).
      { apply Qle_shift_div_r; [exact Pn | lra]. }
      lra.
  - exists 0. split; [reflexivity|]. split; lra.
Qed.

(** ** Instances *)

Lemma detected_opportunities_clear_the_confidence_bar_witness :
  let st' := detectOpportunities (defaultConfig true) targetPairs calmTick
               (started 0) in
  length (opportunities st') = 2%nat /\
  Forall (fun d => Engine.detectedConfidence d = Num 1 \/
                   Engine.detectedConfidence d = Num (1 * 0.7))
         (opportunities st').
Proof.
  cbv zeta. split; [vm_compute; reflexivity|].
  apply List.Forall_forall. intros d Hd.
  destruct (proj1 (detected_opportunities_clear_the_confidence_bar
                     (defaultConfig true) targetPairs calmTick (started 0)
                     ltac:(qdecide)) d Hd) as [[]|H].
  exact H.
Defined.


End SameChainFacts.

(** ** Facts about the coordinator *)

Module CoordinatorFacts.
Import Coordinator CoordinatorMore CoordinatorProofs.

#[local] Hint Unfold getClient getHealth getMetrics getBreaker getLoadStats
  setClient setHealth setMetrics setBreaker setLoadStats messageOf discard
  : coordinator.

(** ** Selection strategies *)

Lemma leastLoadedLoop_minimal (s : State) (l : list string) (best : string)
    (load : Z) (cb : ClientInfo) (n : string) :
  clients s !! best = Some cb -> requestCount cb = load ->
  leastLoadedLoop s l best load = Ok n ->
  exists cn,
    clients s !! n = Some cn /\ (requestCount cn <= load)%Z /\
    forall x, In x l ->
      exists cx, clients s !! x = Some cx /\
                 (requestCount cn <= requestCount cx)%Z.
Proof.
  revert best load cb. induction l as [|y rest IH]; intros best load cb Hb Hl H.
  - injection H as <-. exists cb. split; [exact Hb|]. split; [lia|].
    intros x [].
  - cbn [leastLoadedLoop] in H.
    destruct (clients s !! y) as [cy|] eqn:Ey; [|discriminate].
    destruct (requestCount cy <? load)%Z eqn:E.
    + apply Z.ltb_lt in E.
      destruct (IH y (requestCount cy) cy Ey eq_refl H) as [cn [Hn [Hle Hall]]].
      exists cn. split; [exact Hn|]. split; [lia|].
      intros x [<-|Hx]; [exists cy; split; [exact Ey | exact Hle] | apply Hall; exact Hx].
    + apply Z.ltb_ge in E.
      destruct (IH best load cb Hb Hl H) as [cn [Hn [Hle Hall]]].
      exists cn. split; [exact Hn|]. split; [exact Hle|].
      intros x [<-|Hx]; [exists cy; split; [exact Ey | lia] | apply Hall; exact Hx].
Qed.

Lemma leastLoadedLoop_total (s : State) (l : list string) (best : string)
    (load : Z) :
  (forall x, In x l -> is_Some (clients s !! x)) ->
  exists n, leastLoadedLoop s l best load = Ok n.
Proof.
  revert best load. induction l as [|y rest IH]; intros best load H.
  - exists best. reflexivity.
  - cbn [leastLoadedLoop].
    destruct (H y (or_introl eq_refl)) as [cy Ey]. rewrite Ey.
    destruct (_ <? _)%Z; apply IH; intros x Hx; apply H; right; exact Hx.
Qed.

(** X14.  On a non-empty list of registered clients [selectByLeastLoaded]
    returns a client of the list whose [requestCount] is the smallest of the
    list, and changes nothing. *)
Theorem least_loaded_selection_has_the_fewest_requests_in_flight
    (s : State) (l : list string) :
  l <> [] ->
  (forall x, In x l -> is_Some (clients s !! x)) ->
  exists n cn,
    selectByLeastLoaded l s = (Ok (Some n), s) /\
    In n l /\ clients s !! n = Some cn /\
    forall x, In x l ->
      exists cx, clients s !! x = Some cx /\
                 (requestCount cn <= requestCount cx)%Z.
Proof.
  intros Hne Hall. destruct l as [|first rest]; [congruence|]. clear Hne.
  destruct (Hall first (or_introl eq_refl)) as [cf Ef].
  destruct (leastLoadedLoop_total s (first :: rest) first (requestCount cf) Hall)
    as [n Hn].
  destruct (leastLoadedLoop_minimal s _ first _ cf n Ef eq_refl Hn)
    as [cn [Hcn [_ Hmin]]].
  exists n, cn. split; [|split; [|split; [exact Hcn | exact Hmin]]].
  - unfold selectByLeastLoaded, getClient, liftRes, bind, get, defined, ret.
    rewrite Ef. cbn. rewrite Ef. cbn in Hn. rewrite Ef in Hn.
    destruct (_ <? _)%Z; rewrite Hn; reflexivity.
  - apply leastLoadedLoop_member in Hn. destruct Hn as [->|Hn];
      [left; reflexivity | exact Hn].
Qed.

(** [fasterThan] is a strict order on response times with [Infinity]. *)
Lemma fasterThan_false_trans (a b c : option Q) :
  fasterThan b a = false -> fasterThan c b = false -> fasterThan c a = false.
Proof.
  destruct a as [x|], b as [y|], c as [z|]; cbn; try congruence.
  unfold JS.Qlt_bool. rewrite !negb_false_iff, !Qle_bool_iff. intros; lra.
Qed.

Lemma fasterThan_below (a b c : option Q) :
  fasterThan b a = true -> fasterThan b c = false -> fasterThan a c = false.
Proof.
  destruct a as [x|], b as [y|], c as [z|]; cbn; try congruence.
  unfold JS.Qlt_bool. rewrite negb_true_iff, !negb_false_iff, !Qle_bool_iff.
  intros H1 H2. apply EstimatorProofs.Qle_bool_false in H1. lra.
Qed.

Lemma fasterThan_irrefl (a : option Q) : fasterThan a a = false.
Proof.
  destruct a as [x|]; cbn; [|reflexivity].
  unfold JS.Qlt_bool. apply negb_false_iff. apply Qle_bool_iff. lra.
Qed.

Lemma fastestLoop_minimal (s : State) (l : list string) (best : string)
    (fastest : option Q) (cb : ClientInfo) (n : string) :
  clients s !! best = Some cb -> responseTimeOrInfinity cb = fastest ->
  fastestLoop s l best fastest = Ok n ->
  exists cn,
    clients s !! n = Some cn /\
    fasterThan fastest (responseTimeOrInfinity cn) = false /\
    forall x, In x l ->
      exists cx, clients s !! x = Some cx /\
                 fasterThan (responseTimeOrInfinity cx)
                            (responseTimeOrInfinity cn) = false.
Proof.
  revert best fastest cb.
  induction l as [|y rest IH]; intros best fastest cb Hb Hl H.
  - injection H as <-. exists cb. split; [exact Hb|]. rewrite Hl.
    split; [apply fasterThan_irrefl|]. intros x [].
  - cbn [fastestLoop] in H.
    destruct (clients s !! y) as [cy|] eqn:Ey; [|discriminate].
    destruct (fasterThan (responseTimeOrInfinity cy) fastest) eqn:E.
    + destruct (IH y _ cy Ey eq_refl H) as [cn [Hn [Hle Hall]]].
      exists cn. split; [exact Hn|]. split.
      * apply (fasterThan_below _ _ _ E Hle).
      * intros x [<-|Hx];
          [exists cy; split; [exact Ey | exact Hle] | apply Hall; exact Hx].
    + destruct (IH best fastest cb Hb Hl H) as [cn [Hn [Hle Hall]]].
      exists cn. split; [exact Hn|]. split; [exact Hle|].
      intros x [<-|Hx]; [|apply Hall; exact Hx].
      exists cy. split; [exact Ey|].
      apply (fasterThan_false_trans _ _ _ Hle E).
Qed.

Lemma fastestLoop_total (s : State) (l : list string) (best : string)
    (fastest : option Q) :
  (forall x, In x l -> is_Some (clients s !! x)) ->
  exists n, fastestLoop s l best fastest = Ok n.
Proof.
  revert best fastest. induction l as [|y rest IH]; intros best fastest H.
  - exists best. reflexivity.
  - cbn [fastestLoop].
    destruct (H y (or_introl eq_refl)) as [cy Ey]. rewrite Ey.
    destruct (fasterThan _ _); apply IH; intros x Hx; apply H; right; exact Hx.
Qed.

(** X15.  On a non-empty list of registered clients [selectByFastest]
    returns a client of the list, and changes nothing.  A client with no
    measured response time ([avgResponseTime] 0) counts as infinitely slow:
    every candidate is either unmeasured, or no faster than the selected
    client, which is then itself measured. *)
Theorem fastest_selection_prefers_measured_clients
    (s : State) (l : list string) :
  l <> [] ->
  (forall x, In x l -> is_Some (clients s !! x)) ->
  exists n cn,
    selectByFastest l s = (Ok (Some n), s) /\
    In n l /\ clients s !! n = Some cn /\
    forall x, In x l ->
      exists cx, clients s !! x = Some cx /\
                 (avgResponseTime cx == 0 \/
                  (~ avgResponseTime cn == 0 /\
                   avgResponseTime cn <= avgResponseTime cx)).
Proof.
  intros Hne Hall. destruct l as [|first rest]; [congruence|]. clear Hne.
  destruct (Hall first (or_introl eq_refl)) as [cf Ef].
  destruct (fastestLoop_total s (first :: rest) first
              (responseTimeOrInfinity cf) Hall) as [n Hn].
  destruct (fastestLoop_minimal s _ first _ cf n Ef eq_refl Hn)
    as [cn [Hcn [_ Hmin]]].
  exists n, cn. split; [|split; [|split; [exact Hcn|]]].
  - unfold selectByFastest, getClient, liftRes, bind, get, defined, ret.
    rewrite Ef. cbn. rewrite Ef. cbn in Hn. rewrite Ef in Hn.
    destruct (fasterThan _ _); rewrite Hn; reflexivity.
  - apply fastestLoop_member in Hn. destruct Hn as [->|Hn];
      [left; reflexivity | exact Hn].
  - intros x Hx. destruct (Hmin x Hx) as [cx [Ecx Hf]].
    exists cx. split; [exact Ecx|].
    unfold responseTimeOrInfinity in Hf.
    destruct (Qeq_bool (avgResponseTime cx) 0) eqn:Zx.
    + left. apply Qeq_bool_iff. exact Zx.
    + right. destruct (Qeq_bool (avgResponseTime cn) 0) eqn:Zn;
        cbn in Hf; [discriminate|].
      split; [apply Qeq_bool_neq; exact Zn|].
      unfold JS.Qlt_bool in Hf. apply negb_false_iff in Hf.
      apply Qle_bool_iff. exact Hf.
Qed.

Lemma priorityLoop_minimal (s : State) (l : list string) (best : string)
    (rank : nat) (cb : ClientConfig) (n : string) :
  lookupConfig (configs s) best = Some cb ->
  priorityRank (priority cb) = rank ->
  priorityLoop s l best rank = Ok n ->
  exists cn,
    lookupConfig (configs s) n = Some cn /\
    (priorityRank (priority cn) <= rank)%nat /\
    forall x, In x l ->
      exists cx, lookupConfig (configs s) x = Some cx /\
                 (priorityRank (priority cn) <= priorityRank (priority cx))%nat.
Proof.
  revert best rank cb. induction l as [|y rest IH]; intros best rank cb Hb Hl H.
  - injection H as <-. exists cb. split; [exact Hb|]. split; [lia|].
    intros x [].
  - cbn [priorityLoop] in H.
    destruct (lookupConfig (configs s) y) as [cy|] eqn:Ey; [|discriminate].
    destruct (priorityRank (priority cy) <? rank)%nat eqn:E.
    + apply Nat.ltb_lt in E.
      destruct (IH y _ cy Ey eq_refl H) as [cn [Hn [Hle Hall]]].
      exists cn. split; [exact Hn|]. split; [lia|].
      intros x [<-|Hx];
        [exists cy; split; [exact Ey | exact Hle] | apply Hall; exact Hx].
    + apply Nat.ltb_ge in E.
      destruct (IH best rank cb Hb Hl H) as [cn [Hn [Hle Hall]]].
      exists cn. split; [exact Hn|]. split; [exact Hle|].
      intros x [<-|Hx];
        [exists cy; split; [exact Ey | lia] | apply Hall; exact Hx].
Qed.

Lemma priorityLoop_total (s : State) (l : list string) (best : string)
    (rank : nat) :
  (forall x, In x l -> is_Some (lookupConfig (configs s) x)) ->
  exists n, priorityLoop s l best rank = Ok n.
Proof.
  revert best rank. induction l as [|y rest IH]; intros best rank H.
  - exists best. reflexivity.
  - cbn [priorityLoop].
    destruct (H y (or_introl eq_refl)) as [cy Ey]. rewrite Ey.
    destruct (_ <? _)%nat; apply IH; intros x Hx; apply H; right; exact Hx.
Qed.

(** X16.  On a non-empty list of configured clients [selectByPriority]
    returns a client of the list whose rank is the smallest of the list,
    where [high], [medium] and [low] rank 1, 2 and 3 and [critical], whose
    rank 0 is replaced by 999 ([0 || 999]), ranks last: a [critical] client
    is selected only when every candidate is [critical]. *)
Theorem priority_selection_ranks_critical_last
    (s : State) (l : list string) :
  l <> [] ->
  (forall x, In x l -> is_Some (lookupConfig (configs s) x)) ->
  exists n cn,
    selectByPriority l s = (Ok (Some n), s) /\
    In n l /\ lookupConfig (configs s) n = Some cn /\
    (forall x, In x l ->
       exists cx, lookupConfig (configs s) x = Some cx /\
                  (priorityRank (priority cn) <= priorityRank (priority cx))%nat) /\
    (forall x cx, In x l -> lookupConfig (configs s) x = Some cx ->
                  priority cx <> Critical -> priority cn <> Critical).
Proof.
  intros Hne Hall. destruct l as [|first rest]; [congruence|]. clear Hne.
  destruct (Hall first (or_introl eq_refl)) as [cf Ef].
  destruct (priorityLoop_total s (first :: rest) first
              (priorityRank (priority cf)) Hall) as [n Hn].
  destruct (priorityLoop_minimal s _ first _ cf n Ef eq_refl Hn)
    as [cn [Hcn [_ Hmin]]].
  exists n, cn. split; [|split; [|split; [exact Hcn|split; [exact Hmin|]]]].
  - assert (Hn' : priorityLoop s rest first (priorityRank (priority cf)) = Ok n).
    { cbn [priorityLoop] in Hn. rewrite Ef, Nat.ltb_irrefl in Hn. exact Hn. }
    unfold selectByPriority, liftRes, bind, get, defined, ret.
    rewrite Ef. cbn [priorityLoop]. rewrite Ef, Nat.ltb_irrefl, Hn'.
    reflexivity.
  - apply priorityLoop_member in Hn. destruct Hn as [->|Hn];
      [left; reflexivity | exact Hn].
  - intros x cx Hx Ecx Hnc Hcrit. destruct (Hmin x Hx) as [cx' [Ecx' Hle]].
    rewrite Ecx in Ecx'. injection Ecx' as <-. rewrite Hcrit in Hle.
    destruct (priority cx); cbn in Hle; try lia. congruence.
Qed.

(** ** Round robin *)

Lemma lookups_all {X : Type} (l : list X) :
  map (fun i => l !! i) (seq 0 (length l)) = map Some l.
Proof.
  induction l as [|x rest IH]; [reflexivity|].
  cbn [length seq map]. f_equal.
  rewrite <- seq_shift, map_map. exact IH.
Qed.

Lemma lookups_from {X : Type} (l : list X) (r : nat) :
  map (fun i => l !! (r + i)%nat) (seq 0 (length l - r)) = map Some (drop r l).
Proof.
  rewrite <- (lookups_all (drop r l)), length_drop.
  apply map_ext. intros i. symmetry. apply lookup_drop.
Qed.

Lemma lookups_upto {X : Type} (l : list X) (r : nat) :
  (r <= length l)%nat ->
  map (fun i => l !! i) (seq 0 r) = map Some (take r l).
Proof.
  intros Hr. rewrite <- (lookups_all (take r l)), length_take.
  replace (r `min` length l)%nat with r by lia.
  apply map_ext_in. intros i Hi. apply in_seq in Hi.
  symmetry. apply lookup_take_lt. lia.
Qed.

Lemma rotation {X : Type} (l : list X) (c : nat) :
  l <> [] ->
  map (fun i => l !! ((c + i) mod length l)%nat) (seq 0 (length l))
  = map Some (drop (c mod length l) l ++ take (c mod length l) l).
Proof.
  intros Hne. set (n := length l).
  assert (Hn : (0 < n)%nat).
  { unfold n. destruct l; [congruence | cbn; lia]. }
  set (r := (c mod n)%nat).
  assert (Hr : (r < n)%nat) by (apply Nat.mod_upper_bound; lia).
  assert (Hseq : seq 0 n = seq 0 (n - r) ++ seq (n - r) r).
  { pose proof (seq_app (n - r) r 0) as H. cbn [Nat.add] in H.
    rewrite <- H. f_equal. lia. }
  rewrite Hseq, !map_app. f_equal.
  - rewrite <- (lookups_from l r). fold n.
    apply map_ext_in. intros i Hi. apply in_seq in Hi. f_equal.
    rewrite Nat.Div0.add_mod by lia. fold r.
    rewrite (Nat.mod_small i n) by lia. apply Nat.mod_small. lia.
  - rewrite <- (lookups_upto l r) by (fold n; lia).
    replace (seq (n - r) r) with (map (fun j => (n - r + j)%nat) (seq 0 r)).
    + rewrite map_map. apply map_ext_in. intros j Hj. apply in_seq in Hj.
      f_equal. rewrite Nat.Div0.add_mod by lia. fold r.
      rewrite (Nat.mod_small (n - r + j) n) by lia.
      replace (r + (n - r + j))%nat with (j + 1 * n)%nat by lia.
      rewrite Nat.Div0.mod_add. apply Nat.mod_small. lia.
    + assert (G : forall k b a,
                seq (a + b) k = map (fun j => (a + j)%nat) (seq b k)).
      { clear. induction k as [|k IH]; intros b a; [reflexivity|].
        cbn [seq map]. f_equal. rewrite <- IH. f_equal. lia. }
      rewrite <- (G r 0%nat (n - r)%nat). f_equal. lia.
Qed.

(** One selection. *)
Lemma selectByRoundRobin_run (l : list string) (s : State) :
  selectByRoundRobin l s =
  (Ok (l !! (default 0%nat (roundRobinCounters s !! String.concat "," l)
             mod length l)%nat),
   withCounters
     (insert (String.concat "," l)
             (S (default 0%nat (roundRobinCounters s !! String.concat "," l))))
     s).
Proof. reflexivity. Qed.

Lemma roundRobinTimes_run (k : nat) (l : list string) (s : State) :
  let c := default 0%nat (roundRobinCounters s !! String.concat "," l) in
  fst (roundRobinTimes k l s)
    = map (fun i => l !! ((c + i) mod length l)%nat) (seq 0 k) /\
  default 0%nat
    (roundRobinCounters (snd (roundRobinTimes k l s)) !! String.concat "," l)
    = (c + k)%nat.
Proof.
  revert s. induction k as [|k IH]; intros s c; subst c.
  - cbn. split; [reflexivity | lia].
  - cbn [roundRobinTimes]. rewrite selectByRoundRobin_run.
    set (c := default 0%nat (roundRobinCounters s !! String.concat "," l)).
    set (s1 := withCounters _ s).
    specialize (IH s1). cbv zeta in IH.
    assert (E : default 0%nat (roundRobinCounters s1 !! String.concat "," l)
                = S c).
    { unfold s1. cbn [withCounters roundRobinCounters].
      rewrite lookup_insert_eq. reflexivity. }
    rewrite E in IH. destruct IH as [IH1 IH2].
    destruct (roundRobinTimes k l s1) as [later s2]. cbn [fst snd] in *.
    split.
    + cbn [seq map]. f_equal; [rewrite Nat.add_0_r; reflexivity|].
      rewrite IH1, <- seq_shift, map_map. apply map_ext. intros i.
      f_equal. f_equal. lia.
    + rewrite IH2. lia.
Qed.

(** X17.  As many consecutive calls of [selectByRoundRobin] on a non-empty
    list as the list has entries return every entry, each one as often as
    it occurs in the list, in the order of the list starting at the counter
    of the list modulo its length; the counter advances by the length of
    the list. *)
Theorem round_robin_visits_every_candidate_once
    (l : list string) (s : State) :
  l <> [] ->
  let key := String.concat "," l in
  let c := default 0%nat (roundRobinCounters s !! key) in
  let r := roundRobinTimes (length l) l s in
  fst r = map Some (drop (c mod length l) l ++ take (c mod length l) l) /\
  Permutation (fst r) (map Some l) /\
  default 0%nat (roundRobinCounters (snd r) !! key) = (c + length l)%nat.
Proof.
  intros Hne key c r. subst key c r.
  destruct (roundRobinTimes_run (length l) l s) as [H1 H2].
  cbv zeta in H1, H2.
  assert (E : fst (roundRobinTimes (length l) l s)
              = map Some (drop (default 0%nat
                                  (roundRobinCounters s !! String.concat "," l)
                                mod length l) l
                          ++ take (default 0%nat
                                     (roundRobinCounters s !! String.concat "," l)
                                   mod length l) l)).
  { rewrite H1. apply rotation. exact Hne. }
  split; [exact E|]. split; [|exact H2].
  rewrite E. apply Permutation_map.
  eapply perm_trans; [apply Permutation_app_comm|].
  rewrite take_drop. apply Permutation_refl.
Qed.

(** ** Retries *)

Lemma retryFrom_spec (operation : nat -> Outcome) (retryDelay maxDelay : Z)
    (maxRetries : nat) (remaining attempt : nat) (lastError : option string) :
  (attempt + remaining = maxRetries + 1)%nat ->
  let r := retryFrom operation retryDelay maxDelay maxRetries attempt
                     remaining lastError in
  (attempts r <= remaining)%nat /\
  (0 < remaining -> 0 < attempts r)%nat /\
  slept r = map (backoff retryDelay maxDelay) (seq attempt (attempts r - 1)) /\
  match settled r with
  | Returned value =>
      (0 < attempts r)%nat /\
      operation (attempt + attempts r - 1)%nat = Resolved value /\
      forall j, (attempt <= j < attempt + attempts r - 1)%nat ->
                exists message, operation j = Rejected message
  | ThrewError message =>
      attempts r = remaining /\
      (forall j, (attempt <= j < attempt + remaining)%nat ->
                 exists message', operation j = Rejected message') /\
      (if remaining is O then lastError = Some message
       else operation maxRetries = Rejected message)
  | ThrewUndefined => remaining = O /\ lastError = None
  end.
Proof.
  revert attempt lastError.
  induction remaining as [|remaining IH]; intros attempt lastError Hsum r;
    subst r; cbn [retryFrom].
  - cbn [attempts slept settled]. split; [lia|]. split; [lia|].
    split; [reflexivity|].
    destruct lastError as [message|].
    + split; [reflexivity|]. split; [intros j Hj; lia | reflexivity].
    + split; reflexivity.
  - destruct (operation attempt) as [value|message] eqn:Eop.
    + cbn [attempts slept settled]. split; [lia|]. split; [lia|].
      split; [reflexivity|]. split; [lia|]. split.
      * replace (attempt + 1 - 1)%nat with attempt by lia. exact Eop.
      * intros j Hj. lia.
    + cbv zeta. cbn [attempts slept settled].
      specialize (IH (S attempt) (Some message)).
      destruct IH as [H1 [H2 [H3 H4]]]; [lia|].
      set (later := retryFrom operation retryDelay maxDelay maxRetries
                              (S attempt) remaining (Some message)) in *.
      split; [lia|]. split; [lia|]. split.
      * rewrite H3. replace (S (attempts later) - 1)%nat with (attempts later)
          by lia.
        destruct remaining as [|remaining'].
        -- assert (attempts later = 0)%nat as -> by lia.
           assert (E : (attempt <? maxRetries)%nat = false)
             by (apply Nat.ltb_ge; lia).
           rewrite E. reflexivity.
        -- assert (E : (attempt <? maxRetries)%nat = true)
             by (apply Nat.ltb_lt; lia).
           rewrite E.
           destruct (attempts later) as [|k] eqn:Ek; [lia|].
           cbn [seq map app]. replace (S k - 1)%nat with k by lia.
           reflexivity.
      * destruct (settled later) as [value|message'|].
        -- destruct H4 as [Hpos [Hop Hrej]]. split; [lia|]. split.
           ++ replace (attempt + S (attempts later) - 1)%nat
                with (S attempt + attempts later - 1)%nat by lia.
              exact Hop.
           ++ intros j Hj. destruct (decide (j = attempt)) as [->|Hne].
              ** exists message. exact Eop.
              ** apply Hrej. lia.
        -- destruct H4 as [Hatt [Hrej Hlast]]. split; [lia|]. split.
           ++ intros j Hj. destruct (decide (j = attempt)) as [->|Hne].
              ** exists message. exact Eop.
              ** apply Hrej. lia.
           ++ destruct remaining as [|remaining'].
              ** injection Hlast as <-.
                 replace maxRetries with attempt by lia. exact Eop.
              ** exact Hlast.
        -- destruct H4 as [_ H4]. discriminate H4.
Qed.

(** X18.  [withRetry] calls the operation at most [maxRetries] times,
    and sleeps between two consecutive attempts
    [min (retryDelay * 2 ^ (attempt - 1)) maxDelay], so never longer than
    [maxDelay].  It returns the value of the first attempt that resolves,
    every attempt before it having been rejected; when all [maxRetries]
    attempts are rejected it throws the error of the last one; and with
    [maxRetries] 0 it throws [undefined] without calling the operation. *)
Theorem retries_are_bounded_and_backed_off
    (operation : nat -> Outcome) (retryDelay maxDelay : Z) (maxRetries : nat) :
  let r := withRetry operation retryDelay maxDelay maxRetries in
  (attempts r <= maxRetries)%nat /\
  slept r = map (backoff retryDelay maxDelay) (seq 1 (attempts r - 1)) /\
  (forall delay, In delay (slept r) -> (delay <= maxDelay)%Z) /\
  match settled r with
  | Returned value =>
      (0 < attempts r)%nat /\
      operation (attempts r) = Resolved value /\
      forall j, (1 <= j < attempts r)%nat ->
                exists message, operation j = Rejected message
  | ThrewError message =>
      attempts r = maxRetries /\
      operation maxRetries = Rejected message /\
      forall j, (1 <= j <= maxRetries)%nat ->
                exists message', operation j = Rejected message'
  | ThrewUndefined => maxRetries = O /\ attempts r = O
  end.
Proof.
  intros r. subst r. unfold withRetry.
  destruct (retryFrom_spec operation retryDelay maxDelay maxRetries
              maxRetries 1 None) as [H1 [H2 [H3 H4]]]; [lia|].
  set (r := retryFrom _ _ _ _ _ _ _) in *.
  split; [exact H1|]. split; [exact H3|]. split.
  - intros delay Hin. rewrite H3 in Hin. apply in_map_iff in Hin as [k [<- _]].
    unfold backoff. lia.
  - destruct (settled r) as [value|message|].
    + destruct H4 as [Hpos [Hop Hrej]]. split; [exact Hpos|]. split.
      * replace (attempts r) with (1 + attempts r - 1)%nat by lia. exact Hop.
      * intros j Hj. apply Hrej. lia.
    + destruct H4 as [Hatt [Hrej Hlast]]. split; [exact Hatt|].
      destruct maxRetries as [|k]; [discriminate Hlast|].
      split; [exact Hlast|]. intros j Hj. apply Hrej. lia.
    + destruct H4 as [-> _]. split; [reflexivity|]. lia.
Qed.

(** ** Running a straight-line method *)

Ltac run_unfold :=
  unfold getClient, getHealth, getMetrics, getBreaker, getLoadStats,
    setClient, setHealth, setMetrics, setBreaker, setLoadStats, messageOf,
    bind, get, defined, ret, throw, modify, tryCatch;
  cbn beta iota zeta.

Ltac run_cases :=
  repeat
    (state_fields;
     match goal with
     | |- context [match ?m !! ?k with _ => _ end] =>
         let E := fresh "E" in destruct (m !! k) eqn:E
     | |- context [match lookupConfig ?l ?k with _ => _ end] =>
         let E := fresh "E" in destruct (lookupConfig l k) eqn:E
     | |- context [match ?e with TypeError => _ | _ => _ end] => destruct e
     | |- context [if ?c then _ else _] =>
         let E := fresh "E" in destruct c eqn:E
     end);
  state_fields.

(** ** Breakers and their counters *)

Section Breakers.
Variable threshold : nat.
Hypothesis threshold_positive : (0 < threshold)%nat.

Local Abbreviation consistent := (breakersConsistent threshold).

Lemma consistent_insert (name : string) (b : Breaker) (s : State) :
  breakerConsistent threshold b -> consistent s ->
  consistent (withBreakers (insert name b) s).
Proof.
  intros Hb [Hc Hs]. split; [exact Hc|]. intros n b'. state_fields.
  destruct (decide (name = n)) as [->|Hne].
  - rewrite lookup_insert_eq. intros [= <-]. exact Hb.
  - rewrite lookup_insert_ne by exact Hne. apply Hs.
Qed.

Lemma consistent_closed (lastFailure retry : option Z) :
  breakerConsistent threshold
    {| isOpen := false; failureCount := 0; lastFailureTime := lastFailure;
       nextRetryTime := retry |}.
Proof.
  split; cbn; [|discriminate]. split; [discriminate | lia].
Qed.

Lemma consistent_failure (b : Breaker) (now timeout : Z) :
  breakerConsistent threshold b ->
  breakerConsistent threshold
    (if (threshold <=? S (failureCount b))%nat
     then {| isOpen := true; failureCount := S (failureCount b);
             lastFailureTime := Some now;
             nextRetryTime := Some (now + timeout)%Z |}
     else {| isOpen := isOpen b; failureCount := S (failureCount b);
             lastFailureTime := Some now;
             nextRetryTime := nextRetryTime b |}).
Proof.
  intros [Hiff Hretry]. destruct (threshold <=? _)%nat eqn:E.
  - apply Nat.leb_le in E. split; cbn; [|intros _; eexists; reflexivity].
    split; [intros _; exact E | reflexivity].
  - apply Nat.leb_gt in E. split; cbn.
    + split; [intros H; apply Hiff in H; lia | lia].
    + exact Hretry.
Qed.

Lemma consistent_reset (now : Z) (s : State) :
  consistent s -> consistent (withBreakers (fmap (resetIfDue now)) s).
Proof.
  intros [Hc Hs]. split; [exact Hc|]. intros n b'. state_fields.
  rewrite lookup_fmap.
  destruct (circuitBreakers s !! n) as [b|] eqn:E; cbn; [|discriminate].
  intros [= <-]. unfold resetIfDue.
  destruct (isOpen b && retryDue now b);
    [apply consistent_closed | apply (Hs n b E)].
Qed.

Lemma consistent_updateSuccessMetrics (name : string) (responseTime : Q) :
  keeps consistent (updateSuccessMetrics name responseTime).
Proof.
  apply keeps_intro. intros s Hs. unfold updateSuccessMetrics.
  run_unfold. run_cases; try exact Hs.
  all: try (apply consistent_insert; [apply consistent_closed | exact Hs]).
Qed.

Lemma consistent_updateFailureMetrics (name : string) (e : Error) (now : Z) :
  keeps consistent (updateFailureMetrics name e now).
Proof.
  apply keeps_intro. intros s Hs. unfold updateFailureMetrics.
  run_unfold. run_cases; try exact Hs.
  all: destruct Hs as [Hc Hs]; split; [exact Hc|].
  all: intros n b'; state_fields.
  all: match goal with
       | E : circuitBreakers _ !! _ = Some ?b |- _ =>
           pose proof (consistent_failure b now
                         (circuitBreakerTimeout (config s)) (Hs _ b E)) as Hf;
           rewrite Hc in *
       end.
  all: destruct (decide (name = n)) as [->|Hne];
         [rewrite lookup_insert_eq; intros [= <-]
         |rewrite lookup_insert_ne by exact Hne; apply Hs].
  all: match goal with
       | E : (threshold <=? _)%nat = _ |- _ => rewrite E in Hf; exact Hf
       end.
Qed.

Lemma consistent_markClientUnhealthy (name message : string) (now : Z) :
  keeps consistent (markClientUnhealthy name message now).
Proof.
  apply keeps_intro. intros s Hs. unfold markClientUnhealthy.
  run_unfold. run_cases.
  apply consistent_insert; [|exact Hs].
  destruct Hs as [Hc _]. rewrite Hc. split; cbn.
  - split; [lia | reflexivity].
  - intros _. eexists. reflexivity.
Qed.

Ltac consistent_special :=
  first
    [ simple apply consistent_updateSuccessMetrics
    | simple apply consistent_updateFailureMetrics
    | simple apply consistent_markClientUnhealthy
    | match goal with
      | H : breakersConsistent _ ?s
        |- breakersConsistent _ (withBreakers (insert _ _) ?s) =>
          apply consistent_insert; [apply consistent_closed | exact H]
      | H : breakersConsistent _ ?s
        |- breakersConsistent _ (withBreakers (fmap _) ?s) =>
          apply consistent_reset; exact H
      | H : forall e, keeps _ (?f e) |- keeps _ (?f _) => simple apply H
      end ].

Lemma consistent_handle (ev : Event) : keeps consistent (handle ev).
Proof.
  destruct ev; cbn [handle].
  - unfold discard, routeRequest, getClientsForCapability, executeRequest,
      attemptFailover, executeSelected, executeWith, callClient, selectClient,
      selectByRoundRobin, selectByLeastLoaded, selectByFastest,
      selectByPriority, selectByWeight.
    keeps_walk consistent_special.
  - unfold performHealthChecks, checkClientHealth, checkCircuitBreakers,
      updateLoadBalancingStats.
    keeps_walk consistent_special.
  - unfold handleClientError. keeps_walk consistent_special.
  - unfold handleClientReconnected. keeps_walk consistent_special.
  - unfold trackResponse. keeps_walk consistent_special.
Qed.

Lemma consistent_initialize (connects : string -> Connection) (now : Z) :
  keeps consistent (initialize connects now).
Proof.
  unfold initialize, registerClient, initializeClientTracking.
  keeps_walk consistent_special.
Qed.

Lemma consistent_runEvents (evs : list Event) (s : State) :
  consistent s -> consistent (runEvents s evs).
Proof.
  revert s. induction evs as [|ev rest IH]; intros s Hs; simpl.
  - exact Hs.
  - apply IH. unfold step. apply keeps_state; [apply consistent_handle | exact Hs].
Qed.

End Breakers.

(** X19.  With a positive [circuitBreakerThreshold], after [initialize]
    and any sequence of requests, health checks and client events, the
    circuit breaker of a client is open exactly when its failure count has
    reached the threshold, and an open breaker has a retry time. *)
Theorem breaker_is_open_exactly_at_the_threshold
    (cfg : Config) (cs : list (string * ClientConfig))
    (connects : string -> Connection) (start : Z) (evs : list Event)
    (name : string) (b : Breaker) :
  (0 < circuitBreakerThreshold cfg)%nat ->
  circuitBreakers
    (runEvents (snd (initialize connects start (constructed cfg cs))) evs)
    !! name = Some b ->
  (isOpen b = true <-> (circuitBreakerThreshold cfg <= failureCount b)%nat) /\
  (isOpen b = true -> is_Some (nextRetryTime b)).
Proof.
  intros Hpos Hb.
  assert (H : breakersConsistent (circuitBreakerThreshold cfg)
                (runEvents (snd (initialize connects start (constructed cfg cs)))
                           evs)).
  { apply consistent_runEvents; [exact Hpos|].
    apply keeps_state; [apply consistent_initialize; exact Hpos|].
    split; [reflexivity|]. intros n b' H. cbn in H.
    rewrite lookup_empty in H. discriminate. }
  exact (proj2 H name b Hb).
Qed.

(** ** A client that never registered *)

Lemma selectable_registered (s : State) (n : string) :
  selectable s n = Ok true -> is_Some (clients s !! n).
Proof.
  unfold selectable. destruct (clients s !! n) as [c|]; [eauto | discriminate].
Qed.

Section NeverRegistered.
Variable p : string.
Variable before : list string.

Local Abbreviation never := (neverRegistered p before).

Lemma never_insert_other (name : string) (c : ClientInfo) (s : State) :
  name <> p -> never s -> never (withClients (insert name c) s).
Proof.
  intros Hne [Hc Ht]. split; [|exact Ht].
  state_fields. rewrite lookup_insert_ne by exact Hne. exact Hc.
Qed.

Lemma never_alter (name : string) (f : ClientInfo -> ClientInfo) (s : State) :
  never s -> never (withClients (alter f name) s).
Proof.
  intros [Hc Ht]. split; [|exact Ht]. state_fields.
  destruct (decide (name = p)) as [->|Hne].
  - rewrite lookup_alter_eq, Hc. reflexivity.
  - rewrite lookup_alter_ne by exact Hne. exact Hc.
Qed.

Lemma never_call_other (name : string) (s : State) :
  name <> p -> never s -> never (withCalls (fun t => t ++ [name]) s).
Proof.
  intros Hne [Hb [since [Hc Hn]]]. split; [exact Hb|].
  exists (since ++ [name]). state_fields. split.
  - rewrite Hc. rewrite <- app_assoc. reflexivity.
  - intros Hin. apply in_app_or in Hin. destruct Hin as [Hin|[Hin|[]]].
    + exact (Hn Hin).
    + exact (Hne Hin).
Qed.

(** Reading a client and writing it back. *)
Lemma never_adjust (name : string) (f : ClientInfo -> ClientInfo) :
  keeps never (bind (getClient name) (fun c => setClient name (f c))).
Proof.
  apply keeps_intro. intros s Hs. run_unfold.
  destruct (clients s !! name) as [c|] eqn:E; cbn; [|exact Hs].
  apply never_insert_other; [|exact Hs].
  intros ->. destruct Hs as [Hc _]. congruence.
Qed.

Ltac never_special Hne :=
  idtac;
  match goal with
  | |- keeps _ (bind (getClient ?n) (fun c => setClient ?n _)) =>
      simple apply never_adjust
  | H : neverRegistered _ _ ?s
    |- neverRegistered _ _ (withClients (insert _ _) ?s) =>
      apply never_insert_other; [exact Hne | exact H]
  | H : neverRegistered _ _ ?s
    |- neverRegistered _ _ (withClients (alter _ _) ?s) =>
      apply never_alter; exact H
  | H : neverRegistered _ _ ?s |- neverRegistered _ _ (withCalls _ ?s) =>
      apply never_call_other; [exact Hne | exact H]
  | H : forall e, keeps _ (?f e) |- keeps _ (?f _) => simple apply H
  end.

Ltac never_free :=
  idtac;
  match goal with
  | |- keeps _ (bind (getClient ?n) (fun c => setClient ?n _)) =>
      simple apply never_adjust
  | H : neverRegistered _ _ ?s
    |- neverRegistered _ _ (withClients (alter _ _) ?s) =>
      apply never_alter; exact H
  end.

Lemma never_updateSuccessMetrics (name : string) (responseTime : Q) :
  name <> p -> keeps never (updateSuccessMetrics name responseTime).
Proof.
  intros Hne. unfold updateSuccessMetrics.
  keeps_walk ltac:(never_special Hne).
Qed.

Lemma never_updateFailureMetrics (name : string) (e : Error) (now : Z) :
  name <> p -> keeps never (updateFailureMetrics name e now).
Proof.
  intros Hne. unfold updateFailureMetrics.
  keeps_walk ltac:(never_special Hne).
Qed.

Section Requests.
Variable respond : string -> Outcome.
Variable now : Z.
Variable rand : Q.

Lemma never_selectClient (l : list string) (options : Options) :
  keeps never (selectClient rand l options).
Proof.
  unfold selectClient, selectByRoundRobin, selectByLeastLoaded,
    selectByFastest, selectByPriority, selectByWeight.
  keeps_walk fail.
Qed.

Lemma never_executeWith (onFailure : Error -> M string) (name : string)
    (options : Options) :
  name <> p ->
  (forall e, keeps never (onFailure e)) ->
  keeps never (executeWith respond now onFailure name options).
Proof.
  intros Hne H. unfold executeWith, callClient.
  keeps_walk ltac:(first [ simple apply never_updateSuccessMetrics; exact Hne
                         | simple apply never_updateFailureMetrics; exact Hne
                         | never_special Hne ]).
Qed.

Lemma never_collect (wanted : State -> string -> list string -> Res bool) :
  ensures (liftRes (fun s => collect s (wanted s) (capabilities s)))
    never (fun l s => ~ In p l /\ never s) never.
Proof.
  apply ensures_result.
  - apply keeps_liftRes.
  - intros s l s' [Hc _] H Hin. unfold liftRes in H.
    destruct (collect s (wanted s) (capabilities s)) as [l'|] eqn:E;
      [|discriminate].
    injection H as <- _.
    pose proof (collect_members s (wanted s) (capabilities s) l' E p Hin) as Hs.
    apply selectable_registered in Hs. rewrite Hc in Hs.
    destruct Hs as [c Hs]. discriminate Hs.
Qed.

Lemma never_select (l : list string) (options : Options) :
  ensures (selectClient rand l options)
    never (fun r s => (forall n, r = Some n -> In n l) /\ never s) never.
Proof.
  apply ensures_result.
  - apply never_selectClient.
  - intros s r s' _ H n ->. apply (select_member rand l options s s' n H).
Qed.

Lemma never_attemptFailover (failed : string) (options : Options) :
  keeps never (attemptFailover respond now rand failed options).
Proof.
  unfold attemptFailover.
  eapply ensures_bind.
  - apply (never_collect (fun s name caps =>
             if String.eqb name failed then Ok false
             else sharesCapability (mapGet failed (capabilities s)) caps)).
  - intros l. apply ensures_assume. intros Hp.
    destruct l as [|x rest]; [apply keeps_throw|].
    eapply ensures_bind; [apply never_select|].
    intros r. apply ensures_assume. intros Hr.
    destruct r as [n|]; cbn [executeSelected]; [|apply keeps_throw].
    apply never_executeWith; [|intros e; apply keeps_throw].
    intros ->. apply Hp. apply Hr. reflexivity.
Qed.

Lemma never_routeRequest (capability : string) (options : Options) :
  keeps never (routeRequest respond now rand capability options).
Proof.
  unfold routeRequest.
  apply keeps_bind; [apply keeps_get|]. intros s0.
  destruct (negb (initialized s0)); [apply keeps_throw|].
  eapply ensures_bind.
  - unfold getClientsForCapability.
    apply (never_collect (fun _ _ caps => Ok (includes capability caps))).
  - intros l. apply ensures_assume. intros Hp.
    destruct l as [|x rest]; [apply keeps_throw|].
    eapply ensures_bind; [apply never_select|].
    intros r. apply ensures_assume. intros Hr.
    destruct r as [n|]; [|apply keeps_throw].
    unfold executeRequest. apply never_executeWith.
    + intros ->. apply Hp. apply Hr. reflexivity.
    + intros e. destruct (enableFailover options);
        [apply never_attemptFailover | apply keeps_throw].
Qed.

End Requests.

Lemma never_handle (ev : Event) : keeps never (handle ev).
Proof.
  destruct ev; cbn [handle].
  - unfold discard. keeps_walk ltac:(simple apply never_routeRequest).
  - unfold performHealthChecks, checkClientHealth, checkCircuitBreakers,
      updateLoadBalancingStats.
    keeps_walk never_free.
  - unfold handleClientError. keeps_walk never_free.
  - unfold handleClientReconnected. keeps_walk never_free.
  - unfold trackResponse. keeps_walk never_free.
Qed.

Lemma never_runEvents (evs : list Event) (s : State) :
  never s -> never (runEvents s evs).
Proof.
  revert s. induction evs as [|ev rest IH]; intros s Hs; simpl.
  - exact Hs.
  - apply IH. unfold step. apply keeps_state; [apply never_handle | exact Hs].
Qed.

Lemma never_initialize (connects : string -> Connection) (now : Z) :
  registers (connects p) = false -> keeps never (initialize connects now).
Proof.
  intros Hp.
  assert (Hreg : forall entry : string * ClientConfig,
            keeps never (if registers (connects (fst entry))
                         then registerClient (fst entry) (snd entry) now
                         else ret tt)).
  { intros entry. destruct (registers (connects (fst entry))) eqn:E;
      [|apply keeps_ret].
    assert (Hne : fst entry <> p) by (intros H; rewrite H in E; congruence).
    unfold registerClient. keeps_walk ltac:(never_special Hne). }
  unfold initialize, initializeClientTracking, markClientUnhealthy.
  keeps_walk ltac:(first [ simple apply Hreg | never_free ]).
Qed.

End NeverRegistered.

(** X21.  A client that [initializeClient] rejects before registering it
    (its constructor throws, or its [initialize()] rejects) is never
    registered and no request is ever sent to it, by primary selection or by
    failover, over any sequence of requests, health checks and client
    events.  A client rejected after its registration, by a [client.on] that
    throws, is another matter: see [rejected_after_registration_is_called]. *)
Theorem client_that_failed_to_connect_is_never_called
    (cfg : Config) (cs : list (string * ClientConfig))
    (connects : string -> Connection) (start : Z) (evs : list Event) (p : string) :
  registers (connects p) = false ->
  let s := runEvents (snd (initialize connects start (constructed cfg cs))) evs in
  clients s !! p = None /\ ~ In p (calls s).
Proof.
  intros Hp s.
  assert (H : neverRegistered p [] s).
  { apply never_runEvents. apply keeps_state; [apply never_initialize; exact Hp|].
    split; [apply lookup_empty|]. exists []. split; [reflexivity | intros []]. }
  destruct H as [Hc [since [Hcalls Hn]]]. split; [exact Hc|].
  rewrite Hcalls. exact Hn.
Qed.

(** ** Instances *)

Lemma least_loaded_selection_has_the_fewest_requests_in_flight_witness :
  exists n,
    selectByLeastLoaded ["coingecko"; "web3"]%string stock = (Ok (Some n), stock)
    /\ In n ["coingecko"; "web3"]%string.
Proof.
  destruct (least_loaded_selection_has_the_fewest_requests_in_flight
              stock ["coingecko"; "web3"]%string)
    as (n & cn & H & Hin & _).
  - discriminate.
  - intros x [<-|[<-|[]]]; vm_compute; eauto.
  - exists n. split; assumption.
Defined.

Lemma fastest_selection_prefers_measured_clients_witness :
  exists n,
    selectByFastest ["coingecko"; "web3"]%string stock = (Ok (Some n), stock)
    /\ In n ["coingecko"; "web3"]%string.
Proof.
  destruct (fastest_selection_prefers_measured_clients
              stock ["coingecko"; "web3"]%string)
    as (n & cn & H & Hin & _).
  - discriminate.
  - intros x [<-|[<-|[]]]; vm_compute; eauto.
  - exists n. split; assumption.
Defined.

Lemma priority_selection_ranks_critical_last_witness :
  exists n cn,
    selectByPriority ["web3"; "coingecko"]%string stock = (Ok (Some n), stock)
    /\ lookupConfig (configs stock) n = Some cn
    /\ priority cn <> Critical.
Proof.
  destruct (priority_selection_ranks_critical_last
              stock ["web3"; "coingecko"]%string)
    as (n & cn & H & Hin & Hn & _ & Hc).
  - discriminate.
  - intros x [<-|[<-|[]]]; vm_compute; eauto.
  - exists n, cn. split; [exact H|]. split; [exact Hn|].
    apply (Hc "coingecko"%string
             {| configCapabilities :=
                  ["pricing"; "market-data"; "trending";
                   "arbitrage-opportunities"]%string;
                priority := High |}).
    + right. left. reflexivity.
    + reflexivity.
    + discriminate.
Defined.

Lemma round_robin_visits_every_candidate_once_witness :
  fst (roundRobinTimes 2 ["coingecko"; "web3"]%string stock)
  = [Some "coingecko"; Some "web3"]%string.
Proof.
  pose proof (round_robin_visits_every_candidate_once
                ["coingecko"; "web3"]%string stock ltac:(discriminate)) as H.
  cbv zeta in H. destruct H as [H _].
  etransitivity; [exact H|]. vm_compute. reflexivity.
Defined.

Lemma breaker_is_open_exactly_at_the_threshold_witness :
  exists b,
    circuitBreakers
      (runEvents (snd (initialize (fun _ => Connected) 0
                         (constructed defaultConfig clientConfigs)))
                 [pricing timingOut 0])
      !! "coingecko"%string = Some b /\
    failureCount b = 1%nat /\
    (isOpen b = true <-> (5 <= failureCount b)%nat).
Proof.
  assert (E : exists b,
            circuitBreakers
              (runEvents (snd (initialize (fun _ => Connected) 0
                                 (constructed defaultConfig clientConfigs)))
                         [pricing timingOut 0])
              !! "coingecko"%string = Some b /\
            failureCount b = 1%nat)
    by (vm_compute; eexists; split; reflexivity).
  destruct E as (b & E & Hb). exists b. split; [exact E|]. split; [exact Hb|].
  exact (proj1 (breaker_is_open_exactly_at_the_threshold
                  defaultConfig clientConfigs (fun _ => Connected) 0
                  [pricing timingOut 0] "coingecko"%string b
                  (Nat.lt_0_succ 4) E)).
Defined.

Lemma client_that_failed_to_connect_is_never_called_witness :
  let s := runEvents
             (snd (initialize web3Refused 0
                     (constructed defaultConfig clientConfigs)))
             [probesPass 60000;
              RouteRequest "blockchain" noOptions answering 0 60001;
              pricing answering 60002] in
  clients s !! "web3"%string = None /\ ~ In "web3"%string (calls s).
Proof.
  apply (client_that_failed_to_connect_is_never_called
           defaultConfig clientConfigs web3Refused 0
           [probesPass 60000;
            RouteRequest "blockchain" noOptions answering 0 60001;
            pricing answering 60002] "web3"%string).
  reflexivity.
Defined.

(** ** What stays in place *)

Lemma grows_refl (s : State) : grows s s.
Proof. unfold grows. repeat split; auto. Qed.

Lemma grows_complete (s0 s : State) (name : string) :
  grows s0 s -> complete s0 name -> complete s name.
Proof.
  intros (Hcfg & Hcs & Hcaps & Hcl & Hh & Hm & Hb & Hl) (C1 & C2 & C3 & C4 & C5).
  repeat split; [apply Hcl | apply Hh | apply Hm | apply Hb | apply Hl];
    assumption.
Qed.

(** Solves the goals on the entries of updated maps. *)
Ltac entries :=
  repeat
    match goal with
    | |- context [(<[_:=_]> _) !! _] => rewrite lookup_insert_is_Some'
    | |- context [alter _ _ _ !! _] => rewrite lookup_alter_is_Some
    | |- context [(_ <$> _) !! _] => rewrite lookup_fmap, fmap_is_Some
    end;
  auto.

Section Grows.
Variable s0 : State.

Local Abbreviation G := (grows s0).

Lemma grows_clients_insert (name : string) (c : ClientInfo) (s : State) :
  is_Some (clients s !! name) -> G s -> G (withClients (insert name c) s).
Proof.
  intros Hn (Hcfg & Hcs & Hcaps & Hcl & Hh & Hm & Hb & Hl).
  unfold grows. state_fields. repeat split; auto; try apply Hl.
  - rewrite lookup_insert_is_Some'. intros [<-|H]; apply Hcl; assumption.
  - intros H. rewrite lookup_insert_is_Some'. right. apply Hcl. exact H.
Qed.

Lemma grows_clients_alter (name : string) (f : ClientInfo -> ClientInfo)
    (s : State) :
  G s -> G (withClients (alter f name) s).
Proof.
  intros (Hcfg & Hcs & Hcaps & Hcl & Hh & Hm & Hb & Hl).
  unfold grows. state_fields. repeat split; auto; try apply Hl.
  all: rewrite lookup_alter_is_Some; apply Hcl.
Qed.

Lemma grows_health_insert (name : string) (h : Health) (s : State) :
  G s -> G (withHealth (insert name h) s).
Proof.
  intros (Hcfg & Hcs & Hcaps & Hcl & Hh & Hm & Hb & Hl).
  unfold grows. state_fields.
  repeat split; auto; try apply Hcl; try apply Hl.
  intros n Hn. entries.
Qed.

Lemma grows_metrics_insert (name : string) (m : Metrics) (s : State) :
  G s -> G (withMetrics (insert name m) s).
Proof.
  intros (Hcfg & Hcs & Hcaps & Hcl & Hh & Hm & Hb & Hl).
  unfold grows. state_fields.
  repeat split; auto; try apply Hcl; try apply Hl.
  intros n Hn. entries.
Qed.

Lemma grows_breakers_insert (name : string) (b : Breaker) (s : State) :
  G s -> G (withBreakers (insert name b) s).
Proof.
  intros (Hcfg & Hcs & Hcaps & Hcl & Hh & Hm & Hb & Hl).
  unfold grows. state_fields.
  repeat split; auto; try apply Hcl; try apply Hl.
  intros n Hn. entries.
Qed.

Lemma grows_breakers_fmap (f : Breaker -> Breaker) (s : State) :
  G s -> G (withBreakers (fmap f) s).
Proof.
  intros (Hcfg & Hcs & Hcaps & Hcl & Hh & Hm & Hb & Hl).
  unfold grows. state_fields.
  repeat split; auto; try apply Hcl; try apply Hl.
  intros n Hn. entries.
Qed.

Lemma grows_loadStats_insert (name : string) (l : LoadStats) (s : State) :
  is_Some (loadBalancingStats s !! name) ->
  G s -> G (withLoadStats (insert name l) s).
Proof.
  intros Hn (Hcfg & Hcs & Hcaps & Hcl & Hh & Hm & Hb & Hl).
  unfold grows. state_fields. repeat split; auto; try apply Hcl.
  - rewrite lookup_insert_is_Some'. intros [<-|H]; apply Hl; assumption.
  - intros H. rewrite lookup_insert_is_Some'. right. apply Hl. exact H.
Qed.

Lemma grows_loadStats_refresh (s' s : State) :
  G s -> G (withLoadStats (map_imap (refreshLoad s')) s).
Proof.
  intros (Hcfg & Hcs & Hcaps & Hcl & Hh & Hm & Hb & Hl).
  unfold grows. state_fields. repeat split; auto; try apply Hcl.
  - intros [st Hst]. apply Hl. rewrite map_lookup_imap in Hst.
    destruct (loadBalancingStats s !! name) as [st0|]; [eauto|].
    discriminate Hst.
  - intros Hn. rewrite map_lookup_imap.
    destruct (proj2 (Hl name) Hn) as [st ->]. cbn. unfold refreshLoad. eauto.
Qed.

End Grows.

(** ** Requests in flight and the counters of requests *)

Section Steady.
Variable s0 : State.
Hypothesis s0_metered : metered s0.

(** The entries of a registered client, and those of a complete one. *)
Lemma registered_entries (s : State) (name : string) :
  grows s0 s -> is_Some (clients s0 !! name) ->
  exists c m,
    clients s !! name = Some c /\ requestMetrics s !! name = Some m.
Proof.
  intros (Hcfg & Hcs & Hcaps & Hcl & Hh & Hm & Hb & Hl) Hn.
  destruct (proj2 (Hcl name) Hn) as [c Ec].
  destruct (Hm name (s0_metered name Hn)) as [m Em].
  exists c, m. split; assumption.
Qed.

Lemma complete_entries (s : State) (name : string) :
  grows s0 s -> complete s0 name ->
  exists h b l,
    healthStatus s !! name = Some h /\ circuitBreakers s !! name = Some b /\
    loadBalancingStats s !! name = Some l.
Proof.
  intros HG HC. destruct (grows_complete s0 s name HG HC)
    as (_ & [h Eh] & _ & [b Eb] & [l El]).
  exists h, b, l. repeat split; assumption.
Qed.

Ltac peel HG :=
  repeat first
    [ exact HG
    | apply grows_loadStats_insert; [state_fields; eauto|]
    | apply grows_breakers_insert
    | apply grows_health_insert
    | apply grows_metrics_insert
    | apply grows_clients_alter
    | apply grows_clients_insert; [state_fields; eauto|] ].

Ltac at_name name n :=
  destruct (decide (name = n)) as [<-|?];
  rewrite ?lookup_alter_eq, ?lookup_insert_eq;
  rewrite ?lookup_alter_ne, ?lookup_insert_ne by assumption;
  rewrite ?lookup_alter_eq, ?lookup_insert_eq;
  rewrite ?lookup_alter_ne, ?lookup_insert_ne by assumption.

(** The requests in flight after an update that keeps [requestCount]. *)
Ltac same_loads HL Ec name :=
  let n := fresh "n" in
  intros n; state_fields; at_name name n; cbn;
  rewrite <- (HL _); try rewrite Ec; reflexivity.

(** The counters after the counter of successes or of failures of [name]
    went up by one; a lookup that failed shows that [name] is not
    complete. *)
Ltac counted HG HA Em name :=
  let n := fresh "n" in
  let m' := fresh "m'" in
  let H := fresh "H" in
  let H1 := fresh "H1" in
  let H2 := fresh "H2" in
  let Hx := fresh "Hx" in
  intros n m'; state_fields; at_name name n;
  [ intros [= <-];
    pose proof (HA _ _ Em) as H; rewrite decide_True in H by reflexivity;
    destruct H as [H1 H2];
    rewrite ?decide_True by reflexivity;
    split;
    [ cbn; lia
    | intros Hx;
      first
        [ specialize (H2 Hx); cbn in *; lia
        | exfalso;
          destruct (complete_entries _ _ HG Hx) as (? & ? & ? & ? & ? & ?);
          congruence ] ]
  | intros H; pose proof (HA _ _ H) as H1;
    rewrite decide_False in H1 by congruence;
    rewrite ?decide_False by congruence; exact H1 ].

Lemma steady_updateSuccessMetrics (load : string -> option Z) (name : string)
    (responseTime : Q) :
  is_Some (clients s0 !! name) ->
  ensures (updateSuccessMetrics name responseTime)
    (midRequest s0 load name) (fun _ => steady s0 load)
    (midRequest s0 load name).
Proof.
  intros Hn. constructor. intros s (HG & HL & HA).
  destruct (registered_entries s name HG Hn) as (c & m & Ec & Em).
  unfold updateSuccessMetrics. run_unfold.
  rewrite Ec. cbn beta iota. state_fields. rewrite Em. cbn beta iota.
  state_fields.
  destruct (circuitBreakers s !! name) as [b|] eqn:Eb; cbn beta iota;
    [destruct (isOpen b); cbn beta iota; state_fields;
     (destruct (healthStatus s !! name) as [h|] eqn:Eh; cbn beta iota;
      [state_fields;
       destruct (loadBalancingStats s !! name) as [l|] eqn:El; cbn beta iota|])
    |];
    cbn [outcome].
  all: split; [peel HG | split; [same_loads HL Ec name|]].
  all: counted HG HA Em name.
Qed.

Lemma steady_updateFailureMetrics (load : string -> option Z) (name : string)
    (e : Error) (now : Z) :
  is_Some (clients s0 !! name) ->
  ensures (updateFailureMetrics name e now)
    (midRequest s0 load name) (fun _ => steady s0 load) (steady s0 load).
Proof.
  intros Hn. constructor. intros s (HG & HL & HA).
  destruct (registered_entries s name HG Hn) as (c & m & Ec & Em).
  unfold updateFailureMetrics. run_unfold.
  rewrite Ec. cbn beta iota. state_fields. rewrite Em. cbn beta iota.
  state_fields.
  destruct (healthStatus s !! name) as [h|] eqn:Eh; cbn beta iota;
    [destruct e; cbn beta iota; state_fields;
     rewrite ?lookup_insert_eq; cbn beta iota; state_fields;
     try (destruct (circuitBreakers s !! name) as [b|] eqn:Eb; cbn beta iota;
          [state_fields;
           try destruct (circuitBreakerThreshold (config s)
                         <=? S (failureCount b))%nat;
           try destruct (3 <=? S (consecutiveErrors h))%nat;
           cbn beta iota; state_fields;
           destruct (loadBalancingStats s !! name) as [l|] eqn:El;
           cbn beta iota|])
    |];
    cbn [outcome].
  all: split; [peel HG | split; [same_loads HL Ec name|]].
  all: counted HG HA Em name.
Qed.

(** *** Updates that leave the counters alone *)

Section Load.
Variable load : string -> option Z.

Local Abbreviation I := (steady s0 load).

Lemma steady_health_insert (name : string) (h : Health) (s : State) :
  I s -> I (withHealth (insert name h) s).
Proof.
  intros (HG & HL & HA). split; [|split; assumption].
  apply grows_health_insert. exact HG.
Qed.

Lemma steady_breakers_fmap (f : Breaker -> Breaker) (s : State) :
  I s -> I (withBreakers (fmap f) s).
Proof.
  intros (HG & HL & HA). split; [|split; assumption].
  apply grows_breakers_fmap. exact HG.
Qed.

Lemma steady_loadStats_refresh (s : State) :
  I s -> I (withLoadStats (map_imap (refreshLoad s)) s).
Proof.
  intros (HG & HL & HA). split; [|split; assumption].
  apply grows_loadStats_refresh. exact HG.
Qed.

Lemma steady_clients_alter (name : string) (f : ClientInfo -> ClientInfo)
    (s : State) :
  (forall c, requestCount (f c) = requestCount c) ->
  I s -> I (withClients (alter f name) s).
Proof.
  intros Hf (HG & HL & HA). split; [|split; [|assumption]].
  - apply grows_clients_alter. exact HG.
  - intros n. state_fields. rewrite <- (HL n).
    destruct (decide (name = n)) as [<-|Hne].
    + rewrite lookup_alter_eq. destruct (clients s !! name); cbn; [|reflexivity].
      rewrite Hf. reflexivity.
    + rewrite lookup_alter_ne by exact Hne. reflexivity.
Qed.

Lemma steady_handleClientReconnected (name : string) :
  keeps I (handleClientReconnected name).
Proof.
  apply keeps_intro. intros s Hs. unfold handleClientReconnected. run_unfold.
  destruct (healthStatus s !! name) as [h|]; cbn beta iota; [|exact Hs].
  state_fields. destruct (clients s !! name) as [c|] eqn:Ec; cbn beta iota.
  - cbn [snd].
    assert (H : I (withHealth (insert name
                     {| status := Healthy; lastError := lastError h;
                        consecutiveErrors := 0;
                        healthCheckedAt := healthCheckedAt h |}) s))
      by (apply steady_health_insert; exact Hs).
    destruct H as (HG & HL & HA). split; [|split; [|exact HA]].
    + apply grows_clients_insert; [state_fields; eauto | exact HG].
    + intros n. state_fields. rewrite <- (HL n). state_fields.
      destruct (decide (name = n)) as [<-|Hne].
      * rewrite lookup_insert_eq, Ec. reflexivity.
      * rewrite lookup_insert_ne by exact Hne. reflexivity.
  - cbn [snd]. apply steady_health_insert. exact Hs.
Qed.

Lemma steady_trackResponse (name : string) (responseTime : option Q) :
  keeps I (trackResponse name responseTime).
Proof.
  apply keeps_intro. intros s Hs. unfold trackResponse. run_unfold.
  destruct (requestMetrics s !! name) as [m|] eqn:Em; cbn beta iota;
    [|exact Hs].
  destruct (Qeq_bool (JS.orDefault responseTime 0) 0); cbn beta iota;
    [exact Hs|].
  cbn [snd]. destruct Hs as (HG & HL & HA). split; [|split; [exact HL|]].
  - apply grows_metrics_insert. exact HG.
  - intros n m'. state_fields. destruct (decide (name = n)) as [<-|Hne].
    + rewrite lookup_insert_eq. intros [= <-].
      pose proof (HA name m Em) as H. unfold settledMetrics in *. cbn. exact H.
    + rewrite lookup_insert_ne by exact Hne. apply HA.
Qed.

End Load.

(** *** A request *)

Ltac steady_special :=
  idtac;
  match goal with
  | H : steady _ _ ?s |- steady _ _ (withHealth (insert _ _) ?s) =>
      apply steady_health_insert; exact H
  | H : steady _ _ ?s |- steady _ _ (withBreakers (fmap _) ?s) =>
      apply steady_breakers_fmap; exact H
  | H : steady _ _ ?s |- steady _ _ (withLoadStats (map_imap _) ?s) =>
      apply steady_loadStats_refresh; exact H
  | H : steady _ _ ?s |- steady _ _ (withClients (alter _ _) ?s) =>
      apply steady_clients_alter; [intros ?; reflexivity | exact H]
  end.

Section Requests.
Variable respond : string -> Outcome.
Variable now : Z.
Variable rand : Q.

Lemma steady_selectClient (load : string -> option Z) (l : list string)
    (options : Options) :
  keeps (steady s0 load) (selectClient rand l options).
Proof.
  unfold selectClient, selectByRoundRobin, selectByLeastLoaded,
    selectByFastest, selectByPriority, selectByWeight.
  keeps_walk fail.
Qed.

Lemma midRequest_callClient (load : string -> option Z) (name : string)
    (options : Options) :
  keeps (midRequest s0 load name) (callClient respond name options).
Proof. unfold callClient. keeps_walk fail. Qed.

Lemma oneMore_started (load : string -> option Z) (name : string)
    (c : ClientInfo) (s : State) :
  steady s0 load s -> clients s !! name = Some c ->
  steady s0 (oneMore name load)
    (withClients (insert name
       {| isHealthy := isHealthy c;
          lastHealthCheck := lastHealthCheck c;
          requestCount := (requestCount c + 1)%Z;
          errorCount := errorCount c;
          avgResponseTime := avgResponseTime c;
          lastRequestTime := Some now |}) s).
Proof.
  intros (HG & HL & HA) Ec. split; [|split; [|exact HA]].
  - apply grows_clients_insert; [eauto | exact HG].
  - intros n. state_fields. unfold oneMore. rewrite <- (HL n).
    destruct (decide (n = name)) as [->|Hne].
    + rewrite lookup_insert_eq, Ec. cbn; f_equal; lia.
    + rewrite lookup_insert_ne by congruence. reflexivity.
Qed.

Lemma oneMore_finished (load : string -> option Z) (name : string) (s : State) :
  steady s0 (oneMore name load) s ->
  is_Some (load name) ->
  steady s0 load
    (withClients (alter (fun c =>
       {| isHealthy := isHealthy c;
          lastHealthCheck := lastHealthCheck c;
          requestCount := (requestCount c - 1)%Z;
          errorCount := errorCount c;
          avgResponseTime := avgResponseTime c;
          lastRequestTime := lastRequestTime c |}) name) s).
Proof.
  intros (HG & HL & HA) [z Hz]. split; [|split; [|exact HA]].
  - apply grows_clients_alter. exact HG.
  - intros n. state_fields. pose proof (HL n) as H. unfold oneMore in H.
    destruct (decide (n = name)) as [->|Hne].
    + rewrite lookup_alter_eq. rewrite Hz in *.
      destruct (clients s !! name) as [c|]; cbn in *; [|discriminate H].
      injection H as H. f_equal. lia.
    + rewrite lookup_alter_ne by congruence. exact H.
Qed.

Lemma steady_executeWith (onFailure : Error -> M string) (name : string)
    (options : Options) (load : string -> option Z) :
  is_Some (clients s0 !! name) ->
  (forall e, keeps (steady s0 (oneMore name load)) (onFailure e)) ->
  keeps (steady s0 load) (executeWith respond now onFailure name options).
Proof.
  intros Hn Hf. unfold executeWith.
  eapply ensures_bind with
    (R := fun c s => steady s0 load s /\ clients s !! name = Some c).
  { constructor. intros s Hs. run_unfold.
    destruct (clients s !! name) as [c|] eqn:Ec; cbn; auto. }
  intros c.
  eapply ensures_bind with
    (R := fun _ s => steady s0 (oneMore name load) s /\ is_Some (load name)).
  { apply ensures_modify. intros s [Hs Ec]. split.
    - apply oneMore_started; assumption.
    - destruct Hs as (_ & HL & _). rewrite <- (HL name), Ec. cbn. eauto. }
  intros _. apply ensures_weaken with
    (P' := fun s => is_Some (load name) /\ steady s0 (oneMore name load) s)
    (Q' := fun _ => steady s0 load) (E' := steady s0 load);
    [|tauto|auto|auto].
  apply ensures_assume. intros Hl.
  eapply ensures_bind with
    (R := fun m s => steady s0 (oneMore name load) s /\
                     requestMetrics s !! name = Some m).
  { constructor. intros s Hs. run_unfold.
    destruct Hs as (HG & HL & HA).
    destruct (registered_entries s name HG Hn) as (c' & m & Ec & Em).
    rewrite Em. cbn. split; [split; [|split]; assumption | exact Em]. }
  intros m.
  eapply ensures_bind with
    (R := fun _ => midRequest s0 (oneMore name load) name).
  { apply ensures_modify. intros s [(HG & HL & HA) Em].
    split; [|split; [exact HL|]].
    - apply grows_metrics_insert. exact HG.
    - intros n m'. state_fields. destruct (decide (n = name)) as [->|Hne].
      + rewrite lookup_insert_eq. intros [= <-].
        destruct (HA name m Em) as [H1 H2]. split; cbn.
        * lia.
        * intros Hx. specialize (H2 Hx). lia.
      + rewrite lookup_insert_ne by congruence. apply HA. }
  intros _.
  eapply ensures_finally with
    (Q' := fun _ => steady s0 (oneMore name load))
    (E' := steady s0 (oneMore name load)).
  - eapply ensures_tryCatch with (E' := midRequest s0 (oneMore name load) name).
    + eapply ensures_bind; [apply midRequest_callClient|].
      intros responseTime.
      eapply ensures_bind with (R := fun _ => steady s0 (oneMore name load)).
      * apply (steady_updateSuccessMetrics (oneMore name load) name
                 responseTime Hn).
      * intros []. apply ensures_ret. auto.
    + intros e.
      eapply ensures_bind with (R := fun _ => steady s0 (oneMore name load)).
      * apply (steady_updateFailureMetrics (oneMore name load) name e now Hn).
      * intros []. apply Hf.
  - intros _ s Hs. apply oneMore_finished; assumption.
  - intros s Hs. apply oneMore_finished; assumption.
Qed.

Lemma steady_collect (load : string -> option Z)
    (wanted : State -> string -> list string -> Res bool) :
  ensures (liftRes (fun s => collect s (wanted s) (capabilities s)))
    (steady s0 load)
    (fun l s => (forall n, In n l -> is_Some (clients s0 !! n)) /\
                steady s0 load s)
    (steady s0 load).
Proof.
  apply ensures_result.
  - apply keeps_liftRes.
  - intros s l s' (HG & _) H n Hin. unfold liftRes in H.
    destruct (collect s (wanted s) (capabilities s)) as [l'|] eqn:E;
      [|discriminate].
    injection H as <- _.
    pose proof (collect_members s (wanted s) (capabilities s) l' E n Hin) as Hs.
    apply selectable_registered in Hs.
    destruct HG as (_ & _ & _ & Hcl & _). apply Hcl. exact Hs.
Qed.

Lemma steady_select (load : string -> option Z) (l : list string)
    (options : Options) :
  ensures (selectClient rand l options)
    (steady s0 load)
    (fun r s => (forall n, r = Some n -> In n l) /\ steady s0 load s)
    (steady s0 load).
Proof.
  apply ensures_result.
  - apply steady_selectClient.
  - intros s r s' _ H n ->. apply (select_member rand l options s s' n H).
Qed.

Lemma steady_attemptFailover (load : string -> option Z) (failed : string)
    (options : Options) :
  keeps (steady s0 load) (attemptFailover respond now rand failed options).
Proof.
  unfold attemptFailover.
  eapply ensures_bind.
  - apply (steady_collect load (fun s name caps =>
             if String.eqb name failed then Ok false
             else sharesCapability (mapGet failed (capabilities s)) caps)).
  - intros l. apply ensures_assume. intros Hp.
    destruct l as [|x rest]; [apply keeps_throw|].
    eapply ensures_bind; [apply steady_select|].
    intros r. apply ensures_assume. intros Hr.
    destruct r as [n|]; cbn [executeSelected]; [|apply keeps_throw].
    apply steady_executeWith; [|intros e; apply keeps_throw].
    apply Hp. apply Hr. reflexivity.
Qed.

Lemma steady_routeRequest (load : string -> option Z) (capability : string)
    (options : Options) :
  keeps (steady s0 load) (routeRequest respond now rand capability options).
Proof.
  unfold routeRequest.
  apply keeps_bind; [apply keeps_get|]. intros s1.
  destruct (negb (initialized s1)); [apply keeps_throw|].
  eapply ensures_bind.
  - unfold getClientsForCapability.
    apply (steady_collect load (fun _ _ caps => Ok (includes capability caps))).
  - intros l. apply ensures_assume. intros Hp.
    destruct l as [|x rest]; [apply keeps_throw|].
    eapply ensures_bind; [apply steady_select|].
    intros r. apply ensures_assume. intros Hr.
    destruct r as [n|]; [|apply keeps_throw].
    unfold executeRequest. apply steady_executeWith.
    + apply Hp. apply Hr. reflexivity.
    + intros e. destruct (enableFailover options);
        [apply steady_attemptFailover | apply keeps_throw].
Qed.

End Requests.

Lemma steady_handle (load : string -> option Z) (ev : Event) :
  keeps (steady s0 load) (handle ev).
Proof.
  destruct ev; cbn [handle].
  - unfold discard. keeps_walk ltac:(simple apply steady_routeRequest).
  - unfold performHealthChecks, checkClientHealth, checkCircuitBreakers,
      updateLoadBalancingStats.
    keeps_walk steady_special.
  - unfold handleClientError. keeps_walk steady_special.
  - apply steady_handleClientReconnected.
  - apply steady_trackResponse.
Qed.

Lemma steady_runEvents (load : string -> option Z) (evs : list Event)
    (s : State) :
  steady s0 load s -> steady s0 load (runEvents s evs).
Proof.
  revert s. induction evs as [|ev rest IH]; intros s Hs; simpl.
  - exact Hs.
  - apply IH. unfold step. apply keeps_state; [apply steady_handle | exact Hs].
Qed.

End Steady.

(** ** What [initialize] sets up *)

Lemma ensures_forEach_done {A : Type} (f : A -> M unit)
    (J : list A -> State -> Prop) (l : list A) :
  (forall x done, In x l ->
     ensures (f x) (J done) (fun _ => J (x :: done)) (fun _ => False)) ->
  forall done,
    ensures (forEach f l) (J done) (fun _ => J (rev l ++ done)) (fun _ => False).
Proof.
  induction l as [|x rest IH]; intros Hf done; cbn [forEach].
  - apply ensures_ret. auto.
  - eapply ensures_bind with (R := fun _ => J (x :: done)).
    + apply Hf. left. reflexivity.
    + intros []. cbn [rev]. rewrite <- app_assoc. cbn [app].
      apply IH. intros y d Hy. apply Hf. right. exact Hy.
Qed.

Lemma lookupConfig_in (cs : list (string * ClientConfig))
    (entry : string * ClientConfig) :
  In entry cs -> is_Some (lookupConfig cs (fst entry)).
Proof.
  induction cs as [|[k c] rest IH]; intros Hin; [destruct Hin|].
  cbn [lookupConfig]. destruct (String.eqb k (fst entry)) eqn:E; [eauto|].
  destruct Hin as [<-|Hin]; [|auto].
  cbn in E. rewrite String.eqb_refl in E. discriminate E.
Qed.

Lemma mapGet_mapSet {V : Type} (name n : string) (v : V)
    (l : list (string * V)) :
  is_Some (mapGet n (mapSet name v l)) <-> n = name \/ is_Some (mapGet n l).
Proof.
  induction l as [|[k w] rest IH]; cbn [mapSet mapGet].
  - destruct (String.eqb name n) eqn:E.
    + apply String.eqb_eq in E. subst. split; eauto.
    + apply String.eqb_neq in E. split.
      * intros [x Hx]. discriminate Hx.
      * intros [->|[x Hx]]; [congruence | discriminate Hx].
  - destruct (String.eqb k name) eqn:Ek; cbn [mapGet].
    + apply String.eqb_eq in Ek. subst k.
      destruct (String.eqb name n) eqn:E; [split; eauto|].
      apply String.eqb_neq in E. split; [auto|].
      intros [->|H]; [congruence | exact H].
    + destruct (String.eqb k n) eqn:E; [split; eauto | exact IH].
Qed.

Ltac boot_fields :=
  cbn [withCapabilities withInitialized withClients withHealth withMetrics
       withBreakers withCounters withLoadStats withCalls clients healthStatus
       requestMetrics circuitBreakers roundRobinCounters loadBalancingStats
       config calls configs capabilities initialized fst snd].

Section Boot.
Variable connects : string -> Connection.
Variable cs : list (string * ClientConfig).
Variable now : Z.

(** What holds all through [initialize]. *)
Definition booting (s : State) : Prop :=
  registering connects cs s /\ measured connects cs s.

Lemma registering_registerClient (entry : string * ClientConfig)
    (done : list (string * ClientConfig)) :
  In entry cs ->
  ensures (if registers (connects (fst entry))
           then registerClient (fst entry) (snd entry) now
           else ret tt)
    (fun s => booting s /\ registeredOn connects done s)
    (fun _ s => booting s /\ registeredOn connects (entry :: done) s)
    (fun _ => False).
Proof.
  intros Hin. constructor.
  intros s [[(Hcfg & Hreg & Hidle & Hacc) Hms] Hdone].
  destruct (registers (connects (fst entry))) eqn:Ec.
  - unfold registerClient. run_unfold. cbn [outcome].
    split; [split; [split; [|split; [|split]]|]|].
    + exact Hcfg.
    + intros n. boot_fields. rewrite lookup_insert_is_Some', mapGet_mapSet.
      intros [<-|Hn].
      * split; [|left; reflexivity]. split; [|exact Ec].
        apply in_map. exact Hin.
      * destruct (Hreg n Hn) as [H1 H2]. split; [exact H1 | right; exact H2].
    + intros n c. boot_fields. destruct (decide (fst entry = n)) as [<-|Hne].
      * rewrite lookup_insert_eq. intros [= <-]. reflexivity.
      * rewrite lookup_insert_ne by exact Hne. apply Hidle.
    + exact Hacc.
    + exact Hms.
    + intros e [<-|He] Hc; boot_fields; rewrite lookup_insert_is_Some';
        [left; reflexivity | right; apply Hdone; assumption].
  - cbn [ret outcome].
    split; [exact (conj (conj Hcfg (conj Hreg (conj Hidle Hacc))) Hms)|].
    intros e [<-|He] Hc; [congruence | apply Hdone; assumption].
Qed.

Lemma unused_insert (name : string) (m : Metrics) (ms : gmap string Metrics) :
  (forall n m', ms !! n = Some m' ->
     totalRequests m' = 0%nat /\ successfulRequests m' = 0%nat /\
     failedRequests m' = 0%nat) ->
  totalRequests m = 0%nat /\ successfulRequests m = 0%nat /\
  failedRequests m = 0%nat ->
  forall n m', <[name:=m]> ms !! n = Some m' ->
     totalRequests m' = 0%nat /\ successfulRequests m' = 0%nat /\
     failedRequests m' = 0%nat.
Proof.
  intros Hms Hm n m'. destruct (decide (name = n)) as [<-|Hne].
  - rewrite lookup_insert_eq. intros [= <-]. exact Hm.
  - rewrite lookup_insert_ne by exact Hne. apply Hms.
Qed.

Lemma tracking_step (entry : string * ClientConfig)
    (done : list (string * ClientConfig)) :
  In entry cs ->
  ensures (match connects (fst entry) with
           | Connected => initializeClientTracking (fst entry) now
           | ListenersFail message | Refused message =>
               markClientUnhealthy (fst entry) (reasonOf message) now
           end)
    (fun s => (booting s /\ registeredOn connects cs s) /\
              trackedOn connects done s)
    (fun _ s => (booting s /\ registeredOn connects cs s) /\
                trackedOn connects (entry :: done) s)
    (fun _ => False).
Proof.
  intros Hin. constructor.
  intros s [[[(Hcfg & Hreg & Hidle & Hacc) Hms] Hall] Hdone].
  destruct (connects (fst entry)) as [|message|message] eqn:Ec.
  - unfold initializeClientTracking. run_unfold. boot_fields.
    rewrite Hcfg. destruct (lookupConfig_in cs entry Hin) as [c ->].
    cbn beta iota. cbn [outcome].
    split; [split; [split; [split; [|split; [|split]]|]|]|].
    + exact Hcfg.
    + exact Hreg.
    + exact Hidle.
    + unfold unused. boot_fields.
      apply unused_insert; [exact Hacc | repeat split].
    + intros n. boot_fields. rewrite lookup_insert_is_Some'.
      intros [<-|Hn]; [|apply Hms; exact Hn].
      split; [apply in_map; exact Hin | exact Ec].
    + exact Hall.
    + intros e [<-|He]; boot_fields.
      * repeat split; try intros _; rewrite lookup_insert_eq; eauto.
      * destruct (Hdone e He) as (H1 & H2 & H3 & H4).
        repeat split; try intros Hc; entries.
  - unfold markClientUnhealthy. run_unfold. cbn [outcome].
    split; [split; [split; [split; [|split; [|split]]|]|]|].
    + exact Hcfg.
    + exact Hreg.
    + exact Hidle.
    + unfold unused. boot_fields.
      apply unused_insert; [exact Hacc | repeat split].
    + exact Hms.
    + exact Hall.
    + intros e [<-|He]; boot_fields.
      * repeat split; try (intros Hc; congruence);
          rewrite lookup_insert_eq; eauto.
      * destruct (Hdone e He) as (H1 & H2 & H3 & H4).
        repeat split; try intros Hc; entries.
  - unfold markClientUnhealthy. run_unfold. cbn [outcome].
    split; [split; [split; [split; [|split; [|split]]|]|]|].
    + exact Hcfg.
    + exact Hreg.
    + exact Hidle.
    + unfold unused. boot_fields.
      apply unused_insert; [exact Hacc | repeat split].
    + exact Hms.
    + exact Hall.
    + intros e [<-|He]; boot_fields.
      * repeat split; try (intros Hc; congruence);
          rewrite lookup_insert_eq; eauto.
      * destruct (Hdone e He) as (H1 & H2 & H3 & H4).
        repeat split; try intros Hc; entries.
Qed.

Lemma initialize_sets_up (cfg : Config) :
  let s := snd (initialize connects now (constructed cfg cs)) in
  booting s /\ registeredOn connects cs s /\ trackedOn connects cs s.
Proof.
  assert (H : ensures (initialize connects now)
                (fun s => s = constructed cfg cs)
                (fun _ s => booting s /\ registeredOn connects cs s /\
                            trackedOn connects cs s)
                (fun _ => False)).
  { unfold initialize.
    eapply ensures_bind; [apply ensures_get|].
    intros s1. apply ensures_weaken with
      (P' := fun s => s1 = constructed cfg cs /\
                      (booting s /\ registeredOn connects [] s))
      (Q' := fun _ s => booting s /\
                        registeredOn connects cs s /\ trackedOn connects cs s)
      (E' := fun _ => False); [| |auto|auto].
    2:{ intros s [<- ->]. split; [reflexivity|]. split.
        - split.
          + split; [reflexivity|]. split; [|split].
            * intros n [c Hc]. cbn in Hc. rewrite lookup_empty in Hc.
              discriminate Hc.
            * intros n c Hc. cbn in Hc. rewrite lookup_empty in Hc.
              discriminate Hc.
            * intros n m Hm. cbn in Hm. rewrite lookup_empty in Hm.
              discriminate Hm.
          + intros n [l Hl]. cbn in Hl. rewrite lookup_empty in Hl.
            discriminate Hl.
        - intros e []. }
    apply ensures_assume. intros ->. cbn [configs constructed].
    eapply ensures_bind with
      (R := fun _ s => (booting s /\ registeredOn connects cs s) /\
                       trackedOn connects [] s).
    { eapply ensures_weaken.
      - apply (ensures_forEach_done _
                 (fun done s => booting s /\ registeredOn connects done s) cs).
        intros x done Hx. apply registering_registerClient. exact Hx.
      - intros s Hs. exact Hs.
      - cbn beta. intros _ s [H1 H2]. split; [split; [exact H1|]|].
        + intros e He. apply H2. rewrite app_nil_r. apply in_rev in He.
          exact He.
        + intros e [].
      - auto. }
    intros [].
    eapply ensures_bind with
      (R := fun _ s => (booting s /\ registeredOn connects cs s) /\
                       trackedOn connects cs s).
    { eapply ensures_weaken.
      - apply (ensures_forEach_done _
                 (fun done s => (booting s /\ registeredOn connects cs s) /\
                                trackedOn connects done s) cs).
        intros x done Hx. apply tracking_step. exact Hx.
      - intros s Hs. exact Hs.
      - cbn beta. intros _ s [H1 H2]. split; [exact H1|].
        intros e He. apply H2. rewrite app_nil_r. apply in_rev in He.
        exact He.
      - auto. }
    intros []. apply ensures_modify. intros s [[H1 H2] H3].
    split; [exact H1 | split; [exact H2 | exact H3]]. }
  intros s. pose proof (ensures_run _ _ _ _ (constructed cfg cs) H eq_refl) as R.
  subst s. destruct (initialize connects now (constructed cfg cs)) as [[[]|e] s'];
    cbn in *; [exact R | destruct R].
Qed.

(** The state that [initialize] leaves, and the runs from it. *)
Definition ready (cfg : Config) : State :=
  snd (initialize connects now (constructed cfg cs)).

Lemma ready_metered (cfg : Config) : metered (ready cfg).
Proof.
  destruct (initialize_sets_up cfg) as (((_ & Hreg & _) & _) & _ & Htr).
  intros n Hn. destruct (Hreg n Hn) as [[Hin _] _].
  apply in_map_iff in Hin. destruct Hin as (e & <- & He).
  apply (Htr e He).
Qed.

Lemma ready_complete (cfg : Config) (name : string) :
  connected connects cs name -> complete (ready cfg) name.
Proof.
  destruct (initialize_sets_up cfg) as (_ & Hall & Htr).
  intros [Hin Hc]. apply in_map_iff in Hin. destruct Hin as (e & <- & He).
  destruct (Htr e He) as (H1 & H2 & H3 & H4).
  repeat split; try assumption; [|apply H4; exact Hc].
  apply Hall; [exact He|]. rewrite Hc. reflexivity.
Qed.

Lemma ready_steady (cfg : Config) (evs : list Event) :
  steady (ready cfg) (fun n => requestCount <$> clients (ready cfg) !! n)
         (runEvents (ready cfg) evs).
Proof.
  apply steady_runEvents; [apply ready_metered|].
  split; [apply grows_refl | split; [intros n; reflexivity|]].
  destruct (initialize_sets_up cfg) as (((_ & _ & _ & Hacc) & _) & _).
  intros n m Hm. destruct (Hacc n m Hm) as (H1 & H2 & H3).
  unfold settledMetrics. rewrite H1, H2, H3. split; [lia | reflexivity].
Qed.

End Boot.

(** ** A success and a failure on a client that is complete *)

Lemma success_runs (name : string) (responseTime : Q) (s : State) :
  complete s name ->
  exists stats s',
    loadBalancingStats s !! name = Some stats /\
    updateSuccessMetrics name responseTime s = (Ok tt, s') /\
    weightIn s' name = Some (Qmin (weight stats * 1.1) 2.0).
Proof.
  intros ([c Ec] & [h Eh] & [m Em] & [b Eb] & [l El]).
  exists l. unfold updateSuccessMetrics. run_unfold.
  rewrite Ec. cbn beta iota. state_fields. rewrite Em. cbn beta iota.
  state_fields. rewrite Eb. cbn beta iota.
  destruct (isOpen b); cbn beta iota; state_fields; rewrite Eh;
    cbn beta iota; state_fields; rewrite El; cbn beta iota.
  all: eexists; split; [reflexivity|]; split; [reflexivity|].
  all: unfold weightIn; state_fields; rewrite lookup_insert_eq; reflexivity.
Qed.

Lemma failure_runs (name : string) (e : Error) (now : Z) (s : State) :
  complete s name -> e <> ThrownUndefined ->
  exists stats s',
    loadBalancingStats s !! name = Some stats /\
    updateFailureMetrics name e now s = (Ok tt, s') /\
    weightIn s' name = Some (Qmax (weight stats * 0.8) 0.1).
Proof.
  intros ([c Ec] & [h Eh] & [m Em] & [b Eb] & [l El]) He.
  exists l. unfold updateFailureMetrics. run_unfold.
  rewrite Ec. cbn beta iota. state_fields. rewrite Em. cbn beta iota.
  state_fields. rewrite Eh. cbn beta iota.
  destruct e; [| |congruence]; cbn beta iota; state_fields;
    rewrite ?lookup_insert_eq; cbn beta iota; state_fields;
    rewrite Eb; cbn beta iota; state_fields.
  all: destruct (circuitBreakerThreshold (config s) <=? S (failureCount b))%nat;
    destruct (3 <=? S (consecutiveErrors h))%nat;
    cbn beta iota; state_fields; rewrite El; cbn beta iota.
  all: eexists; split; [reflexivity|]; split; [reflexivity|].
  all: unfold weightIn; state_fields; rewrite lookup_insert_eq; reflexivity.
Qed.


(** X20.  After [initialize] and any sequence of requests, health checks
    and client events, handled one after the other, no registered client
    has a request in flight: [executeRequest] gives back in its [finally]
    the unit of [requestCount] that it took, whether the call succeeded,
    failed, or failed over to another client. *)
Theorem no_request_stays_in_flight
    (cfg : Config) (cs : list (string * ClientConfig))
    (connects : string -> Connection) (start : Z) (evs : list Event) :
  let s := runEvents (snd (initialize connects start (constructed cfg cs))) evs in
  forall name c, clients s !! name = Some c -> requestCount c = 0%Z.
Proof.
  intros s name c Hc.
  destruct (initialize_sets_up connects cs start cfg)
    as (((_ & _ & Hidle & _) & _) & _ & _).
  destruct (ready_steady connects cs start cfg evs) as (_ & HL & _).
  specialize (HL name). unfold ready in HL. fold s in HL. rewrite Hc in HL.
  destruct (clients (snd (initialize connects start (constructed cfg cs)))
              !! name) as [c0|] eqn:E0; [|discriminate HL].
  cbn in HL. injection HL as ->. apply (Hidle name c0 E0).
Qed.

(** X22.  After [initialize] and any sequence of requests, health checks
    and client events, the registered clients are exactly the configured
    clients for which [initializeClient] got as far as the registration
    (it resolved, or it rejected after [this.clients.set]); the clients with
    load statistics are exactly those for which it resolved; and every
    registered client has its capabilities, its configuration and an entry
    for its health, its metrics and its circuit breaker. *)
Theorem registered_clients_are_the_admitted_ones_and_stay_tracked
    (cfg : Config) (cs : list (string * ClientConfig))
    (connects : string -> Connection) (start : Z) (evs : list Event) :
  let s := runEvents (snd (initialize connects start (constructed cfg cs))) evs in
  (forall name, is_Some (clients s !! name) <-> admitted connects cs name) /\
  (forall name,
     is_Some (loadBalancingStats s !! name) <-> connected connects cs name) /\
  (forall name,
     admitted connects cs name ->
     is_Some (mapGet name (capabilities s)) /\
     is_Some (lookupConfig (configs s) name) /\
     is_Some (healthStatus s !! name) /\
     is_Some (requestMetrics s !! name) /\
     is_Some (circuitBreakers s !! name)).
Proof.
  intros s.
  destruct (initialize_sets_up connects cs start cfg)
    as (((Hcfg & Hreg & _ & _) & Hms) & Hall & Htr).
  destruct (ready_steady connects cs start cfg evs)
    as ((Gcfg & Gcs & Gcaps & Gcl & Gh & Gm & Gb & Gl) & _ & _).
  unfold ready in *. fold s in Gcfg, Gcs, Gcaps, Gcl, Gh, Gm, Gb, Gl.
  assert (Hadm : forall name, admitted connects cs name ->
            is_Some (clients (snd (initialize connects start
                                     (constructed cfg cs))) !! name)).
  { intros n [Hin Hc]. apply in_map_iff in Hin. destruct Hin as (e & <- & He).
    apply Hall; assumption. }
  split; [|split].
  - intros n. rewrite Gcl. split; [intros Hn; apply Hreg; exact Hn | apply Hadm].
  - intros n. rewrite Gl. split; [apply Hms|].
    intros [Hin Hc]. apply in_map_iff in Hin. destruct Hin as (e & <- & He).
    apply (Htr e He). exact Hc.
  - intros n Ha. pose proof (Hadm n Ha) as Hn.
    destruct Ha as [Hin Hc]. apply in_map_iff in Hin.
    destruct Hin as (e & <- & He). destruct (Htr e He) as (H1 & H2 & H3 & _).
    split; [rewrite Gcaps; apply (Hreg _ Hn)|].
    split; [rewrite Gcs, Hcfg; apply lookupConfig_in; exact He|].
    split; [apply Gh; exact H1|]. split; [apply Gm; exact H2 | apply Gb; exact H3].
Qed.

(** X23.  After [initialize] and any sequence of requests, health checks
    and client events, handled one after the other, every request counted
    in [totalRequests] has been counted as a success or as a failure:
    [totalRequests <= successfulRequests + failedRequests] for every client,
    with equality for the clients whose connection succeeded.  (A client
    that was registered and then rejected has no load statistics, so an
    answered request is counted as a success and then, when
    [updateSuccessMetrics] throws, as a failure as well.) *)
Theorem every_counted_request_is_a_success_or_a_failure
    (cfg : Config) (cs : list (string * ClientConfig))
    (connects : string -> Connection) (start : Z) (evs : list Event) :
  let s := runEvents (snd (initialize connects start (constructed cfg cs))) evs in
  forall name m,
    requestMetrics s !! name = Some m ->
    (totalRequests m <= successfulRequests m + failedRequests m)%nat /\
    (connected connects cs name ->
     totalRequests m = (successfulRequests m + failedRequests m)%nat).
Proof.
  intros s name m Hm.
  destruct (ready_steady connects cs start cfg evs) as (_ & _ & HA).
  destruct (HA name m Hm) as [H1 H2]. split; [exact H1|].
  intros Hc. apply H2. apply ready_complete. exact Hc.
Qed.

(** ** Instances *)


Lemma no_request_stays_in_flight_witness :
  exists c,
    clients
      (runEvents (snd (initialize (fun _ => Connected) 0
                         (constructed defaultConfig clientConfigs)))
                 [pricing timingOut 0; pricing answering 1])
      !! "coingecko"%string = Some c /\
    errorCount c = 1%nat /\
    requestCount c = 0%Z.
Proof.
  assert (E : exists c,
            clients
              (runEvents (snd (initialize (fun _ => Connected) 0
                                 (constructed defaultConfig clientConfigs)))
                         [pricing timingOut 0; pricing answering 1])
              !! "coingecko"%string = Some c /\
            errorCount c = 1%nat)
    by (vm_compute; eexists; split; reflexivity).
  destruct E as (c & E & Hc). exists c. split; [exact E|]. split; [exact Hc|].
  exact (no_request_stays_in_flight
           defaultConfig clientConfigs (fun _ => Connected) 0
           [pricing timingOut 0; pricing answering 1] "coingecko"%string c E).
Defined.

Lemma every_counted_request_is_a_success_or_a_failure_witness :
  exists m,
    requestMetrics
      (runEvents (snd (initialize (fun _ => Connected) 0
                         (constructed defaultConfig clientConfigs)))
                 [pricing timingOut 0; pricing answering 1])
      !! "coingecko"%string = Some m /\
    totalRequests m = 2%nat /\
    (totalRequests m <= successfulRequests m + failedRequests m)%nat /\
    (connected (fun _ => Connected) clientConfigs "coingecko" ->
     totalRequests m = (successfulRequests m + failedRequests m)%nat).
Proof.
  assert (E : exists m,
            requestMetrics
              (runEvents (snd (initialize (fun _ => Connected) 0
                                 (constructed defaultConfig clientConfigs)))
                         [pricing timingOut 0; pricing answering 1])
              !! "coingecko"%string = Some m /\
            totalRequests m = 2%nat)
    by (vm_compute; eexists; split; reflexivity).
  destruct E as (m & E & Hm). exists m. split; [exact E|]. split; [exact Hm|].
  exact (every_counted_request_is_a_success_or_a_failure
           defaultConfig clientConfigs (fun _ => Connected) 0
           [pricing timingOut 0; pricing answering 1] "coingecko"%string m E).
Defined.

(** A client that is registered and then rejected: the class of [coingecko]
    has no method [on], so [initializeClient] rejects after
    [this.clients.set].  The client is registered with [isHealthy] true and
    marked unhealthy with its breaker open.  A round of health checks after
    the cooldown closes the breaker, and the next pricing request is routed
    to it.  The answer is counted as a success; [updateSuccessMetrics] then
    throws on the missing load statistics and the request is counted as a
    failure as well. *)
Example rejected_after_registration_is_called :
  let s0 := snd (initialize coingeckoDeaf 0
                   (constructed defaultConfig clientConfigs)) in
  let s := runEvents s0 [probesPass 60000; pricing answering 60001] in
  (isHealthy <$> clients s0 !! "coingecko"%string) = Some true /\
  (isOpen <$> circuitBreakers s0 !! "coingecko"%string) = Some true /\
  loadBalancingStats s0 !! "coingecko"%string = None /\
  calls s = ["coingecko"%string] /\
  ((fun m => (totalRequests m, successfulRequests m, failedRequests m))
     <$> requestMetrics s !! "coingecko"%string) = Some (1, 1, 1)%nat /\
  (requestCount <$> clients s !! "coingecko"%string) = Some 0%Z /\
  loadBalancingStats s !! "coingecko"%string = None.
Proof. vm_compute. repeat split; reflexivity. Qed.

End CoordinatorFacts.
